(** * shzm: the extraction engine of [parser.js], embedded in Rocq

    The development follows [parser.js] function by function:
    the ESTree nodes the code reads, acorn-walk's [ancestor] traversal,
    [parseCallee], [maybeGetLiteralValue], [findFuncCalls], [findTests] and
    [findExportedFunc].  Code that throws is modelled in the [result] monad;
    optional object keys are [option] fields ([None] = key absent). *)

From Stdlib Require Import List String Ascii ZArith Bool Lia DecimalString.
Import ListNotations.

Local Open Scope Z_scope.
Local Open Scope list_scope.

(** JavaScript's [+] on strings. *)
Infix "+++" := String.append (at level 60, right associativity).

(* ================================================================== *)
(** ** Errors and the [result] monad *)

Inductive error : Type :=
| TypeError
| AssertionError (message : string)
| ParseLimitationsError (message : string) (atChar : Z).

Inductive result (A : Type) : Type :=
| Ok (a : A)
| Throw (e : error).

Arguments Ok {A} a.
Arguments Throw {A} e.

Definition bind {A B} (r : result A) (k : A -> result B) : result B :=
  match r with
  | Ok a => k a
  | Throw e => Throw e
  end.

Notation "x <- c ;; k" := (bind c (fun x => k))
  (at level 61, c at next level, right associativity).
Notation "' pat <- c ;; k" :=
  (bind c (fun x => match x with pat => k end))
  (at level 61, pat pattern, c at next level, right associativity).

(** [Array.prototype.map] with a callback that may throw. *)
Fixpoint mapM {A B} (f : A -> result B) (l : list A) : result (list B) :=
  match l with
  | [] => Ok []
  | x :: l' => y <- f x ;; ys <- mapM f l' ;; Ok (y :: ys)
  end.

(** [Array.prototype.forEach] threading the variables the callback mutates. *)
Fixpoint forEach {A S} (f : A -> S -> result S) (l : list A) (s : S) : result S :=
  match l with
  | [] => Ok s
  | x :: l' => s' <- f x s ;; forEach f l' s'
  end.

(* ================================================================== *)
(** ** Strings

    A string is a sequence of 8-bit characters: text outside that range,
    which JavaScript holds as 16-bit code units, is not represented. *)

Definition startsWith (s p : string) : bool := String.prefix p s.

Definition endsWith (s suffix : string) : bool :=
  let n := String.length s in
  let m := String.length suffix in
  if Nat.leb m n then String.eqb (String.substring (n - m) m s) suffix else false.

(** [Array.prototype.join('')]. *)
Definition join (l : list string) : string :=
  fold_right String.append EmptyString l.

(** The one-character string holding a double quote. *)
Definition dquote : string := String (Ascii.ascii_of_nat 34) EmptyString.

(** String coercion of a possibly undefined string field. *)
Definition str_of (o : option string) : string :=
  match o with
  | Some s => s
  | None => "undefined"
  end.

(* ================================================================== *)
(** ** Syntax trees (ESTree, as produced by acorn)

    One constructor per node kind the code dispatches on; every other kind is
    [Other], carrying its type tag (a kind without a constructor of its own)
    and the children the walker descends into.
    The [value] of a numeric literal is a double: [LNumber n] is the double
    nearest to the integer [n] (fractions and BigInt literals are not
    represented); a regular expression carries its [source] and [flags].  An
    element of an array literal is [None] at a hole, as in [[1,,2]], where
    acorn has [null]. *)

Inductive literal : Type :=
| LString (s : string)
| LNumber (n : Z)
| LBoolean (b : bool)
| LNull
| LRegExp (source flags : string).

(** Induction principles that reach through the [list] and [option] children. *)
Scheme All for list.
Scheme All for option.

Inductive Node : Type :=
| Identifier (start end_ : Z) (name : string)
| Literal (start end_ : Z) (value : literal)
| ThisExpression (start end_ : Z)
| MemberExpression (start end_ : Z) (object property : Node) (computed : bool)
| CallExpression (start end_ : Z) (callee : Node) (arguments : list Node)
| NewExpression (start end_ : Z) (callee : Node) (arguments : list Node)
| ArrayExpression (start end_ : Z) (elements : list (option Node))
| ObjectExpression (start end_ : Z) (properties : list Node)
| Property (start end_ : Z) (key value : Node) (computed : bool)
| SpreadElement (start end_ : Z) (argument : Node)
| TemplateLiteral (start end_ : Z) (quasis : list string) (expressions : list Node)
| ArrowFunctionExpression (start end_ : Z) (async : bool) (params : list Node) (body : Node)
| FunctionExpression (start end_ : Z) (async : bool) (params : list Node) (body : Node)
| AwaitExpression (start end_ : Z) (argument : Node)
| BlockStatement (start end_ : Z) (body : list Node)
| ExpressionStatement (start end_ : Z) (expression : Node)
| VariableDeclaration (start end_ : Z) (kind : string) (declarations : list Node)
| VariableDeclarator (start end_ : Z) (id : Node) (init : option Node)
| FunctionDeclaration (start end_ : Z) (async : bool) (id : option Node)
    (params : list Node) (body : Node)
| ExportNamedDeclaration (start end_ : Z) (declaration : option Node)
| ExportDefaultDeclaration (start end_ : Z) (declaration : Node)
| Program (start end_ : Z) (body : list Node)
| Other (type : string) (start end_ : Z) (children : list Node).

Definition node_type (n : Node) : string :=
  match n with
  | Identifier _ _ _ => "Identifier"
  | Literal _ _ _ => "Literal"
  | ThisExpression _ _ => "ThisExpression"
  | MemberExpression _ _ _ _ _ => "MemberExpression"
  | CallExpression _ _ _ _ => "CallExpression"
  | NewExpression _ _ _ _ => "NewExpression"
  | ArrayExpression _ _ _ => "ArrayExpression"
  | ObjectExpression _ _ _ => "ObjectExpression"
  | Property _ _ _ _ _ => "Property"
  | SpreadElement _ _ _ => "SpreadElement"
  | TemplateLiteral _ _ _ _ => "TemplateLiteral"
  | ArrowFunctionExpression _ _ _ _ _ => "ArrowFunctionExpression"
  | FunctionExpression _ _ _ _ _ => "FunctionExpression"
  | AwaitExpression _ _ _ => "AwaitExpression"
  | BlockStatement _ _ _ => "BlockStatement"
  | ExpressionStatement _ _ _ => "ExpressionStatement"
  | VariableDeclaration _ _ _ _ => "VariableDeclaration"
  | VariableDeclarator _ _ _ _ => "VariableDeclarator"
  | FunctionDeclaration _ _ _ _ _ _ => "FunctionDeclaration"
  | ExportNamedDeclaration _ _ _ => "ExportNamedDeclaration"
  | ExportDefaultDeclaration _ _ _ => "ExportDefaultDeclaration"
  | Program _ _ _ => "Program"
  | Other type _ _ _ => type
  end.

Definition node_start (n : Node) : Z :=
  match n with
  | Identifier s _ _ | Literal s _ _ | ThisExpression s _
  | MemberExpression s _ _ _ _ | CallExpression s _ _ _ | NewExpression s _ _ _
  | ArrayExpression s _ _ | ObjectExpression s _ _ | Property s _ _ _ _
  | SpreadElement s _ _ | TemplateLiteral s _ _ _
  | ArrowFunctionExpression s _ _ _ _ | FunctionExpression s _ _ _ _
  | AwaitExpression s _ _ | BlockStatement s _ _ | ExpressionStatement s _ _
  | VariableDeclaration s _ _ _ | VariableDeclarator s _ _ _
  | FunctionDeclaration s _ _ _ _ _ | ExportNamedDeclaration s _ _
  | ExportDefaultDeclaration s _ _ | Program s _ _ | Other _ s _ _ => s
  end.

Definition node_end (n : Node) : Z :=
  match n with
  | Identifier _ e _ | Literal _ e _ | ThisExpression _ e
  | MemberExpression _ e _ _ _ | CallExpression _ e _ _ | NewExpression _ e _ _
  | ArrayExpression _ e _ | ObjectExpression _ e _ | Property _ e _ _ _
  | SpreadElement _ e _ | TemplateLiteral _ e _ _
  | ArrowFunctionExpression _ e _ _ _ | FunctionExpression _ e _ _ _
  | AwaitExpression _ e _ | BlockStatement _ e _ | ExpressionStatement _ e _
  | VariableDeclaration _ e _ _ | VariableDeclarator _ e _ _
  | FunctionDeclaration _ e _ _ _ _ | ExportNamedDeclaration _ e _
  | ExportDefaultDeclaration _ e _ | Program _ e _ | Other _ _ e _ => e
  end.

(** The [name] field: only identifiers have one. *)
Definition node_name (n : Node) : option string :=
  match n with
  | Identifier _ _ name => Some name
  | _ => None
  end.

(** The [async] field of function nodes; undefined elsewhere. *)
Definition node_async (n : Node) : option bool :=
  match n with
  | ArrowFunctionExpression _ _ a _ _ | FunctionExpression _ _ a _ _
  | FunctionDeclaration _ _ a _ _ _ => Some a
  | _ => None
  end.

Definition isCallExpression (n : Node) : bool :=
  match n with
  | CallExpression _ _ _ _ => true
  | _ => false
  end.

(* ================================================================== *)
(** ** acorn-walk: [walk.ancestor]

    acorn-walk is a library the code calls.  Its [ancestor] pushes a node on
    the ancestor stack, lets the base visitor of its kind descend into the
    children, then calls the user's visitor for the node's type with the
    stack and pops.  The stack runs from the root to the node itself, its
    last element: [findFuncCalls] reads the parent at [ancestors.at(-2)].
    [visits] lists these callbacks in the order they happen, each with the
    stack it sees.  The walker of an array literal skips the holes. *)

Definition visit : Type := (Node * list Node)%type.

Fixpoint visits (ancestors : list Node) (n : Node) {struct n} : list visit :=
  let anc := ancestors ++ [n] in
  let each := fix each (l : list Node) : list visit :=
    match l with
    | [] => []
    | x :: l' => visits anc x ++ each l'
    end in
  let each_element := fix each_element (l : list (option Node)) : list visit :=
    match l with
    | [] => []
    | Some x :: l' => visits anc x ++ each_element l'
    | None :: l' => each_element l'
    end in
  match n with
  | Identifier _ _ _ | Literal _ _ _ | ThisExpression _ _ => []
  | MemberExpression _ _ object property computed =>
      visits anc object ++ (if computed then visits anc property else [])
  | CallExpression _ _ callee arguments
  | NewExpression _ _ callee arguments => visits anc callee ++ each arguments
  | ArrayExpression _ _ elements => each_element elements
  | ObjectExpression _ _ properties => each properties
  | Property _ _ key value computed =>
      (if computed then visits anc key else []) ++ visits anc value
  | SpreadElement _ _ argument => visits anc argument
  | TemplateLiteral _ _ _ expressions => each expressions
  | ArrowFunctionExpression _ _ _ params body
  | FunctionExpression _ _ _ params body => each params ++ visits anc body
  | AwaitExpression _ _ argument => visits anc argument
  | BlockStatement _ _ body | Program _ _ body => each body
  | ExpressionStatement _ _ expression => visits anc expression
  | VariableDeclaration _ _ _ declarations => each declarations
  | VariableDeclarator _ _ id init =>
      visits anc id ++ match init with Some i => visits anc i | None => [] end
  | FunctionDeclaration _ _ _ id params body =>
      match id with Some i => visits anc i | None => [] end
      ++ each params ++ visits anc body
  | ExportNamedDeclaration _ _ declaration =>
      match declaration with Some d => visits anc d | None => [] end
  | ExportDefaultDeclaration _ _ declaration => visits anc declaration
  | Other _ _ _ children => each children
  end ++ [(n, anc)].

(** [walk.ancestor(ast, { CallExpression: visitor })]: the visitor runs on the
    nodes of type CallExpression only; a throw ends the walk. *)
Definition walk_ancestor {S : Type}
    (CallExpression : Node -> list Node -> S -> result S)
    (ast : Node) (s : S) : result S :=
  forEach (fun (v : visit) s =>
             if isCallExpression (fst v) then CallExpression (fst v) (snd v) s
             else Ok s)
          (visits [] ast) s.

(* ================================================================== *)
(** ** [parseCallee] *)

(** [_traverse]; [None] is the thrown [IgnoreMe]. *)
Fixpoint _traverse (_node : Node) : option string :=
  match _node with
  | Identifier _ _ name => Some name
  | MemberExpression _ _ object property _ =>
      match _traverse object with
      | Some s => Some (s +++ "." +++ str_of (node_name property))
      | None => None
      end
  | CallExpression _ _ callee _ =>
      match _traverse callee with
      | Some s => Some (s +++ "()")
      | None => None
      end
  | ThisExpression _ _ => Some "this"%string
  | _ => None
  end.

(** [parseCallee]; [Ok None] is the returned [null]. *)
Definition parseCallee (node : Node) : result (option string) :=
  match node with
  | CallExpression _ _ callee _ => Ok (_traverse callee)
  | _ => Throw (AssertionError "This method should only be called on CallExpression nodes")
  end.

(** Truthiness of what [parseCallee] returns ([null] and [''] are falsy). *)
Definition truthy_name (dotted : option string) : bool :=
  match dotted with
  | Some s => negb (String.eqb s "")
  | None => false
  end.

Definition isTestIdentifier (ident : string) : bool :=
  String.eqb ident "it" || startsWith ident "it.".

Definition isDescribeIdentifier (ident : string) : bool :=
  String.eqb ident "describe" || startsWith ident "describe.".

Definition isTestOrDescribeIdentifier (ident : string) : bool :=
  isTestIdentifier ident || isDescribeIdentifier ident.

Definition isSkip (ident : string) : bool := endsWith ident ".skip".

Definition isIosOnly (ident : string) : bool :=
  endsWith ident ".iosOnly" || endsWith ident ".ios".

Definition isAndroidOnly (ident : string) : bool :=
  endsWith ident ".androidOnly" || endsWith ident ".android".

Definition isOnly (ident : string) : bool := endsWith ident ".only".

(* ================================================================== *)
(** ** Output records (the shapes documented in the README) *)

Scheme All for prod.

(** A statically evaluated argument. *)
Inductive value : Type :=
| VLiteral (l : literal)
| VObject (props : list (string * value))
| VArray (elems : list value).

Module ArgumentObj.
Record t : Type := mk { type : string; start : Z; end_ : Z }.
End ArgumentObj.

Module DeferredErrorObj.
Record t : Type := mk { message : string; loc : Z }.
End DeferredErrorObj.

Module CallObj.
Record t : Type := mk {
  name : string;
  start : Z;
  rootStart : Z;
  end_ : Z;
  arguments : list ArgumentObj.t;
  await : bool;
  literalArguments : option (list (nat * value));
  apiSyncDisabled : option bool;
  apiWaitAfter : option bool;
  errors : option (list DeferredErrorObj.t)
}.
End CallObj.

Module ScopeObj.
Record t : Type := mk {
  name : literal;
  func : string;
  start : Z;
  end_ : Z;
  skip : option bool;
  only : option bool;
  iosOnly : option bool;
  androidOnly : option bool
}.
End ScopeObj.

(** TestObj and HookObj: the object literals pushed by [findTests].  A hook is
    pushed without the four aggregate keys. *)
Module CaseObj.
Record t : Type := mk {
  scope : list ScopeObj.t;
  start : Z;
  end_ : Z;
  async : option bool;
  funcStart : Z;
  funcEnd : Z;
  calls : list CallObj.t;
  skip : option bool;
  only : option bool;
  iosOnly : option bool;
  androidOnly : option bool
}.
End CaseObj.

Module FunctionObj.
Record t : Type := mk {
  name : option string;
  start : Z;
  end_ : Z;
  exportStart : Z;
  exportEnd : Z;
  funcStart : Z;
  funcEnd : Z;
  async : option bool;
  calls : list CallObj.t
}.
End FunctionObj.

(** [...(cond && { key: true })]: the key is present, with value [true], or
    absent. *)
Definition key_if (cond : bool) : option bool :=
  if cond then Some true else None.

(** Truthiness of an optional boolean key. *)
Definition truthy_key (k : option bool) : bool :=
  match k with
  | Some b => b
  | None => false
  end.

(* ================================================================== *)
(** ** [getPropertyKey] and [maybeGetLiteralValue] *)

Definition truthy_literal (l : literal) : bool :=
  match l with
  | LString s => negb (String.eqb s "")
  | LNumber n => negb (n =? 0)
  | LBoolean b => b
  | LNull => false
  | LRegExp _ _ => true
  end.

Definition truthy_value (v : option value) : bool :=
  match v with
  | Some (VLiteral l) => truthy_literal l
  | Some (VObject _) | Some (VArray _) => true
  | None => false
  end.

(** [getPropertyKey]; [None] is [undefined]. *)
Definition getPropertyKey (propNode : Node) : option literal :=
  match propNode with
  | Property _ _ key _ _ =>
      match key with
      | Literal _ _ value => Some value
      | Identifier _ _ name => Some (LString name)
      | _ => None
      end
  | _ => None
  end.

Definition truthy_propkey (k : option literal) : bool :=
  match k with
  | Some l => truthy_literal l
  | None => false
  end.

(** The decimal digits of a natural number. *)
Definition decimal (n : Z) : string := NilZero.string_of_int (Z.to_int n).

(** The number of decimal digits of a positive integer. *)
Definition decimal_length (n : Z) : Z := Z.of_nat (String.length (decimal n)).

(** The gap between the doubles next to the positive integer [n]. *)
Definition ulp (n : Z) : Z := 2 ^ Z.max 0 (Z.log2 n - 52).

(** The double nearest to a positive integer, ties to the even mantissa. *)
Definition nearest_double (n : Z) : Z :=
  let u := ulp n in
  let q := n / u in
  let r := n mod u in
  if 2 * r <? u then q * u
  else if u <? 2 * r then (q + 1) * u
  else if Z.even q then q * u else (q + 1) * u.

(** Whether the decimal [v] reads back as the double [x]: it lies within half
    a gap of [x] (a quarter below a power of two, where the gap halves), the
    ends included when the mantissa of [x] is even. *)
Definition reads_as (x v : Z) : bool :=
  let u := ulp x in
  let below := if x =? 2 ^ Z.log2 x then u else 2 * u in
  if Z.even (x / u)
  then (4 * x - below <=? 4 * v) && (4 * v <=? 4 * x + 2 * u)
  else (4 * x - below <? 4 * v) && (4 * v <? 4 * x + 2 * u).

(** The shortest digits [s], with the number [n] of digits before the
    decimal point, that read back as the double [x]: the pair tried with [k]
    digits, then with more. *)
Fixpoint shortest_digits (fuel : nat) (x k : Z) : Z * Z :=
  let p := decimal_length x in
  match fuel with
  | O => (x, p)
  | S fuel' =>
      let scale := 10 ^ (p - k) in
      let lo := x / scale in
      let hi := lo + 1 in
      let lo_ok := reads_as x (lo * scale) in
      let hi_ok := reads_as x (hi * scale) in
      let take_hi := if hi =? 10 ^ k then (1, p + 1) else (hi, p) in
      if lo_ok && hi_ok then
        let d_lo := x - lo * scale in
        let d_hi := hi * scale - x in
        if d_lo <? d_hi then (lo, p)
        else if d_hi <? d_lo then take_hi
        else if Z.even lo then (lo, p) else take_hi
      else if lo_ok then (lo, p)
      else if hi_ok then take_hi
      else shortest_digits fuel' x (k + 1)
  end.

Definition zeros (n : Z) : string :=
  fold_right String.append EmptyString (repeat "0"%string (Z.to_nat n)).

(** [Number::toString] on a number whose value is the integer nearest to
    [n]. *)
Definition Number_toString (n : Z) : string :=
  if n =? 0 then "0"
  else
    let sign := if n <? 0 then "-"%string else ""%string in
    let a := Z.abs n in
    if 2 ^ 1024 - 2 ^ 970 <=? a then sign +++ "Infinity"
    else
      let x := nearest_double a in
      let (s, n) := shortest_digits (Z.to_nat (decimal_length x)) x 1 in
      let digits := decimal s in
      let k := Z.of_nat (String.length digits) in
      sign +++
      (if n <=? 21 then digits +++ zeros (n - k)
       else
         match digits with
         | String d EmptyString => String d EmptyString
         | String d rest => String d ("." +++ rest)
         | EmptyString => EmptyString
         end +++ "e+" +++ decimal (n - 1)).

(** The property name [output[key]] assigns to: the key converted to a
    string. *)
Definition ToPropertyKey (l : literal) : string :=
  match l with
  | LString s => s
  | LNumber n => Number_toString n
  | LBoolean true => "true"
  | LBoolean false => "false"
  | LNull => "null"
  | LRegExp source flags => "/" +++ source +++ "/" +++ flags
  end.

(** [key] as an array index: the decimal form, without leading zeros, of an
    integer from 0 to 2^32 - 2. *)
Definition array_index (key : string) : option Z :=
  match NilEmpty.uint_of_string key with
  | Some d =>
      let i := Z.of_uint d in
      if String.eqb (decimal i) key && (i <? 2 ^ 32 - 1) then Some i else None
  | None => None
  end.

Definition has_key (output : list (string * value)) (key : string) : bool :=
  existsb (fun entry => String.eqb (fst entry) key) output.

(** Assignment to a property the object has: it keeps its place. *)
Fixpoint obj_replace (output : list (string * value)) (key : string) (v : value)
    : list (string * value) :=
  match output with
  | [] => []
  | (k, w) :: rest =>
      if String.eqb k key then (k, v) :: rest else (k, w) :: obj_replace rest key v
  end.

(** A new property whose name is the array index [i]: it comes after the
    smaller indices and before everything else. *)
Fixpoint obj_insert_index (output : list (string * value)) (i : Z) (key : string)
    (v : value) : list (string * value) :=
  match output with
  | [] => [(key, v)]
  | (k, w) :: rest =>
      match array_index k with
      | Some j =>
          if j <? i then (k, w) :: obj_insert_index rest i key v
          else (key, v) :: (k, w) :: rest
      | None => (key, v) :: (k, w) :: rest
      end
  end.

(** [output[key] = value] on an object that started as [{}].  The object is
    the list of its own properties in the order JavaScript enumerates them
    (and [JSON.stringify] prints them): the array indices in ascending order,
    then the other names in the order they were created.  An assignment to
    [__proto__] reaches the setter inherited from [Object.prototype] and
    creates no property (it changes the prototype when the value is an object;
    the prototype is not represented). *)
Definition obj_set (output : list (string * value)) (key : string) (v : value)
    : list (string * value) :=
  if String.eqb key "__proto__" then output
  else if has_key output key then obj_replace output key v
  else
    match array_index key with
    | Some i => obj_insert_index output i key v
    | None => output ++ [(key, v)]
    end.

(** [maybeGetLiteralValue]; [Ok None] is the returned [undefined].  At a
    hole of an array literal the recursive call receives [null], and reading
    its [type] throws. *)
Fixpoint maybeGetLiteralValue (n : Node) {struct n} : result (option value) :=
  match n with
  | Literal _ _ value => Ok (Some (VLiteral value))
  | ObjectExpression _ _ properties =>
      (fix loop (props : list Node) (output : list (string * value))
         : result (option value) :=
         match props with
         | [] => Ok (Some (VObject output))
         | prop :: rest =>
             let key := getPropertyKey prop in
             if negb (truthy_propkey key) then Ok None
             else
               match prop, key with
               | Property _ _ _ pvalue _, Some k =>
                   value <- maybeGetLiteralValue pvalue ;;
                   match value with
                   | Some v =>
                       if negb (truthy_value value) then Ok None
                       else loop rest (obj_set output (ToPropertyKey k) v)
                   | None => Ok None
                   end
               | _, _ => Ok None
               end
         end) properties []
  | ArrayExpression _ _ elements =>
      (fix loop (elems : list (option Node)) (output : list value)
         : result (option value) :=
         match elems with
         | [] => Ok (Some (VArray output))
         | e :: rest =>
             value <- match e with
                      | Some e => maybeGetLiteralValue e
                      | None => Throw TypeError
                      end ;;
             match value with
             | Some v =>
                 if negb (truthy_value value) then Ok None
                 else loop rest (output ++ [v])
             | None => Ok None
             end
         end) elements []
  | _ => Ok None
  end.

(* ================================================================== *)
(** ** [findFuncCalls] *)

(** [assertPropertyNodeIsLiteralBooleanAndExtract]: the extended [errors]
    array and the returned boolean ([None] is [null]). *)
Definition assertPropertyNodeIsLiteralBooleanAndExtract
    (node : Node) (errors : list DeferredErrorObj.t)
    : result (list DeferredErrorObj.t * option bool) :=
  match node with
  | Property _ _ key value _ =>
      match value with
      | Literal _ _ (LBoolean b) => Ok (errors, Some b)
      | _ =>
          Ok (errors ++
                [DeferredErrorObj.mk
                   (dquote +++ str_of (node_name key) +++ dquote +++
                    " property is expected to have literal Boolean value (true/false)")
                   (node_start value)],
              None)
      end
  | _ => Throw TypeError
  end.

Definition literal_eqb_string (k : option literal) (s : string) : bool :=
  match k with
  | Some (LString k) => String.eqb k s
  | _ => false
  end.

Definition option_bool_eqb (o : option bool) (b : bool) : bool :=
  match o with
  | Some b' => Bool.eqb b' b
  | None => false
  end.

(** The variables the api rule assigns: [errors], [apiSyncDisabled],
    [apiWaitAfter]. *)
Definition api_vars : Type := (list DeferredErrorObj.t * bool * bool)%type.

(** The callback of [apiArguments[0].properties.forEach]. *)
Definition api_argProp (argProp : Node) (vars : api_vars) : result api_vars :=
  let '(errors, apiSyncDisabled, apiWaitAfter) := vars in
  '(errors, apiSyncDisabled) <-
    (if literal_eqb_string (getPropertyKey argProp) "sync" then
       '(errors, r) <- assertPropertyNodeIsLiteralBooleanAndExtract argProp errors ;;
       Ok (errors, if option_bool_eqb r false then true else apiSyncDisabled)
     else Ok (errors, apiSyncDisabled)) ;;
  '(errors, apiWaitAfter) <-
    (if literal_eqb_string (getPropertyKey argProp) "waitAfter" then
       '(errors, r) <- assertPropertyNodeIsLiteralBooleanAndExtract argProp errors ;;
       Ok (errors, if option_bool_eqb r true then true else apiWaitAfter)
     else Ok (errors, apiWaitAfter)) ;;
  Ok (errors, apiSyncDisabled, apiWaitAfter).

(** The branch [dottedName.startsWith('api.')].  [node.callee.object] is
    undefined unless the callee is a member access, and reading its [type]
    then throws. *)
Definition api_annotations (callee : Node) : result api_vars :=
  match callee with
  | MemberExpression _ _ object _ _ =>
      match object with
      | CallExpression _ _ _ (ObjectExpression _ _ properties :: _) =>
          forEach api_argProp properties ([], false, false)
      | _ => Ok ([], false, false)
      end
  | _ => Throw TypeError
  end.

(** [node.arguments.forEach((a, i) => ...)] filling [literalArguments],
    from the index [i] on. *)
Fixpoint literal_arguments (i : nat) (args : list Node)
    : result (list (nat * value)) :=
  match args with
  | [] => Ok []
  | a :: rest =>
      value <- maybeGetLiteralValue a ;;
      literalArguments <- literal_arguments (S i) rest ;;
      Ok (match value with
          | Some v =>
              if truthy_value value then (i, v) :: literalArguments
              else literalArguments
          | None => literalArguments
          end)
  end.

Definition is_nil {A} (l : list A) : bool :=
  match l with
  | [] => true
  | _ => false
  end.

(** The CallExpression visitor of [findFuncCalls]. *)
Definition findFuncCalls_visitor (node : Node) (ancestors : list Node)
    (calls : list CallObj.t) : result (list CallObj.t) :=
  let parent :=
    if Nat.ltb 1 (List.length ancestors)
    then nth_error ancestors (List.length ancestors - 2)
    else None in
  dottedName <- parseCallee node ;;
  if negb (truthy_name dottedName) then Ok calls
  else
    match node, dottedName with
    | CallExpression start end_ callee arguments, Some dottedName =>
        let arguments_ :=
          map (fun a => ArgumentObj.mk (node_type a) (node_start a) (node_end a))
              arguments in
        literalArguments <- literal_arguments 0 arguments ;;
        let hasLiteralArguments := negb (is_nil literalArguments) in
        if String.eqb dottedName "api" then Ok calls
        else
          '(errors, apiSyncDisabled, apiWaitAfter) <-
            (if startsWith dottedName "api." then api_annotations callee
             else Ok ([], false, false)) ;;
          Ok (calls ++
                [CallObj.mk
                   dottedName
                   (match callee with
                    | MemberExpression _ _ _ property _ => node_start property
                    | _ => start
                    end)
                   start
                   end_
                   arguments_
                   (match parent with
                    | Some p => String.eqb (node_type p) "AwaitExpression"
                    | None => false
                    end)
                   (if hasLiteralArguments then Some literalArguments else None)
                   (if apiSyncDisabled then Some apiSyncDisabled else None)
                   (if apiWaitAfter then Some apiWaitAfter else None)
                   (if negb (is_nil errors) then Some errors else None)])
    | _, _ => Throw TypeError
    end.

Definition findFuncCalls (ast : Node) : result (list CallObj.t) :=
  walk_ancestor findFuncCalls_visitor ast [].

(* ================================================================== *)
(** ** [findTests] *)

(** [interleaveArray] of utils.js: [[a1; a2; a3]], [[b1; b2]] gives
    [[a1; b1; a2; b2; a3]]. *)
Fixpoint interleaveArray {A} (a b : list A) : list A :=
  match a, b with
  | [], _ => b
  | _, [] => a
  | x :: a', y :: b' => x :: y :: interleaveArray a' b'
  end.

(** [inferTestName]; reading [type] of a missing first argument throws. *)
Definition inferTestName (testCallNode : Node) : result literal :=
  match testCallNode with
  | CallExpression _ _ _ (node :: _) =>
      match node with
      | Literal _ _ value => Ok value
      | TemplateLiteral _ _ quasis expressions =>
          let expressions :=
            map (fun i => "${" +++ str_of (node_name i) +++ "}") expressions in
          Ok (LString (join (interleaveArray quasis expressions)))
      | Identifier _ _ name => Ok (LString ("${" +++ name +++ "}"))
      | _ => Ok (LString ("[Unparseable: " +++ node_type node +++ "]"))
      end
  | _ => Throw TypeError
  end.

Definition SUPPORTED_HOOKS : list string :=
  ["beforeAll"; "beforeEach"; "afterAll"; "afterEach"]%string.

Definition SUPPORTED_HOOKS_has (dottedName : string) : bool :=
  existsb (String.eqb dottedName) SUPPORTED_HOOKS.

(** [ancestors.filter(..).map(..).filter(..)]: the enclosing calls (the
    visited call included) that resolve to a test or describe identifier. *)
Definition scopeNodes (ancestors : list Node)
    : result (list (Node * option string)) :=
  mapped <- mapM (fun n => dotted <- parseCallee n ;; Ok (n, dotted))
                 (filter isCallExpression ancestors) ;;
  Ok (filter (fun o =>
                truthy_name (snd o) &&
                match snd o with
                | Some d => isTestOrDescribeIdentifier d
                | None => false
                end)
             mapped).

(** One scope frame.  The string methods throw on a [null] name. *)
Definition scopeObj (o : Node * option string) : result ScopeObj.t :=
  name <- inferTestName (fst o) ;;
  match snd o with
  | Some dotted =>
      Ok (ScopeObj.mk name dotted (node_start (fst o)) (node_end (fst o))
            (key_if (isSkip dotted))
            (key_if (isOnly dotted))
            (key_if (isIosOnly dotted))
            (key_if (isAndroidOnly dotted)))
  | None => Throw TypeError
  end.

(** [hooks] is an object keyed by hook name; [tests] an array. *)
Record TestsOutput : Type := mkTestsOutput {
  tests : list CaseObj.t;
  hooks : list (string * list CaseObj.t)
}.

(** [hooks[dottedName].push(h)]; a missing key throws. *)
Fixpoint hooks_push (hooks : list (string * list CaseObj.t)) (dottedName : string)
    (h : CaseObj.t) : result (list (string * list CaseObj.t)) :=
  match hooks with
  | [] => Throw TypeError
  | (k, l) :: rest =>
      if String.eqb k dottedName then Ok ((k, l ++ [h]) :: rest)
      else rest' <- hooks_push rest dottedName h ;; Ok ((k, l) :: rest')
  end.

Definition isFunctionLiteral (funcNode : Node) : bool :=
  String.eqb (node_type funcNode) "FunctionExpression"
  || String.eqb (node_type funcNode) "ArrowFunctionExpression".

(** The CallExpression visitor of [findTests]. *)
Definition findTests_visitor (node : Node) (ancestors : list Node)
    (out : TestsOutput) : result TestsOutput :=
  dottedName <- parseCallee node ;;
  if negb (truthy_name dottedName) then Ok out
  else
    match node, dottedName with
    | CallExpression start end_ _ arguments, Some dottedName =>
        if isTestIdentifier dottedName then
          let funcNode := nth_error arguments 1 in
          scopeNodes_ <- scopeNodes ancestors ;;
          scope <- mapM scopeObj scopeNodes_ ;;
          match funcNode with
          | None => Throw TypeError
          | Some funcNode =>
              calls <- findFuncCalls funcNode ;;
              Ok (mkTestsOutput
                    (tests out ++
                       [CaseObj.mk scope start end_ (node_async funcNode)
                          (node_start funcNode) (node_end funcNode) calls
                          (key_if (existsb (fun n => truthy_key (ScopeObj.skip n)) scope))
                          (key_if (existsb (fun n => truthy_key (ScopeObj.only n)) scope))
                          (key_if (existsb (fun n => truthy_key (ScopeObj.iosOnly n)) scope))
                          (key_if (existsb (fun n => truthy_key (ScopeObj.androidOnly n)) scope))])
                    (hooks out))
          end
        else if SUPPORTED_HOOKS_has dottedName then
          match arguments with
          | [funcNode] =>
              if negb (isFunctionLiteral funcNode) then Ok out
              else
                scopeNodes_ <- scopeNodes ancestors ;;
                if existsb (fun o => match snd o with
                                     | Some d => isTestIdentifier d
                                     | None => false
                                     end) scopeNodes_
                then Ok out
                else
                  scope <- mapM scopeObj scopeNodes_ ;;
                  calls <- findFuncCalls funcNode ;;
                  hooks' <- hooks_push (hooks out) dottedName
                              (CaseObj.mk scope start end_ (node_async funcNode)
                                 (node_start funcNode) (node_end funcNode) calls
                                 None None None None) ;;
                  Ok (mkTestsOutput (tests out) hooks')
          | _ => Ok out
          end
        else Ok out
    | _, _ => Throw TypeError
    end.

(** [findTests]; [ast] is [None] for the parser's [null]. *)
Definition findTests (ast : option Node) : result TestsOutput :=
  let out := mkTestsOutput [] (map (fun hook => (hook, [])) SUPPORTED_HOOKS) in
  match ast with
  | Some ast => walk_ancestor findTests_visitor ast out
  | None => Ok out
  end.

(* ================================================================== *)
(** ** [findExportedFunc] *)

(** [Array.prototype.find] with a predicate that may throw. *)
Fixpoint findM {A} (p : A -> result bool) (l : list A) : result (option A) :=
  match l with
  | [] => Ok None
  | x :: l' => b <- p x ;; if b then Ok (Some x) else findM p l'
  end.

Definition truthy_string (s : option string) : bool :=
  match s with
  | Some s => negb (String.eqb s "")
  | None => false
  end.

Definition option_string_eqb (a b : option string) : bool :=
  match a, b with
  | Some a, Some b => String.eqb a b
  | None, None => true
  | _, _ => false
  end.

(** [registerExportedFuncNode]. *)
Definition registerExportedFuncNode (node : Node) (exportStart exportEnd start end_ : Z)
    (exportedFunctions : list FunctionObj.t) : result (list FunctionObj.t) :=
  match node with
  | FunctionDeclaration _ _ async (Some id) _ body =>
      calls <- findFuncCalls body ;;
      Ok (exportedFunctions ++
            [FunctionObj.mk (node_name id) start end_ exportStart exportEnd
               (node_start body) (node_end body) (Some async) calls])
  | _ => Throw TypeError
  end.

(** [registerExportedArrowFuncNode]. *)
Definition registerExportedArrowFuncNode (node : Node)
    (exportStart exportEnd start end_ : Z)
    (exportedFunctions : list FunctionObj.t) : result (list FunctionObj.t) :=
  match node with
  | VariableDeclarator _ _ id init =>
      match init with
      | Some (ArrowFunctionExpression _ _ async _ body) =>
          calls <- findFuncCalls body ;;
          Ok (exportedFunctions ++
                [FunctionObj.mk (node_name id) start end_ exportStart exportEnd
                   (node_start body) (node_end body) (Some async) calls])
      | Some _ =>
          Throw (AssertionError
                   "registerExportedArrowFuncNode should only be used for arrow func declarations")
      | None => Throw TypeError
      end
  | _ =>
      Throw (AssertionError
               "registerExportedArrowFuncNode should be called with VariableDeclarator node")
  end.

(** [d => d.init.type === 'ArrowFunctionExpression']. *)
Definition init_is_arrow (d : Node) : result bool :=
  match d with
  | VariableDeclarator _ _ _ (Some init) =>
      Ok (String.eqb (node_type init) "ArrowFunctionExpression")
  | _ => Throw TypeError
  end.

(** [d => d.id.name === defaultExportedIdentifier]. *)
Definition id_matches (defaultExportedIdentifier : option string) (d : Node)
    : result bool :=
  match d with
  | VariableDeclarator _ _ id _ =>
      Ok (option_string_eqb (node_name id) defaultExportedIdentifier)
  | _ => Throw TypeError
  end.

Definition is_some {A} (o : option A) : bool :=
  match o with
  | Some _ => true
  | None => false
  end.

(** [x !== undefined ? x : exportDefaultDeclaration.field]; the field of a
    missing default export throws. *)
Definition or_default (x fallback : option Z) : result Z :=
  match x, fallback with
  | Some x, _ => Ok x
  | None, Some d => Ok d
  | None, None => Throw TypeError
  end.

(** [maybeRegisterVariableDeclarations]; [exportStart]/[exportEnd] are [None]
    when the caller leaves them out. *)
Definition maybeRegisterVariableDeclarations
    (exportDefaultDeclaration : option Node)
    (defaultExportedIdentifier : option string)
    (node : Node) (exportStart exportEnd : option Z) (start end_ : Z)
    (exportedFunctions : list FunctionObj.t) : result (list FunctionObj.t) :=
  match node with
  | VariableDeclaration _ _ _ declarations =>
      let isExported := is_some exportStart in
      hasArrowFuncDeclaration <- findM init_is_arrow declarations ;;
      hasIdentMatchingDefaultExport <-
        (if truthy_string defaultExportedIdentifier
         then found <- findM (id_matches defaultExportedIdentifier) declarations ;;
              Ok (is_some found)
         else Ok false) ;;
      if negb (is_some hasArrowFuncDeclaration) then Ok exportedFunctions
      else if negb isExported && negb hasIdentMatchingDefaultExport
      then Ok exportedFunctions
      else if Nat.ltb 1 (List.length declarations) then
        match nth_error declarations 1 with
        | Some d1 =>
            Throw (ParseLimitationsError
                     "No support for function export within multi-variable declaration"
                     (node_start d1))
        | None => Throw TypeError
        end
      else
        match nth_error declarations 0 with
        | Some d0 =>
            exportStart <- or_default exportStart
                             (option_map node_start exportDefaultDeclaration) ;;
            exportEnd <- or_default exportEnd
                           (option_map node_end exportDefaultDeclaration) ;;
            registerExportedArrowFuncNode d0 exportStart exportEnd start end_
              exportedFunctions
        | None => Throw TypeError
        end
  | _ => Throw TypeError
  end.

Definition is_const_declaration (n : Node) : bool :=
  match n with
  | VariableDeclaration _ _ kind _ => String.eqb kind "const"
  | _ => false
  end.

(** The callback of [ast.body.forEach]. *)
Definition findExportedFunc_statement
    (exportDefaultDeclaration : option Node)
    (defaultExportedIdentifier : option string)
    (node : Node) (exportedFunctions : list FunctionObj.t)
    : result (list FunctionObj.t) :=
  match node with
  | ExportNamedDeclaration start end_ (Some declaration) =>
      if String.eqb (node_type declaration) "FunctionDeclaration" then
        registerExportedFuncNode declaration start end_ start end_ exportedFunctions
      else if is_const_declaration declaration then
        maybeRegisterVariableDeclarations exportDefaultDeclaration
          defaultExportedIdentifier declaration (Some start) (Some end_) start end_
          exportedFunctions
      else Ok exportedFunctions
  | VariableDeclaration start end_ kind _ =>
      if String.eqb kind "const" then
        maybeRegisterVariableDeclarations exportDefaultDeclaration
          defaultExportedIdentifier node None None start end_ exportedFunctions
      else Ok exportedFunctions
  | FunctionDeclaration start end_ _ id _ _ =>
      if truthy_string defaultExportedIdentifier then
        match id with
        | Some id =>
            if option_string_eqb (node_name id) defaultExportedIdentifier then
              match exportDefaultDeclaration with
              | Some exportDefault =>
                  registerExportedFuncNode node (node_start exportDefault)
                    (node_end exportDefault) start end_ exportedFunctions
              | None => Throw TypeError
              end
            else Ok exportedFunctions
        | None => Throw TypeError
        end
      else Ok exportedFunctions
  | _ => Ok exportedFunctions
  end.

(** [n => n.type === 'ExportDefaultDeclaration' && n.declaration.type === 'Identifier']. *)
Definition is_default_export_of_identifier (n : Node) : bool :=
  match n with
  | ExportDefaultDeclaration _ _ declaration =>
      String.eqb (node_type declaration) "Identifier"
  | _ => false
  end.

Definition default_exported_name (exportDefaultDeclaration : option Node)
    : option string :=
  match exportDefaultDeclaration with
  | Some (ExportDefaultDeclaration _ _ declaration) => node_name declaration
  | _ => None
  end.

(** [findExportedFunc]; the result is the [functions] array.  Reading [body]
    of [null] throws, and so does calling [find] on a missing [body]. *)
Definition findExportedFunc (ast : option Node) : result (list FunctionObj.t) :=
  match ast with
  | Some (Program _ _ body) | Some (BlockStatement _ _ body) =>
      let exportDefaultDeclaration := find is_default_export_of_identifier body in
      let defaultExportedIdentifier := default_exported_name exportDefaultDeclaration in
      forEach (findExportedFunc_statement exportDefaultDeclaration
                 defaultExportedIdentifier) body []
  | _ => Throw TypeError
  end.

(* ================================================================== *)
(** ** utils.js: offsets to line and column

    The file system is a function from file names to contents: the callers
    are responsible for the file to exist and be readable. *)

Definition linefeed : ascii := Ascii.ascii_of_nat 10.

(** [content.split("\n")]: the pieces between linefeeds, at least one. *)
Fixpoint split_linefeed (content : string) : list string :=
  match content with
  | EmptyString => [EmptyString]
  | String c rest =>
      if Ascii.eqb c linefeed then EmptyString :: split_linefeed rest
      else
        match split_linefeed rest with
        | line :: lines => String c line :: lines
        | [] => [String c EmptyString]
        end
  end.

Module FileLineInfo.
Record t : Type := mk { size : Z; lineLengths : list Z }.
End FileLineInfo.

(** [getFileLineInfo]. *)
Definition getFileLineInfo (fs : string -> string) (filename : string)
    : FileLineInfo.t :=
  let content := fs filename in
  FileLineInfo.mk
    (Z.of_nat (String.length content))
    (map (fun line => Z.of_nat (String.length line) + 1) (split_linefeed content)).

(** [_fileLineInfoCache]: [{}] at first, then the last file name with its
    info. *)
Definition FileLineInfoCache : Type := option (string * FileLineInfo.t).

(** [getCachedFileLineInfo], with the cache it leaves. *)
Definition getCachedFileLineInfo (fs : string -> string)
    (_fileLineInfoCache : FileLineInfoCache) (filename : string)
    : FileLineInfo.t * FileLineInfoCache :=
  match _fileLineInfoCache with
  | Some (cached, info) =>
      if String.eqb filename cached then (info, _fileLineInfoCache)
      else
        let info := getFileLineInfo fs filename in
        (info, Some (filename, info))
  | None =>
      let info := getFileLineInfo fs filename in
      (info, Some (filename, info))
  end.

Module LineCol.
Record t : Type := mk { line : Z; col : Z }.
End LineCol.

(** The loop of [mapCharOffsetToLineno], from index [i] with [runningSum];
    [None] is the [undefined] returned when the loop runs out. *)
Fixpoint lineno_loop (lineLengths : list Z) (i runningSum offset : Z)
    : option LineCol.t :=
  match lineLengths with
  | [] => None
  | currentLineLength :: rest =>
      if offset <? runningSum + currentLineLength
      then Some (LineCol.mk (i + 1) (offset - runningSum + 1))
      else lineno_loop rest (i + 1) (runningSum + currentLineLength) offset
  end.

(** [mapCharOffsetToLineno], with the cache it leaves. *)
Definition mapCharOffsetToLineno (fs : string -> string)
    (_fileLineInfoCache : FileLineInfoCache) (filename : string) (offset : Z)
    : result (option LineCol.t) * FileLineInfoCache :=
  let '(info, cache) := getCachedFileLineInfo fs _fileLineInfoCache filename in
  if offset <=? FileLineInfo.size info
  then (Ok (lineno_loop (FileLineInfo.lineLengths info) 0 0 offset), cache)
  else (Throw (AssertionError "offset exceeds file size"), cache).

(** [interleaveArray] as the loop of utils.js writes it: index [i] runs up to
    the larger length and pushes [a[i]] and [b[i]] where they exist. *)
Fixpoint interleave_from {A} (a b : list A) (i n : nat) : list A :=
  match n with
  | O => []
  | S n' =>
      match nth_error a i with Some x => [x] | None => [] end
      ++ match nth_error b i with Some y => [y] | None => [] end
      ++ interleave_from a b (S i) n'
  end.

Definition interleaveArray_loop {A} (a b : list A) : list A :=
  interleave_from a b 0 (Nat.max (List.length a) (List.length b)).

(* ================================================================== *)
(** * Notions used in the statements *)


(** The enclosing test and describe calls, without the assertion of
    [parseCallee], which the filter on the node type makes unreachable. *)
Definition scope_frames (ancestors : list Node) : list (Node * option string) :=
  filter (fun o =>
            truthy_name (snd o) &&
            match snd o with
            | Some d => isTestOrDescribeIdentifier d
            | None => false
            end)
         (map (fun n => (n, match n with
                            | CallExpression _ _ callee _ => _traverse callee
                            | _ => None
                            end))
              (filter isCallExpression ancestors)).

(** The predicate of [scopeNodes.some((o) => isTestIdentifier(o.dotted))]. *)
Definition is_test_frame (o : Node * option string) : bool :=
  match snd o with
  | Some d => isTestIdentifier d
  | None => false
  end.

(** The resolved name of a call. *)
Definition resolved_name (node : Node) : option string :=
  match node with
  | CallExpression _ _ callee _ => _traverse callee
  | _ => None
  end.

(** The call resolves to a test identifier ([it] or [it.*]). *)
Definition is_test_call (node : Node) : bool :=
  match resolved_name node with
  | Some d => isTestIdentifier d
  | None => false
  end.

(** The conditions under which a call is a hook: its resolved name is one of
    the four hook names, its only argument is a function literal, and no
    enclosing scope frame is a test call. *)
Definition qualifies_as_hook (node : Node) (ancestors : list Node) : bool :=
  match node with
  | CallExpression _ _ callee arguments =>
      match _traverse callee with
      | Some d => SUPPORTED_HOOKS_has d
      | None => false
      end
      && match arguments with
         | [funcNode] => isFunctionLiteral funcNode
         | _ => false
         end
      && negb (existsb is_test_frame (scope_frames ancestors))
  | _ => false
  end.

(** The three outcomes of a visitor call that returns: nothing recorded, a
    test pushed, a hook pushed. *)
Inductive visitor_outcome (node : Node) (ancestors : list Node)
    (out out' : TestsOutput) : Prop :=
| Ignored :
    out' = out ->
    is_test_call node = false ->
    qualifies_as_hook node ancestors = false ->
    visitor_outcome node ancestors out out'
| TestPushed start end_ callee arguments dotted funcNode scope calls :
    node = CallExpression start end_ callee arguments ->
    _traverse callee = Some dotted ->
    isTestIdentifier dotted = true ->
    nth_error arguments 1 = Some funcNode ->
    mapM scopeObj (scope_frames ancestors) = Ok scope ->
    findFuncCalls funcNode = Ok calls ->
    out' = mkTestsOutput
             (tests out ++
                [CaseObj.mk scope start end_ (node_async funcNode)
                   (node_start funcNode) (node_end funcNode) calls
                   (key_if (existsb (fun n => truthy_key (ScopeObj.skip n)) scope))
                   (key_if (existsb (fun n => truthy_key (ScopeObj.only n)) scope))
                   (key_if (existsb (fun n => truthy_key (ScopeObj.iosOnly n)) scope))
                   (key_if (existsb (fun n => truthy_key (ScopeObj.androidOnly n)) scope))])
             (hooks out) ->
    visitor_outcome node ancestors out out'
| HookPushed start end_ callee dotted funcNode scope calls hooks' :
    node = CallExpression start end_ callee [funcNode] ->
    _traverse callee = Some dotted ->
    isTestIdentifier dotted = false ->
    SUPPORTED_HOOKS_has dotted = true ->
    isFunctionLiteral funcNode = true ->
    existsb is_test_frame (scope_frames ancestors) = false ->
    mapM scopeObj (scope_frames ancestors) = Ok scope ->
    findFuncCalls funcNode = Ok calls ->
    hooks_push (hooks out) dotted
      (CaseObj.mk scope start end_ (node_async funcNode)
         (node_start funcNode) (node_end funcNode) calls None None None None)
    = Ok hooks' ->
    out' = mkTestsOutput (tests out) hooks' ->
    visitor_outcome node ancestors out out'.

(** The keys of the [hooks] object. *)
Definition hook_keys (out : TestsOutput) : list string := map fst (hooks out).

(** A declarator with an initializer, as every declarator of a [const]
    declaration is. *)
Definition is_declarator_with_init (d : Node) : bool :=
  match d with
  | VariableDeclarator _ _ _ (Some _) => true
  | _ => false
  end.

(** A declarator whose initializer is an arrow function. *)
Definition has_arrow_init (d : Node) : bool :=
  match d with
  | VariableDeclarator _ _ _ (Some init) =>
      String.eqb (node_type init) "ArrowFunctionExpression"
  | _ => false
  end.

(** A declarator of the identifier [name]. *)
Definition declares (name : string) (d : Node) : bool :=
  match d with
  | VariableDeclarator _ _ id _ => option_string_eqb (node_name id) (Some name)
  | _ => false
  end.

(** The name exported by the file's first [export default <identifier>]. *)
Definition default_export_of (body : list Node) : option string :=
  default_exported_name (find is_default_export_of_identifier body).

(** [stmt] is a [const] declaration with the declarators [declarations] that
    is exported, directly or because one of its identifiers is the default
    export of the file. *)
Definition exported_const_declaration (body : list Node) (stmt : Node)
    (declarations : list Node) : Prop :=
  (exists s e s' e',
      stmt = ExportNamedDeclaration s e
               (Some (VariableDeclaration s' e' "const" declarations)))
  \/ (exists s e name,
         stmt = VariableDeclaration s e "const" declarations
         /\ default_export_of body = Some name
         /\ name <> ""%string
         /\ existsb (declares name) declarations = true).

(** The statements [pre], which precede the declaration, are processed
    without an error. *)
Definition processed_without_error (body pre : list Node) : Prop :=
  exists fns,
    forEach (findExportedFunc_statement (find is_default_export_of_identifier body)
               (default_export_of body)) pre [] = Ok fns.

(** The message of the error thrown on a multi-declarator export. *)
Definition multi_declaration_message : string :=
  "No support for function export within multi-variable declaration".

(** The bucket of a hook name. *)
Fixpoint bucket (hooks : list (string * list CaseObj.t)) (name : string)
    : list CaseObj.t :=
  match hooks with
  | [] => []
  | (k, l) :: rest => if String.eqb k name then l else bucket rest name
  end.

(** The stack of a visit ends with the visited node. *)
Definition own_last (v : visit) : Prop := exists pre, snd v = pre ++ [fst v].

(** The four modifier keys of a scope frame follow the suffix of its name. *)
Definition frame_flags_ok (f : ScopeObj.t) : Prop :=
  ScopeObj.skip f = key_if (isSkip (ScopeObj.func f))
  /\ ScopeObj.only f = key_if (isOnly (ScopeObj.func f))
  /\ ScopeObj.iosOnly f = key_if (isIosOnly (ScopeObj.func f))
  /\ ScopeObj.androidOnly f = key_if (isAndroidOnly (ScopeObj.func f)).

(** Some frame of the scope list has a name that [suffix] accepts. *)
Definition some_frame (suffix : string -> bool) (t : CaseObj.t) : bool :=
  existsb (fun f => suffix (ScopeObj.func f)) (CaseObj.scope t).

(** Each aggregate key is present, with value [true], when some frame of the
    scope list sets it, and absent otherwise. *)
Definition test_flags_ok (t : CaseObj.t) : Prop :=
  CaseObj.skip t = key_if (some_frame isSkip t)
  /\ CaseObj.only t = key_if (some_frame isOnly t)
  /\ CaseObj.iosOnly t = key_if (some_frame isIosOnly t)
  /\ CaseObj.androidOnly t = key_if (some_frame isAndroidOnly t).

(** The last frame of a test's scope list is the test call itself. *)
Definition own_frame_last (t : CaseObj.t) : Prop :=
  exists frames own,
    CaseObj.scope t = frames ++ [own]
    /\ ScopeObj.start own = CaseObj.start t
    /\ ScopeObj.end_ own = CaseObj.end_ t
    /\ isTestIdentifier (ScopeObj.func own) = true.

(** None of the four aggregate keys is present. *)
Definition no_flags (h : CaseObj.t) : Prop :=
  CaseObj.skip h = None /\ CaseObj.only h = None
  /\ CaseObj.iosOnly h = None /\ CaseObj.androidOnly h = None.

(** The dotted concatenation rule as the specification words it: a computed
    member access is unsupported. *)
Fixpoint dotted_rule (callee : Node) : option string :=
  match callee with
  | Identifier _ _ name => Some name
  | MemberExpression _ _ a (Identifier _ _ b) false =>
      option_map (fun r => r +++ "." +++ b) (dotted_rule a)
  | CallExpression _ _ f _ => option_map (fun r => r +++ "()") (dotted_rule f)
  | ThisExpression _ _ => Some "this"%string
  | _ => None
  end.

(** Callees built only from identifiers, non-computed member accesses, nested
    calls and [this]. *)
Fixpoint supported_shape (callee : Node) : bool :=
  match callee with
  | Identifier _ _ _ | ThisExpression _ _ => true
  | MemberExpression _ _ a (Identifier _ _ _) false => supported_shape a
  | CallExpression _ _ f _ => supported_shape f
  | _ => false
  end.

(** The node a chain of member accesses and calls starts from. *)
Fixpoint chain_root (callee : Node) : Node :=
  match callee with
  | MemberExpression _ _ object _ _ => chain_root object
  | CallExpression _ _ f _ => chain_root f
  | _ => callee
  end.

(** The two kinds of node a resolvable chain can start from. *)
Definition is_identifier_or_this (n : Node) : bool :=
  match n with
  | Identifier _ _ _ | ThisExpression _ _ => true
  | _ => false
  end.

(** The callee of a call. *)
Definition resolved_callee (node : Node) : Node :=
  match node with
  | CallExpression _ _ callee _ => callee
  | _ => node
  end.

(** The value graph of an expression made of literals, object literals and
    array literals without holes: the evaluation of [maybeGetLiteralValue]
    with its truthiness tests left out. *)
Fixpoint value_graph (n : Node) {struct n} : option value :=
  match n with
  | Literal _ _ value => Some (VLiteral value)
  | ObjectExpression _ _ properties =>
      (fix loop (props : list Node) (output : list (string * value))
         : option value :=
         match props with
         | [] => Some (VObject output)
         | prop :: rest =>
             match prop, getPropertyKey prop with
             | Property _ _ _ pvalue _, Some k =>
                 match value_graph pvalue with
                 | Some v => loop rest (obj_set output (ToPropertyKey k) v)
                 | None => None
                 end
             | _, _ => None
             end
         end) properties []
  | ArrayExpression _ _ elements =>
      (fix loop (elems : list (option Node)) (output : list value) : option value :=
         match elems with
         | [] => Some (VArray output)
         | Some e :: rest =>
             match value_graph e with
             | Some v => loop rest (output ++ [v])
             | None => None
             end
         | None :: _ => None
         end) elements []
  | _ => None
  end.

(** No falsy literal below the root, and no falsy property key. *)
Fixpoint truthy_inside (n : Node) {struct n} : bool :=
  match n with
  | ObjectExpression _ _ properties =>
      (fix all (props : list Node) : bool :=
         match props with
         | [] => true
         | prop :: rest =>
             match prop with
             | Property _ _ _ pvalue _ =>
                 truthy_propkey (getPropertyKey prop)
                 && truthy_value (value_graph pvalue)
                 && truthy_inside pvalue
             | _ => false
             end && all rest
         end) properties
  | ArrayExpression _ _ elements =>
      (fix all (elems : list (option Node)) : bool :=
         match elems with
         | [] => true
         | Some e :: rest =>
             truthy_value (value_graph e) && truthy_inside e && all rest
         | None :: _ => false
         end) elements
  | _ => true
  end.

(** The value of a property, the node itself elsewhere. *)
Definition property_value (n : Node) : Node :=
  match n with
  | Property _ _ _ pvalue _ => pvalue
  | _ => n
  end.

(** Whatever [maybeGetLiteralValue] returns is the value graph. *)
Definition sound (n : Node) : Prop :=
  forall v, maybeGetLiteralValue n = Ok (Some v) -> value_graph n = Some v.

(** On a tree without falsy literals inside, the value graph is returned. *)
Definition complete (n : Node) : Prop :=
  forall v, value_graph n = Some v -> truthy_inside n = true ->
            maybeGetLiteralValue n = Ok (Some v).

(** The sum of a list of lengths. *)
Definition sumZ (l : list Z) : Z := fold_right Z.add 0 l.

(** The cache holds nothing, or the info of the file it names as the file
    system has it now. *)
Definition cache_coherent (fs : string -> string) (cache : FileLineInfoCache) : Prop :=
  match cache with
  | Some (cached, info) => info = getFileLineInfo fs cached
  | None => True
  end.

(** A line of the file with the linefeed that ends it. *)
Definition with_linefeed (line : string) : string :=
  line +++ String linefeed EmptyString.

(** A call the collector records: it resolves to a name that is neither
    empty nor ["api"]. *)
Definition recordable (node : Node) : bool :=
  isCallExpression node
  && match resolved_name node with
     | Some d => negb (String.eqb d "") && negb (String.eqb d "api")
     | None => false
     end.

(** The arguments of a call. *)
Definition call_arguments (node : Node) : list Node :=
  match node with
  | CallExpression _ _ _ arguments => arguments
  | _ => []
  end.

(** The visited node is the argument of an [await]: the node before it on the
    stack, its parent, is an await expression. *)
Definition awaited (v : visit) : bool :=
  match rev (snd v) with
  | _ :: parent :: _ => String.eqb (node_type parent) "AwaitExpression"
  | _ => false
  end.

(** The descriptor of an argument: its type and span. *)
Definition argument_descriptor (a : Node) : ArgumentObj.t :=
  ArgumentObj.mk (node_type a) (node_start a) (node_end a).

(** Where the name of a call stands: at the property of the member access
    that is called, or else where the call starts. *)
Definition call_start (node : Node) : Z :=
  match node with
  | CallExpression _ _ (MemberExpression _ _ _ property _) _ => node_start property
  | _ => node_start node
  end.

(** The record [c] describes the call of the visit [v]: the resolved name,
    where the name stands, the span of the call, one descriptor per argument,
    whether the call is awaited, and the truthy literal values of the
    arguments under their indices (the key is absent when there is none). *)
Definition record_of_visit (v : visit) (c : CallObj.t) : Prop :=
  resolved_name (fst v) = Some (CallObj.name c)
  /\ CallObj.start c = call_start (fst v)
  /\ CallObj.rootStart c = node_start (fst v)
  /\ CallObj.end_ c = node_end (fst v)
  /\ CallObj.arguments c = map argument_descriptor (call_arguments (fst v))
  /\ CallObj.await c = awaited v
  /\ exists literalArguments,
       literal_arguments 0 (call_arguments (fst v)) = Ok literalArguments
       /\ CallObj.literalArguments c
          = if is_nil literalArguments then None else Some literalArguments.

(** An optional flag is absent, or present with value [true] on a call whose
    name starts with ["api."]. *)
Definition api_flag_ok (name : string) (flag : option bool) : Prop :=
  flag = None \/ (flag = Some true /\ startsWith name "api." = true).

(** The shape every call record has. *)
Definition call_record_ok (c : CallObj.t) : Prop :=
  CallObj.name c <> ""%string
  /\ CallObj.name c <> "api"%string
  /\ api_flag_ok (CallObj.name c) (CallObj.apiSyncDisabled c)
  /\ api_flag_ok (CallObj.name c) (CallObj.apiWaitAfter c)
  /\ (CallObj.errors c = None
      \/ (CallObj.errors c <> Some [] /\ startsWith (CallObj.name c) "api." = true))
  /\ CallObj.literalArguments c <> Some [].

(** The value of a property node. *)
Definition property_literal_boolean (p : Node) : option bool :=
  match p with
  | Property _ _ _ (Literal _ _ (LBoolean b)) _ => Some b
  | _ => None
  end.

(** [p] is the property [key] with the literal boolean [b] as its value. *)
Definition sets_flag (key : string) (b : bool) (p : Node) : bool :=
  literal_eqb_string (getPropertyKey p) key
  && option_bool_eqb (property_literal_boolean p) b.

(** [p] is a [sync] or [waitAfter] property whose value is not a literal
    boolean. *)
Definition bad_flag (p : Node) : bool :=
  (literal_eqb_string (getPropertyKey p) "sync"
   || literal_eqb_string (getPropertyKey p) "waitAfter")
  && negb (is_some (property_literal_boolean p)).

(** The deferred error reported for such a property. *)
Definition flag_error (p : Node) : DeferredErrorObj.t :=
  match p with
  | Property _ _ key value _ =>
      DeferredErrorObj.mk
        (dquote +++ str_of (node_name key) +++ dquote +++
         " property is expected to have literal Boolean value (true/false)")
        (node_start value)
  | _ => DeferredErrorObj.mk EmptyString 0
  end.

(** The call makes [findFuncCalls] throw: its name starts with ["api."] but
    its callee is not a member access, so [node.callee.object] is
    undefined. *)
Definition api_crash (node : Node) : bool :=
  match node with
  | CallExpression _ _ callee _ =>
      match _traverse callee with
      | Some d => startsWith d "api."
      | None => false
      end
      && negb (String.eqb (node_type callee) "MemberExpression")
  | _ => false
  end.

(** The evaluation of the literal arguments of the call throws. *)
Definition arguments_throw (node : Node) : bool :=
  match literal_arguments 0 (call_arguments node) with
  | Throw _ => true
  | Ok _ => false
  end.

(** The call makes [findFuncCalls] throw: it resolves to a name, and either
    the evaluation of its literal arguments throws or it is an [api.] call
    whose callee is not a member access. *)
Definition call_crash (node : Node) : bool :=
  match resolved_name node with
  | Some d => negb (String.eqb d "")
  | None => false
  end
  && (arguments_throw node || api_crash node).

(** Some array literal of the expression, reached through array elements and
    property values only, has a hole. *)
Fixpoint has_hole (n : Node) {struct n} : bool :=
  match n with
  | ArrayExpression _ _ elements =>
      (fix any (elems : list (option Node)) : bool :=
         match elems with
         | [] => false
         | Some e :: rest => has_hole e || any rest
         | None :: _ => true
         end) elements
  | ObjectExpression _ _ properties =>
      (fix any (props : list Node) : bool :=
         match props with
         | [] => false
         | Property _ _ _ pvalue _ :: rest => has_hole pvalue || any rest
         | _ :: rest => any rest
         end) properties
  | _ => false
  end.

(** Every value inside [v], at any depth, is truthy, and no object inside
    [v], nor [v] itself, has a property named [__proto__]. *)
Fixpoint inside_truthy (v : value) {struct v} : bool :=
  match v with
  | VLiteral _ => true
  | VObject props =>
      forallb (fun entry : string * value =>
                 let (k, w) := entry in
                 negb (String.eqb k "__proto__")
                 && truthy_value (Some w) && inside_truthy w)
              props
  | VArray elems =>
      forallb (fun w => truthy_value (Some w) && inside_truthy w) elems
  end.

(** The properties the api rule inspects: those of the object literal that is
    the first argument of the receiver call, if there is one. *)
Definition api_properties (receiver : Node) : list Node :=
  match receiver with
  | CallExpression _ _ _ (ObjectExpression _ _ properties :: _) => properties
  | _ => []
  end.

(** The receiver of a call whose callee is a member access. *)
Definition call_receiver (node : Node) : Node :=
  match node with
  | CallExpression _ _ (MemberExpression _ _ object _ _) _ => object
  | _ => node
  end.

(** The loops of [maybeGetLiteralValue], for the statements about them. *)
Definition array_loop : list (option Node) -> list value -> result (option value) :=
  fix loop (elems : list (option Node)) (output : list value)
    : result (option value) :=
    match elems with
    | [] => Ok (Some (VArray output))
    | e :: rest =>
        value <- match e with
                 | Some e => maybeGetLiteralValue e
                 | None => Throw TypeError
                 end ;;
        match value with
        | Some v =>
            if negb (truthy_value value) then Ok None
            else loop rest (output ++ [v])
        | None => Ok None
        end
    end.

Definition object_loop
    : list Node -> list (string * value) -> result (option value) :=
  fix loop (props : list Node) (output : list (string * value))
    : result (option value) :=
    match props with
    | [] => Ok (Some (VObject output))
    | prop :: rest =>
        let key := getPropertyKey prop in
        if negb (truthy_propkey key) then Ok None
        else
          match prop, key with
          | Property _ _ _ pvalue _, Some k =>
              value <- maybeGetLiteralValue pvalue ;;
              match value with
              | Some v =>
                  if negb (truthy_value value) then Ok None
                  else loop rest (obj_set output (ToPropertyKey k) v)
              | None => Ok None
              end
          | _, _ => Ok None
          end
    end.

(** The value [w] is what the element or property value [e] evaluates to, and
    it is truthy. *)
Definition evaluates_truthy (e : Node) (w : value) : Prop :=
  maybeGetLiteralValue e = Ok (Some w) /\ truthy_value (Some w) = true.

(** The same for an element of an array literal, which is then no hole. *)
Definition element_evaluates_truthy (e : option Node) (w : value) : Prop :=
  exists n, e = Some n /\ evaluates_truthy n w.

(** The entry [(k, w)] of an evaluated object comes from a property of the
    object literal: [k] is the name of its key and [w] the truthy value its
    value evaluates to. *)
Definition entry_of_property (properties : list Node) (entry : string * value) : Prop :=
  exists p key,
    In p properties
    /\ getPropertyKey p = Some key
    /\ ToPropertyKey key = fst entry
    /\ evaluates_truthy (property_value p) (snd entry).

(** The second argument of a test call: its function. *)
Definition test_function (node : Node) : option Node :=
  nth_error (call_arguments node) 1.

(** The record [r] describes the call of the visit [v], with [f] as its
    function: the spans of both, the [async] flag of the function, the call
    sites collected in the function, and one scope frame per enclosing test
    or describe call of the stack, in stack order. *)
Definition case_of_visit (v : visit) (f : Node) (r : CaseObj.t) : Prop :=
  CaseObj.start r = node_start (fst v)
  /\ CaseObj.end_ r = node_end (fst v)
  /\ CaseObj.funcStart r = node_start f
  /\ CaseObj.funcEnd r = node_end f
  /\ CaseObj.async r = node_async f
  /\ findFuncCalls f = Ok (CaseObj.calls r)
  /\ map ScopeObj.func (CaseObj.scope r)
     = map (fun o => str_of (snd o)) (scope_frames (snd v))
  /\ map ScopeObj.start (CaseObj.scope r)
     = map (fun o => node_start (fst o)) (scope_frames (snd v)).

(** A test record of the visit of a test call. *)
Definition test_of_visit (v : visit) (t : CaseObj.t) : Prop :=
  exists f, test_function (fst v) = Some f /\ case_of_visit v f t.

(** A hook record of the visit of a hook call. *)
Definition hook_of_visit (v : visit) (h : CaseObj.t) : Prop :=
  exists f, call_arguments (fst v) = [f] /\ case_of_visit v f h.

(** The hook record [h] of the visit [v] of a hook call, field by field: the
    span of the call, the span, the [async] flag and the call sites of its
    function, one scope frame per enclosing describe call, and none of the
    four aggregate keys. *)
Definition hook_record (v : visit) (h : CaseObj.t) : Prop :=
  hook_of_visit v h
  /\ mapM scopeObj (scope_frames (snd v)) = Ok (CaseObj.scope h)
  /\ no_flags h.

(** The visit of a call that qualifies as the hook [name]. *)
Definition is_hook_visit (name : string) (v : visit) : bool :=
  qualifies_as_hook (fst v) (snd v)
  && option_string_eqb (resolved_name (fst v)) (Some name).

(** The call resolves to one of the four hook names. *)
Definition is_hook_named (node : Node) : bool :=
  match resolved_name node with
  | Some d => SUPPORTED_HOOKS_has d
  | None => false
  end.

(** The result of [findTests] on a file with nothing to report. *)
Definition no_tests_no_hooks : TestsOutput :=
  mkTestsOutput []
    [("beforeAll", []); ("beforeEach", []); ("afterAll", []); ("afterEach", [])]%string.

(** The record [f] reports the top-level statement [stmt] of a file with the
    statements [body]: it has the span of the statement, and its export span
    is either that same span, the statement being an [export] declaration, or
    the span of the file's [export default <identifier>] statement, whose
    identifier is then the name of the function. *)
Definition function_of_statement (body : list Node) (stmt : Node)
    (f : FunctionObj.t) : Prop :=
  FunctionObj.start f = node_start stmt
  /\ FunctionObj.end_ f = node_end stmt
  /\ FunctionObj.async f <> None
  /\ ((node_type stmt = "ExportNamedDeclaration"%string
       /\ FunctionObj.exportStart f = FunctionObj.start f
       /\ FunctionObj.exportEnd f = FunctionObj.end_ f)
      \/ (exists d,
             find is_default_export_of_identifier body = Some d
             /\ FunctionObj.exportStart f = node_start d
             /\ FunctionObj.exportEnd f = node_end d
             /\ FunctionObj.name f = default_export_of body
             /\ truthy_string (FunctionObj.name f) = true)).

(** A statement that is not a named export ([export const ...],
    [export function ...]); if it is a variable declaration, its declarators
    have initializers. *)
Definition plain_statement (stmt : Node) : bool :=
  match stmt with
  | ExportNamedDeclaration _ _ _ => false
  | VariableDeclaration _ _ _ declarations =>
      forallb is_declarator_with_init declarations
  | _ => true
  end.

(** [l1] is [l2] with some elements left out, the order kept. *)
Inductive subsequence {A : Type} : list A -> list A -> Prop :=
| subsequence_nil : subsequence [] []
| subsequence_skip x l1 l2 : subsequence l1 l2 -> subsequence l1 (x :: l2)
| subsequence_keep x l1 l2 : subsequence l1 l2 -> subsequence (x :: l1) (x :: l2).

(** How many of the four modifier keys a scope frame has. *)
Definition modifier_count (f : ScopeObj.t) : nat :=
  Nat.b2n (truthy_key (ScopeObj.skip f))
  + Nat.b2n (truthy_key (ScopeObj.only f))
  + Nat.b2n (truthy_key (ScopeObj.iosOnly f))
  + Nat.b2n (truthy_key (ScopeObj.androidOnly f)).

(** How many of the three families of names (test, describe, hook) a
    resolved name belongs to. *)
Definition family_count (ident : string) : nat :=
  Nat.b2n (isTestIdentifier ident)
  + Nat.b2n (isDescribeIdentifier ident)
  + Nat.b2n (SUPPORTED_HOOKS_has ident).

(** The text of a template literal that starts with the raw text [q] and goes
    on with the holes [holes], each an expression followed by raw text: the
    raw texts as they are, each hole written [${name}] with the [name] of its
    expression. *)
Fixpoint template_text (q : string) (holes : list (Node * string)) : string :=
  match holes with
  | [] => q
  | (x, q') :: rest =>
      q +++ "${" +++ str_of (node_name x) +++ "}" +++ template_text q' rest
  end.

(* ================================================================== *)
(** * Example trees *)

(** [it("x")] as the only statement of a file. *)
Definition it_without_function : Node :=
  Program 0 8
    [ExpressionStatement 0 8
       (CallExpression 0 7 (Identifier 0 2 "it") [Literal 3 6 (LString "x")])].

(** [export const a = x, b = () => {}] as the only statement of a file. *)
Definition export_const_a_b : Node :=
  ExportNamedDeclaration 0 32
    (Some (VariableDeclaration 7 32 "const"
             [VariableDeclarator 13 18 (Identifier 13 14 "a") (Some (Identifier 17 18 "x"));
              VariableDeclarator 20 32 (Identifier 20 21 "b")
                (Some (ArrowFunctionExpression 24 32 false [] (BlockStatement 30 32 [])))])).

(** [export function f() { api.region()() }]: an exported function whose body
    makes the collector throw. *)
Definition export_crashing_function : Node :=
  ExportNamedDeclaration 0 38
    (Some (FunctionDeclaration 7 38 false (Some (Identifier 16 17 "f")) []
             (BlockStatement 20 38
                [ExpressionStatement 22 36
                   (CallExpression 22 36
                      (CallExpression 22 34
                         (MemberExpression 22 32 (Identifier 22 25 "api")
                            (Identifier 26 32 "region") false)
                         [])
                      [])]))).

(** [export const a = x, b = () => {}] on the line after it. *)
Definition export_const_a_b_second_line : Node :=
  ExportNamedDeclaration 39 71
    (Some (VariableDeclaration 46 71 "const"
             [VariableDeclarator 52 57 (Identifier 52 53 "a") (Some (Identifier 56 57 "x"));
              VariableDeclarator 59 71 (Identifier 59 60 "b")
                (Some (ArrowFunctionExpression 63 71 false [] (BlockStatement 69 71 [])))])).

(** [export const c = y, d = () => {}] on the line after
    [export const a = x, b = () => {}]. *)
Definition export_const_c_d_second_line : Node :=
  ExportNamedDeclaration 33 65
    (Some (VariableDeclaration 40 65 "const"
             [VariableDeclarator 46 51 (Identifier 46 47 "c") (Some (Identifier 50 51 "y"));
              VariableDeclarator 53 65 (Identifier 53 54 "d")
                (Some (ArrowFunctionExpression 57 65 false [] (BlockStatement 63 65 [])))])).

(** [beforeEach(() => {})] as the only statement of a file. *)
Definition beforeEach_call (s : Z) : Node :=
  CallExpression s (s + 20) (Identifier s (s + 10) "beforeEach")
    [ArrowFunctionExpression (s + 11) (s + 19) false []
       (BlockStatement (s + 17) (s + 19) [])].

Definition beforeEach_top_level : Node :=
  Program 0 20 [ExpressionStatement 0 20 (beforeEach_call 0)].

(** [it("t", () => { beforeEach(() => {}) })] as the only statement of a file. *)
Definition beforeEach_inside_it : Node :=
  Program 0 39
    [ExpressionStatement 0 39
       (CallExpression 0 39 (Identifier 0 2 "it")
          [Literal 3 6 (LString "t");
           ArrowFunctionExpression 8 38 false []
             (BlockStatement 14 38 [ExpressionStatement 16 36 (beforeEach_call 16)])])].

(** The stack the visitor sees at the nested [beforeEach] call. *)
Definition ancestors_inside_it : list Node :=
  match beforeEach_inside_it with
  | Program _ _ [ExpressionStatement _ _
                   (CallExpression _ _ _ [_; ArrowFunctionExpression _ _ _ _
                                               (BlockStatement _ _ [inner] as block) as arrow]
                    as it_call) as stmt] =>
      [beforeEach_inside_it; stmt; it_call; arrow; block; inner; beforeEach_call 16]
  | _ => []
  end.

(** [it.skip("x", () => {})] as the only statement of a file. *)
Definition it_skip_x : Node :=
  Program 0 22
    [ExpressionStatement 0 22
       (CallExpression 0 22
          (MemberExpression 0 7 (Identifier 0 2 "it") (Identifier 3 7 "skip") false)
          [Literal 8 11 (LString "x");
           ArrowFunctionExpression 13 21 false [] (BlockStatement 19 21 [])])].

(** [describe.only("G", () => { it("y", () => {}); })]. *)
Definition describe_only_G : Node :=
  Program 0 48
    [ExpressionStatement 0 48
       (CallExpression 0 48
          (MemberExpression 0 13 (Identifier 0 8 "describe") (Identifier 9 13 "only") false)
          [Literal 14 17 (LString "G");
           ArrowFunctionExpression 19 47 false []
             (BlockStatement 25 47
                [ExpressionStatement 27 45
                   (CallExpression 27 44 (Identifier 27 29 "it")
                      [Literal 30 33 (LString "y");
                       ArrowFunctionExpression 35 43 false []
                         (BlockStatement 41 43 [])])])])].

(** [describe.skip("G", () => { beforeEach(() => {}) })]. *)
Definition describe_skip_beforeEach : Node :=
  Program 0 50
    [ExpressionStatement 0 50
       (CallExpression 0 50
          (MemberExpression 0 13 (Identifier 0 8 "describe") (Identifier 9 13 "skip") false)
          [Literal 14 17 (LString "G");
           ArrowFunctionExpression 19 49 false []
             (BlockStatement 25 49 [ExpressionStatement 27 47 (beforeEach_call 27)])])].

(** [a[b]()]. *)
Definition computed_member_call : Node :=
  CallExpression 0 6
    (MemberExpression 0 4 (Identifier 0 1 "a") (Identifier 2 3 "b") true) [].

(** [new Foo().bar()]. *)
Definition new_receiver_call : Node :=
  CallExpression 0 15
    (MemberExpression 0 13 (NewExpression 0 9 (Identifier 4 7 "Foo") [])
       (Identifier 10 13 "bar") false) [].

(** [someLib.init().helpers.doSomething().decode()], the chain of the README. *)
Definition chained_call : Node :=
  CallExpression 0 45
    (MemberExpression 0 43
       (CallExpression 0 36
          (MemberExpression 0 34
             (MemberExpression 0 22
                (CallExpression 0 14
                   (MemberExpression 0 12 (Identifier 0 7 "someLib")
                      (Identifier 8 12 "init") false) [])
                (Identifier 15 22 "helpers") false)
             (Identifier 23 34 "doSomething") false) [])
       (Identifier 37 43 "decode") false) [].

(** [f(0)]. *)
Definition call_f_zero : Node :=
  CallExpression 0 4 (Identifier 0 1 "f") [Literal 2 3 (LNumber 0)].

(** [[0, 1]]. *)
Definition array_zero_one : Node :=
  ArrayExpression 0 6
    [Some (Literal 1 2 (LNumber 0)); Some (Literal 4 5 (LNumber 1))].

(** [{a: false}]. *)
Definition object_a_false : Node :=
  ObjectExpression 0 10
    [Property 1 9 (Identifier 1 2 "a") (Literal 4 9 (LBoolean false)) false].

(** [[1, {a: "x"}]]. *)
Definition array_one_object : Node :=
  ArrayExpression 0 13
    [Some (Literal 1 2 (LNumber 1));
     Some (ObjectExpression 4 12
             [Property 5 11 (Identifier 5 6 "a") (Literal 8 11 (LString "x")) false])].

(** [api({ sync: <sync>, waitAfter: true }).submit()], with the offsets of its
    nodes given by [p]. *)
Definition api_submit_call (p : nat -> Z) (sync : Node) : Node :=
  CallExpression (p 0%nat) (p 1%nat)
    (MemberExpression (p 2%nat) (p 3%nat)
       (CallExpression (p 4%nat) (p 5%nat) (Identifier (p 6%nat) (p 7%nat) "api")
          [ObjectExpression (p 8%nat) (p 9%nat)
             [Property (p 10%nat) (p 11%nat)
                (Identifier (p 12%nat) (p 13%nat) "sync") sync false;
              Property (p 14%nat) (p 15%nat)
                (Identifier (p 16%nat) (p 17%nat) "waitAfter")
                (Literal (p 18%nat) (p 19%nat) (LBoolean true)) false]])
       (Identifier (p 20%nat) (p 21%nat) "submit") false)
    [].

(** The offsets in the text [api({ sync: false, waitAfter: true }).submit()]. *)
Definition api_submit_offsets (i : nat) : Z :=
  nth i [0; 46; 0; 44; 0; 37; 0; 3; 4; 36; 6; 17; 6; 10; 19; 34; 19; 28; 30; 34; 38; 44] 0.

(** The offsets in [api({ sync: someVariable, waitAfter: true }).submit()]. *)
Definition api_submit_variable_offsets (i : nat) : Z :=
  nth i [0; 53; 0; 51; 0; 44; 0; 3; 4; 43; 6; 24; 6; 10; 26; 41; 26; 35; 37; 41; 45; 51] 0.

(** [api.region({ sync: <sync>, waitAfter: true }).submit()]: a chain whose
    resolved name does start with "api.". *)
Definition api_region_submit_call (sync : Node) : Node :=
  CallExpression 0 53
    (MemberExpression 0 51
       (CallExpression 0 44
          (MemberExpression 0 10 (Identifier 0 3 "api") (Identifier 4 10 "region") false)
          [ObjectExpression 11 43
             [Property 13 24 (Identifier 13 17 "sync") sync false;
              Property 26 41 (Identifier 26 35 "waitAfter")
                (Literal 37 41 (LBoolean true)) false]])
       (Identifier 45 51 "submit") false)
    [].

(** [describe("A", () => { describe("B", () => { it("C", () => {}); }); })]
    as the only statement of a file, with the offsets of its nodes given by
    [p]. *)
Definition nested_describe (p : nat -> Z) : Node :=
  let it_C :=
    CallExpression (p 0%nat) (p 1%nat) (Identifier (p 2%nat) (p 3%nat) "it")
      [Literal (p 4%nat) (p 5%nat) (LString "C");
       ArrowFunctionExpression (p 6%nat) (p 7%nat) false []
         (BlockStatement (p 8%nat) (p 9%nat) [])] in
  let describe_B :=
    CallExpression (p 10%nat) (p 11%nat) (Identifier (p 12%nat) (p 13%nat) "describe")
      [Literal (p 14%nat) (p 15%nat) (LString "B");
       ArrowFunctionExpression (p 16%nat) (p 17%nat) false []
         (BlockStatement (p 18%nat) (p 19%nat)
            [ExpressionStatement (p 20%nat) (p 21%nat) it_C])] in
  let describe_A :=
    CallExpression (p 22%nat) (p 23%nat) (Identifier (p 24%nat) (p 25%nat) "describe")
      [Literal (p 26%nat) (p 27%nat) (LString "A");
       ArrowFunctionExpression (p 28%nat) (p 29%nat) false []
         (BlockStatement (p 30%nat) (p 31%nat)
            [ExpressionStatement (p 32%nat) (p 33%nat) describe_B])] in
  Program (p 34%nat) (p 35%nat) [ExpressionStatement (p 36%nat) (p 37%nat) describe_A].

(** The offsets in the text
    [describe("A", () => { describe("B", () => { it("C", () => {}); }); })]. *)
Definition nested_describe_offsets (i : nat) : Z :=
  nth i [44; 61; 44; 46; 47; 50; 52; 60; 58; 60;
         22; 65; 22; 30; 31; 34; 36; 64; 42; 64; 44; 62;
         0; 69; 0; 8; 9; 12; 14; 68; 20; 68; 22; 66;
         0; 69; 0; 69] 0.

(** The visit of the [it("C", ...)] call in that file: the call and the stack
    the visitor sees. *)
Definition nested_it_visit : visit :=
  nth 8 (visits [] (nested_describe nested_describe_offsets))
      (nested_describe nested_describe_offsets, []).

(** A file system where every file holds the two lines [ab] and [cd]. *)
Definition two_line_fs (filename : string) : string :=
  "ab" +++ String linefeed "cd".

(** The same, after the files were rewritten to hold the single line [x]. *)
Definition rewritten_fs (filename : string) : string := "x"%string.

(** [outer(() => { inner(1) })]: a call inside a callback. *)
Definition call_in_callback : Node :=
  CallExpression 0 25 (Identifier 0 5 "outer")
    [ArrowFunctionExpression 6 24 false []
       (BlockStatement 12 24
          [ExpressionStatement 14 22
             (CallExpression 14 22 (Identifier 14 19 "inner")
                [Literal 20 21 (LNumber 1)])])].

(** [await a.b(1)]. *)
Definition awaited_member_call : Node :=
  AwaitExpression 0 12
    (CallExpression 6 12
       (MemberExpression 6 9 (Identifier 6 7 "a") (Identifier 8 9 "b") false)
       [Literal 10 11 (LNumber 1)]).

(** [[1,,2]]: an array literal with a hole. *)
Definition array_with_hole : Node :=
  ArrayExpression 2 9 [Some (Literal 3 4 (LNumber 1)); None;
                       Some (Literal 6 7 (LNumber 2))].

(** [[x,,2]]: the hole comes after an element that is not a literal. *)
Definition array_unknown_then_hole : Node :=
  ArrayExpression 2 9 [Some (Identifier 3 4 "x"); None;
                       Some (Literal 6 7 (LNumber 2))].

(** [f([1,,2])]. *)
Definition call_with_hole : Node :=
  CallExpression 0 10 (Identifier 0 1 "f") [array_with_hole].

(** [{__proto__: "x", a: "y"}]. *)
Definition object_with_proto : Node :=
  ObjectExpression 0 24
    [Property 1 15 (Identifier 1 10 "__proto__") (Literal 12 15 (LString "x")) false;
     Property 17 23 (Identifier 17 18 "a") (Literal 20 23 (LString "y")) false].

(** [{b: "x", 2: "y", 1: "z"}]. *)
Definition object_with_indices : Node :=
  ObjectExpression 0 24
    [Property 1 7 (Identifier 1 2 "b") (Literal 4 7 (LString "x")) false;
     Property 9 15 (Literal 9 10 (LNumber 2)) (Literal 12 15 (LString "y")) false;
     Property 17 23 (Literal 17 18 (LNumber 1)) (Literal 20 23 (LString "z")) false].

(** [api.region()()]: the result of an api call, called. *)
Definition api_result_called : Node :=
  CallExpression 0 14
    (CallExpression 0 12
       (MemberExpression 0 10 (Identifier 0 3 "api") (Identifier 4 10 "region") false)
       [])
    [].

(** [const c = async () => {};] *)
Definition const_c_arrow : Node :=
  VariableDeclaration 0 25 "const"
    [VariableDeclarator 6 24 (Identifier 6 7 "c")
       (Some (ArrowFunctionExpression 10 24 true [] (BlockStatement 22 24 [])))].

(** [export default c;] *)
Definition export_default_c : Node :=
  ExportDefaultDeclaration 26 43 (Identifier 41 42 "c").

(** [const c = async () => {}; export default c;] *)
Definition default_exported_arrow : Node :=
  Program 0 43 [const_c_arrow; export_default_c].

(** [export let f = () => {}]: exported, but not a [const]. *)
Definition export_let_arrow : Node :=
  ExportNamedDeclaration 0 23
    (Some (VariableDeclaration 7 23 "let"
             [VariableDeclarator 11 23 (Identifier 11 12 "f")
                (Some (ArrowFunctionExpression 15 23 false []
                         (BlockStatement 21 23 [])))])).

(** [export default async function f() {}] as the only statement of a file. *)
Definition export_default_function : Node :=
  Program 0 36
    [ExportDefaultDeclaration 0 36
       (FunctionDeclaration 15 36 true (Some (Identifier 30 31 "f")) []
          (BlockStatement 34 36 []))].

(* ================================================================== *)
(** * Properties *)


(** ** The monad and the walker *)

Lemma bind_Ok {A B} (r : result A) (k : A -> result B) (b : B) :
  bind r k = Ok b -> exists a, r = Ok a /\ k a = Ok b.
Proof.
  destruct r as [a|e]; simpl; intros H; [eauto | discriminate].
Qed.

Lemma forEach_app {A S} (f : A -> S -> result S) (l1 l2 : list A) (s : S) :
  forEach f (l1 ++ l2) s = (s' <- forEach f l1 s ;; forEach f l2 s').
Proof.
  revert s; induction l1 as [|x l1 IH]; intros s; simpl; [reflexivity|].
  destruct (f x s) as [s'|e]; simpl; [apply IH | reflexivity].
Qed.

(** An invariant of the threaded state holds after a successful [forEach]. *)
Lemma forEach_invariant {A S} (f : A -> S -> result S) (P : S -> Prop) :
  (forall x s s', P s -> f x s = Ok s' -> P s') ->
  forall l s s', P s -> forEach f l s = Ok s' -> P s'.
Proof.
  intros Hf l; induction l as [|x l IH]; simpl; intros s s' Hs H.
  - injection H as <-; exact Hs.
  - apply bind_Ok in H as (s1 & H1 & H2); eauto.
Qed.

(** If the callback only ever throws [e], and throws on some element whatever
    the state, the loop throws [e]. *)
Lemma forEach_throws {A S} (f : A -> S -> result S) (e : error) (x : A) :
  (forall y s e', f y s = Throw e' -> e' = e) ->
  (forall s, f x s = Throw e) ->
  forall l s, In x l -> forEach f l s = Throw e.
Proof.
  intros Honly Hx l; induction l as [|y l IH]; simpl; intros s Hin; [contradiction|].
  destruct Hin as [->|Hin].
  - rewrite Hx; reflexivity.
  - destruct (f y s) as [s'|e'] eqn:Hy; simpl; [auto|].
    apply Honly in Hy; subst; reflexivity.
Qed.

Lemma forEach_only_throws {A S} (f : A -> S -> result S) (e : error) :
  (forall y s e', f y s = Throw e' -> e' = e) ->
  forall l s e', forEach f l s = Throw e' -> e' = e.
Proof.
  intros Honly l; induction l as [|y l IH]; simpl; intros s e' H; [discriminate|].
  destruct (f y s) as [s'|e''] eqn:Hy; simpl in H; [eauto|].
  injection H as <-; eauto.
Qed.

Lemma mapM_only_throws {A B} (f : A -> result B) (e : error) :
  (forall y e', f y = Throw e' -> e' = e) ->
  forall l e', mapM f l = Throw e' -> e' = e.
Proof.
  intros Honly l; induction l as [|y l IH]; simpl; intros e' H; [discriminate|].
  destruct (f y) as [b|e''] eqn:Hy; simpl in H.
  - destruct (mapM f l) as [bs|e3]; simpl in H; [discriminate|].
    injection H as <-; eauto.
  - injection H as <-; eauto.
Qed.

(** ** Scope frames *)

Lemma scopeNodes_scope_frames (ancestors : list Node) :
  scopeNodes ancestors = Ok (scope_frames ancestors).
Proof.
  unfold scopeNodes, scope_frames.
  set (keep := fun o : Node * option string => _).
  assert (H : mapM (fun n => dotted <- parseCallee n ;; Ok (n, dotted))
                   (filter isCallExpression ancestors)
              = Ok (map (fun n => (n, match n with
                                      | CallExpression _ _ callee _ => _traverse callee
                                      | _ => None
                                      end))
                        (filter isCallExpression ancestors))).
  { induction ancestors as [|n l IH]; simpl; [reflexivity|].
    destruct n; simpl; try exact IH.
    rewrite IH; reflexivity. }
  rewrite H; reflexivity.
Qed.

Lemma scope_frames_app (a b : list Node) :
  scope_frames (a ++ b) = scope_frames a ++ scope_frames b.
Proof.
  unfold scope_frames. rewrite filter_app, map_app, filter_app. reflexivity.
Qed.

Lemma inferTestName_only_TypeError (n : Node) (e : error) :
  inferTestName n = Throw e -> e = TypeError.
Proof.
  destruct n; simpl; try (intros H; injection H as <-; reflexivity).
  destruct arguments as [|a l]; [intros H; injection H as <-; reflexivity|].
  destruct a; discriminate.
Qed.

Lemma scopeObj_only_TypeError (o : Node * option string) (e : error) :
  scopeObj o = Throw e -> e = TypeError.
Proof.
  unfold scopeObj.
  destruct (inferTestName (fst o)) as [name|e'] eqn:Hn; simpl.
  - destruct (snd o); [discriminate|]. intros H; injection H as <-; reflexivity.
  - intros H; injection H as <-. eapply inferTestName_only_TypeError; eauto.
Qed.

(** ** The only error of the two walks is a TypeError *)

Ltac inv_throw H := injection H as <-; reflexivity.

Ltac break_match :=
  match goal with
  | |- context [match ?x with _ => _ end] => destruct x eqn:?
  end.

Lemma assertProperty_only_TypeError (n : Node) errors (e : error) :
  assertPropertyNodeIsLiteralBooleanAndExtract n errors = Throw e -> e = TypeError.
Proof.
  unfold assertPropertyNodeIsLiteralBooleanAndExtract.
  repeat break_match; intros H; try discriminate; inv_throw H.
Qed.

Lemma api_argProp_only_TypeError (argProp : Node) (vars : api_vars) (e : error) :
  api_argProp argProp vars = Throw e -> e = TypeError.
Proof.
  destruct vars as [[errors sync] wait]. unfold api_argProp.
  destruct (literal_eqb_string (getPropertyKey argProp) "sync").
  - destruct (assertPropertyNodeIsLiteralBooleanAndExtract argProp errors)
      as [[errors1 r1]|e1] eqn:H1; simpl.
    + destruct (literal_eqb_string (getPropertyKey argProp) "waitAfter"); simpl;
        [|discriminate].
      destruct (assertPropertyNodeIsLiteralBooleanAndExtract argProp errors1)
        as [[errors2 r2]|e2] eqn:H2; simpl; [discriminate|].
      intros H; injection H as <-. eapply assertProperty_only_TypeError; eauto.
    + intros H; injection H as <-. eapply assertProperty_only_TypeError; eauto.
  - simpl.
    destruct (literal_eqb_string (getPropertyKey argProp) "waitAfter"); simpl;
      [|discriminate].
    destruct (assertPropertyNodeIsLiteralBooleanAndExtract argProp errors)
      as [[errors2 r2]|e2] eqn:H2; simpl; [discriminate|].
    intros H; injection H as <-. eapply assertProperty_only_TypeError; eauto.
Qed.

Lemma api_annotations_only_TypeError (callee : Node) (e : error) :
  api_annotations callee = Throw e -> e = TypeError.
Proof.
  unfold api_annotations.
  repeat break_match; try discriminate; try (intros H; inv_throw H).
  apply forEach_only_throws. intros y s e'. apply api_argProp_only_TypeError.
Qed.

Lemma maybeGetLiteralValue_only_TypeError_aux (n : Node) :
  (forall e, maybeGetLiteralValue n = Throw e -> e = TypeError)
  /\ (forall e, maybeGetLiteralValue (property_value n) = Throw e -> e = TypeError).
Proof.
  induction n; cbn [property_value];
    try (split; intros e; cbn [maybeGetLiteralValue]; discriminate);
    try (split; [intros e; discriminate | tauto]).
  - (* ArrayExpression *)
    enough (forall e, maybeGetLiteralValue (ArrayExpression start end_ elements)
                      = Throw e -> e = TypeError) by tauto.
    intros e; cbn [maybeGetLiteralValue].
    match goal with
    | |- ?f ?l [] = _ -> _ =>
        enough (Hgen : forall output, f l output = Throw e -> e = TypeError)
          by exact (Hgen [])
    end.
    match goal with L : list_all _ _ _ |- _ => induction L as [|x Hx l Hl IH] end;
      intros output; [discriminate|].
    destruct Hx as [a [Ha _]|]; cbn [bind]; [|intros H; inv_throw H].
    destruct (maybeGetLiteralValue a) as [[w|]|e'] eqn:Hw; cbn [bind];
      [|discriminate|intros H; injection H as <-; exact (Ha _ eq_refl)].
    destruct (negb (truthy_value (Some w))); [discriminate|]. apply IH.
  - (* ObjectExpression *)
    enough (forall e, maybeGetLiteralValue (ObjectExpression start end_ properties)
                      = Throw e -> e = TypeError) by tauto.
    intros e; cbn [maybeGetLiteralValue].
    match goal with
    | |- ?f ?l [] = _ -> _ =>
        enough (Hgen : forall output, f l output = Throw e -> e = TypeError)
          by exact (Hgen [])
    end.
    match goal with L : list_all _ _ _ |- _ => induction L as [|x [_ Hx] l Hl IH] end;
      intros output; [discriminate|].
    destruct (negb (truthy_propkey (getPropertyKey x))); [discriminate|].
    destruct x; try discriminate. cbn [property_value] in Hx.
    destruct (getPropertyKey _) as [k|]; [|discriminate].
    destruct (maybeGetLiteralValue x2) as [[w|]|e'] eqn:Hw; cbn [bind];
      [|discriminate|intros H; injection H as <-; exact (Hx _ eq_refl)].
    destruct (negb (truthy_value (Some w))); [discriminate|]. apply IH.
Qed.

Lemma maybeGetLiteralValue_only_TypeError (n : Node) (e : error) :
  maybeGetLiteralValue n = Throw e -> e = TypeError.
Proof.
  apply (proj1 (maybeGetLiteralValue_only_TypeError_aux n)).
Qed.

Lemma literal_arguments_only_TypeError (arguments : list Node) (e : error) :
  forall i, literal_arguments i arguments = Throw e -> e = TypeError.
Proof.
  induction arguments as [|a rest IH]; intros i; cbn [literal_arguments];
    [discriminate|].
  destruct (maybeGetLiteralValue a) as [value|e'] eqn:Ha; cbn [bind];
    [|intros H; injection H as <-; exact (maybeGetLiteralValue_only_TypeError _ _ Ha)].
  destruct (literal_arguments (S i) rest) as [l|e'] eqn:Hr; cbn [bind];
    [discriminate|].
  intros H; injection H as <-. exact (IH _ Hr).
Qed.

Lemma findFuncCalls_visitor_only_TypeError (n : Node) ancestors calls (e : error) :
  isCallExpression n = true ->
  findFuncCalls_visitor n ancestors calls = Throw e -> e = TypeError.
Proof.
  destruct n; try discriminate. intros _.
  unfold findFuncCalls_visitor; simpl.
  destruct (_traverse n) as [d|]; simpl; [|discriminate].
  destruct (String.eqb d ""); simpl; [discriminate|].
  destruct (literal_arguments 0 arguments) as [literalArguments|e'] eqn:Hl;
    cbn [bind];
    [|intros H; injection H as <-; exact (literal_arguments_only_TypeError _ _ _ Hl)].
  destruct (String.eqb d "api"); [discriminate|].
  destruct (startsWith d "api."); simpl; [|discriminate].
  destruct (api_annotations n) as [[[errors sync] wait]|e'] eqn:Ha; simpl;
    [discriminate|].
  intros H; injection H as <-. eapply api_annotations_only_TypeError; eauto.
Qed.

Lemma walk_only_TypeError {S} (visitor : Node -> list Node -> S -> result S) :
  (forall n anc s e, isCallExpression n = true ->
                     visitor n anc s = Throw e -> e = TypeError) ->
  forall ast s e, walk_ancestor visitor ast s = Throw e -> e = TypeError.
Proof.
  intros Hv ast s e. unfold walk_ancestor.
  apply forEach_only_throws. intros [n anc] s0 e'; simpl.
  destruct (isCallExpression n) eqn:Hc; [eauto | discriminate].
Qed.

Lemma findFuncCalls_only_TypeError (ast : Node) (e : error) :
  findFuncCalls ast = Throw e -> e = TypeError.
Proof.
  apply walk_only_TypeError. intros n anc s e'.
  apply findFuncCalls_visitor_only_TypeError.
Qed.

Lemma hooks_push_only_TypeError hooks name h (e : error) :
  hooks_push hooks name h = Throw e -> e = TypeError.
Proof.
  induction hooks as [|[k l] rest IH]; simpl; [intros H; inv_throw H|].
  destruct (String.eqb k name); [discriminate|].
  destruct (hooks_push rest name h); simpl; [discriminate|].
  intros H; injection H as <-; auto.
Qed.

Lemma findTests_visitor_only_TypeError (n : Node) ancestors out (e : error) :
  isCallExpression n = true ->
  findTests_visitor n ancestors out = Throw e -> e = TypeError.
Proof.
  destruct n; try discriminate. intros _.
  unfold findTests_visitor, parseCallee; cbn [bind].
  destruct (_traverse n) as [d|]; cbn [bind negb truthy_name]; [|discriminate].
  destruct (String.eqb d ""); cbn [bind negb truthy_name]; [discriminate|].
  rewrite scopeNodes_scope_frames; cbn [bind negb truthy_name].
  destruct (isTestIdentifier d).
  - destruct (mapM scopeObj (scope_frames ancestors)) as [scope|e1] eqn:Hs; cbn [bind negb truthy_name].
    + destruct (nth_error arguments 1) as [f|]; [|intros H; inv_throw H].
      destruct (findFuncCalls f) as [calls|e2] eqn:Hc; cbn [bind negb truthy_name]; [discriminate|].
      intros H; injection H as <-. eapply findFuncCalls_only_TypeError; eauto.
    + intros H; injection H as <-.
      eapply mapM_only_throws; [|exact Hs]. intros y e'. apply scopeObj_only_TypeError.
  - destruct (SUPPORTED_HOOKS_has d); [|discriminate].
    destruct arguments as [|f [|g l]]; try discriminate.
    destruct (isFunctionLiteral f); cbn [bind negb truthy_name]; [|discriminate].
    destruct (existsb _ (scope_frames ancestors)); [discriminate|].
    destruct (mapM scopeObj (scope_frames ancestors)) as [scope|e1] eqn:Hs; cbn [bind negb truthy_name].
    + destruct (findFuncCalls f) as [calls|e2] eqn:Hc; cbn [bind negb truthy_name].
      * destruct (hooks_push _ _ _) as [hooks'|e3] eqn:Hp; cbn [bind negb truthy_name]; [discriminate|].
        intros H; injection H as <-. eapply hooks_push_only_TypeError; eauto.
      * intros H; injection H as <-. eapply findFuncCalls_only_TypeError; eauto.
    + intros H; injection H as <-.
      eapply mapM_only_throws; [|exact Hs]. intros y e'. apply scopeObj_only_TypeError.
Qed.

(* ================================================================== *)
(** ** Missing syntax tree (C9) and missing test function (C10) *)

Lemma isTestIdentifier_truthy (dotted : string) :
  isTestIdentifier dotted = true -> truthy_name (Some dotted) = true.
Proof.
  intros H. simpl. destruct (String.eqb dotted "") eqn:E; [|reflexivity].
  apply String.eqb_eq in E; subst; discriminate.
Qed.

Lemma nth_error_1_short {A} (l : list A) :
  (List.length l < 2)%nat -> nth_error l 1 = None.
Proof.
  intros H. apply nth_error_None. lia.
Qed.

(** On a test-family call with fewer than two arguments the visitor of
    [findTests] throws, whatever has been collected so far. *)
Lemma findTests_visitor_short_test_call start end_ callee arguments ancestors dotted out :
  _traverse callee = Some dotted ->
  isTestIdentifier dotted = true ->
  (List.length arguments < 2)%nat ->
  findTests_visitor (CallExpression start end_ callee arguments) ancestors out
  = Throw TypeError.
Proof.
  intros Hd Ht Hlen.
  unfold findTests_visitor, parseCallee; cbn [bind].
  rewrite Hd, (isTestIdentifier_truthy _ Ht), Ht; cbn [negb].
  rewrite scopeNodes_scope_frames; cbn [bind].
  destruct (mapM scopeObj (scope_frames ancestors)) as [scope|e] eqn:Hs; cbn [bind].
  - rewrite (nth_error_1_short _ Hlen). reflexivity.
  - f_equal. eapply mapM_only_throws; [|exact Hs].
    intros y e'. apply scopeObj_only_TypeError.
Qed.

(** C9 (the code departs from the claim): on the parser's "no tree" sentinel
    [findTests] returns the empty result, four empty hook buckets and no test,
    but [findExportedFunc] has no such guard and throws a TypeError when it
    reads [body] of [null]. *)
Theorem no_tree_findTests_empty_findExportedFunc_throws :
  findTests None
  = Ok (mkTestsOutput []
          [("beforeAll", []); ("beforeEach", []); ("afterAll", []); ("afterEach", [])]%string)
  /\ findExportedFunc None = Throw TypeError.
Proof.
  split; reflexivity.
Qed.

(** C10: if the walk of [findTests] reaches a call whose resolved name is in
    the test-identifier family ([it] or [it.*]) and which has fewer than two
    arguments, [findTests] does not skip the call: it throws a TypeError.  So
    [findTests] returns a result only for trees in which every such call has at
    least two arguments. *)
Theorem findTests_throws_on_test_call_without_function :
  forall (ast : Node) start end_ callee arguments ancestors dotted,
    In (CallExpression start end_ callee arguments, ancestors) (visits [] ast) ->
    _traverse callee = Some dotted ->
    isTestIdentifier dotted = true ->
    (List.length arguments < 2)%nat ->
    findTests (Some ast) = Throw TypeError.
Proof.
  intros ast start end_ callee arguments ancestors dotted Hin Hd Ht Hlen.
  unfold findTests, walk_ancestor.
  apply forEach_throws
    with (x := (CallExpression start end_ callee arguments, ancestors)).
  - intros [n anc] s e'; cbn [fst snd].
    destruct (isCallExpression n) eqn:Hc; [|discriminate].
    apply findTests_visitor_only_TypeError; exact Hc.
  - intros s; cbn [fst snd isCallExpression].
    eapply findTests_visitor_short_test_call; eauto.
  - exact Hin.
Qed.

Lemma findTests_throws_on_test_call_without_function_witness :
  findTests (Some it_without_function) = Throw TypeError.
Proof.
  apply (findTests_throws_on_test_call_without_function it_without_function
           0 7 (Identifier 0 2 "it") [Literal 3 6 (LString "x")]
           [it_without_function;
            ExpressionStatement 0 8
              (CallExpression 0 7 (Identifier 0 2 "it") [Literal 3 6 (LString "x")]);
            CallExpression 0 7 (Identifier 0 2 "it") [Literal 3 6 (LString "x")]]
           "it").
  - simpl. do 2 right. left. reflexivity.
  - reflexivity.
  - reflexivity.
  - simpl. lia.
Defined.

(* ================================================================== *)
(** ** What one step of [findTests] does *)

Lemma eqb_empty (d : string) : String.eqb d "" = true -> d = ""%string.
Proof.
  apply String.eqb_eq.
Qed.

Lemma findTests_visitor_outcome (node : Node) ancestors out out' :
  findTests_visitor node ancestors out = Ok out' ->
  visitor_outcome node ancestors out out'.
Proof.
  destruct node; try discriminate.
  unfold findTests_visitor, parseCallee; cbn [bind].
  pose proof (fun H1 H2 => Ignored (CallExpression start end_ node arguments)
                             ancestors out out (eq_refl out) H1 H2) as Hign.
  unfold is_test_call, qualifies_as_hook, resolved_name in Hign.
  destruct (_traverse node) as [d|] eqn:Hd; cbn [truthy_name negb];
    [|intros H; injection H as <-; apply Hign; reflexivity].
  destruct (String.eqb d "") eqn:He; cbn [negb];
    [intros H; injection H as <-; apply eqb_empty in He; subst d;
     apply Hign; reflexivity|].
  rewrite scopeNodes_scope_frames; cbn [bind].
  destruct (isTestIdentifier d) eqn:Ht.
  - destruct (mapM scopeObj (scope_frames ancestors)) as [scope|e1] eqn:Hs;
      cbn [bind]; [|discriminate].
    destruct (nth_error arguments 1) as [f|] eqn:Hf; [|discriminate].
    destruct (findFuncCalls f) as [calls|e2] eqn:Hc; cbn [bind]; [|discriminate].
    intros H; injection H as <-.
    eapply TestPushed; eauto.
  - destruct (SUPPORTED_HOOKS_has d) eqn:Hh;
      [|intros H; injection H as <-; apply Hign; reflexivity].
    destruct arguments as [|f [|g l]];
      try (intros H; injection H as <-; apply Hign; reflexivity).
    destruct (isFunctionLiteral f) eqn:Hfl; cbn [negb];
      [|intros H; injection H as <-; apply Hign; reflexivity].
    fold is_test_frame.
    destruct (existsb is_test_frame (scope_frames ancestors)) eqn:Hex;
      [intros H; injection H as <-; apply Hign; reflexivity|].
    destruct (mapM scopeObj (scope_frames ancestors)) as [scope|e1] eqn:Hs;
      cbn [bind]; [|discriminate].
    destruct (findFuncCalls f) as [calls|e2] eqn:Hc; cbn [bind]; [|discriminate].
    destruct (hooks_push _ _ _) as [hooks'|e3] eqn:Hp; cbn [bind]; [|discriminate].
    intros H; injection H as <-.
    eapply HookPushed; eauto.
Qed.

(** The invariant version for the whole walk. *)
Lemma findTests_invariant (P : TestsOutput -> Prop) :
  P (mkTestsOutput [] (map (fun hook => (hook, [])) SUPPORTED_HOOKS)) ->
  (forall node ancestors out out',
      P out -> visitor_outcome node ancestors out out' -> P out') ->
  forall ast out, findTests ast = Ok out -> P out.
Proof.
  intros H0 Hstep [ast|] out; unfold findTests;
    [|intros H; injection H as <-; exact H0].
  unfold walk_ancestor.
  apply forEach_invariant; [|exact H0].
  intros [n anc] s s' Hs; cbn [fst snd].
  destruct (isCallExpression n); [|intros H; injection H as <-; exact Hs].
  intros H. eapply Hstep; [exact Hs|]. apply findTests_visitor_outcome; exact H.
Qed.

(* ================================================================== *)
(** ** The hook buckets (C8) *)

Lemma hooks_push_keys hooks name h hooks' :
  hooks_push hooks name h = Ok hooks' -> map fst hooks' = map fst hooks.
Proof.
  revert hooks'; induction hooks as [|[k l] rest IH]; simpl; intros hooks' H;
    [discriminate|].
  destruct (String.eqb k name).
  - injection H as <-; reflexivity.
  - apply bind_Ok in H as (rest' & Hr & H). injection H as <-.
    simpl. f_equal. auto.
Qed.

(** C8 (as stated, refuted): on the empty program the [hooks] object returned by
    [findTests] does not have the keys before, beforeEach, after, afterEach. *)
Lemma hook_keys_are_not_before_after :
  exists out,
    findTests (Some (Program 0 0 [])) = Ok out
    /\ hook_keys out <> ["before"; "beforeEach"; "after"; "afterEach"]%string.
Proof.
  eexists; split; [reflexivity|]. vm_compute. discriminate.
Qed.

(** C8 (amended): whenever [findTests] returns, the [hooks] object of its
    result has exactly the four keys beforeAll, beforeEach, afterAll and
    afterEach, in that order: the buckets are keyed by the resolved hook names
    and are not renamed. *)
Theorem findTests_hook_keys :
  forall ast out,
    findTests ast = Ok out ->
    hook_keys out = ["beforeAll"; "beforeEach"; "afterAll"; "afterEach"]%string.
Proof.
  apply findTests_invariant; [reflexivity|].
  intros node ancestors out out' Hout Hstep. unfold hook_keys in *.
  destruct Hstep as [-> _ _ | ? ? ? ? ? ? ? ? _ _ _ _ _ _ -> | ? ? ? ? ? ? ? ? _ _ _ _ _ _ _ _ Hp ->];
    cbn [hooks]; auto.
  rewrite (hooks_push_keys _ _ _ _ Hp). exact Hout.
Qed.

Lemma findTests_hook_keys_witness :
  exists out,
    findTests (Some beforeEach_top_level) = Ok out
    /\ hook_keys out = ["beforeAll"; "beforeEach"; "afterAll"; "afterEach"]%string.
Proof.
  eexists. split; [vm_compute; reflexivity|].
  apply (findTests_hook_keys (Some beforeEach_top_level)).
  vm_compute; reflexivity.
Defined.

(* ================================================================== *)
(** ** Multi-declarator exports (C7) *)

Lemma findM_init_is_arrow (declarations : list Node) :
  forallb is_declarator_with_init declarations = true ->
  findM init_is_arrow declarations = Ok (find has_arrow_init declarations).
Proof.
  induction declarations as [|d l IH]; simpl; [reflexivity|].
  intros H. apply andb_true_iff in H as [Hd Hl].
  destruct d; try discriminate. destruct init as [i|]; [|discriminate].
  simpl. destruct (String.eqb (node_type i) "ArrowFunctionExpression"); auto.
Qed.

Lemma findM_id_matches (name : string) (declarations : list Node) :
  forallb is_declarator_with_init declarations = true ->
  findM (id_matches (Some name)) declarations
  = Ok (find (declares name) declarations).
Proof.
  induction declarations as [|d l IH]; simpl; [reflexivity|].
  intros H. apply andb_true_iff in H as [Hd Hl].
  destruct d; try discriminate.
  simpl. destruct (option_string_eqb (node_name d) (Some name)); auto.
Qed.

Lemma find_is_some {A} (p : A -> bool) (l : list A) :
  is_some (find p l) = existsb p l.
Proof.
  induction l as [|x l IH]; simpl; [reflexivity|].
  destruct (p x); simpl; auto.
Qed.

Lemma truthy_string_Some (name : string) :
  name <> ""%string -> truthy_string (Some name) = true.
Proof.
  intros H. simpl. destruct (String.eqb name "") eqn:E; [|reflexivity].
  apply String.eqb_eq in E. contradiction.
Qed.

(** The declaration itself: with more than one declarator, an arrow function
    among the initializers and an export, it throws at the second declarator. *)
Lemma maybeRegisterVariableDeclarations_multi
    exportDefault defaultName s e kind d0 d1 rest exportStart exportEnd start end_ fns :
  let declarations := d0 :: d1 :: rest in
  forallb is_declarator_with_init declarations = true ->
  existsb has_arrow_init declarations = true ->
  (is_some exportStart = true
   \/ exists name, defaultName = Some name /\ name <> ""%string
                   /\ existsb (declares name) declarations = true) ->
  maybeRegisterVariableDeclarations exportDefault defaultName
    (VariableDeclaration s e kind declarations) exportStart exportEnd start end_ fns
  = Throw (ParseLimitationsError multi_declaration_message (node_start d1)).
Proof.
  intros declarations Hinit Harrow Hexp.
  unfold maybeRegisterVariableDeclarations.
  rewrite (findM_init_is_arrow _ Hinit); cbn [bind].
  rewrite find_is_some, Harrow; cbn [negb].
  assert (Hlen : Nat.ltb 1 (List.length declarations) = true) by reflexivity.
  destruct (truthy_string defaultName) eqn:Hdef.
  - destruct defaultName as [name|]; [|discriminate].
    rewrite (findM_id_matches _ _ Hinit); cbn [bind].
    rewrite find_is_some.
    destruct (negb (is_some exportStart) && negb (existsb (declares name) declarations))
      eqn:Hskip.
    + exfalso. apply andb_true_iff in Hskip as [H1 H2].
      destruct Hexp as [He | (name' & Hn & _ & Hd)].
      * rewrite He in H1; discriminate.
      * injection Hn as <-. rewrite Hd in H2; discriminate.
    + rewrite Hlen. reflexivity.
  - cbn [bind].
    destruct Hexp as [He | (name' & Hn & Hne & _)].
    + rewrite He; cbn [negb andb]. rewrite Hlen. reflexivity.
    + subst. rewrite (truthy_string_Some _ Hne) in Hdef; discriminate.
Qed.

(** The statement of the file holding such a declaration. *)
Lemma findExportedFunc_statement_multi body stmt d0 d1 rest fns :
  let declarations := d0 :: d1 :: rest in
  exported_const_declaration body stmt declarations ->
  forallb is_declarator_with_init declarations = true ->
  existsb has_arrow_init declarations = true ->
  findExportedFunc_statement (find is_default_export_of_identifier body)
    (default_export_of body) stmt fns
  = Throw (ParseLimitationsError multi_declaration_message (node_start d1)).
Proof.
  intros declarations Hexp Hinit Harrow.
  destruct Hexp as [(s & e & s' & e' & ->) | (s & e & name & -> & Hdef & Hne & Hd)].
  - cbn -[maybeRegisterVariableDeclarations].
    apply maybeRegisterVariableDeclarations_multi; auto.
  - cbn -[maybeRegisterVariableDeclarations].
    apply maybeRegisterVariableDeclarations_multi; auto.
    right. exists name. auto.
Qed.

(** A loop over [pre ++ x :: post] whose callback throws [e] on [x]. *)
Lemma forEach_aborts_at {A S} (f : A -> S -> result S) (e : error)
    (pre post : list A) (x : A) (s0 : S) :
  (forall s, f x s = Throw e) ->
  (forall s, forEach f (pre ++ x :: post) s0 <> Ok s)
  /\ ((exists s, forEach f pre s0 = Ok s) ->
      forEach f (pre ++ x :: post) s0 = Throw e).
Proof.
  intros Hx. rewrite forEach_app. split.
  - intros s H. apply bind_Ok in H as (s1 & _ & H).
    cbn [forEach] in H. rewrite Hx in H. discriminate.
  - intros (s & Hpre). rewrite Hpre; cbn [bind forEach].
    rewrite Hx. reflexivity.
Qed.

(** The claim C7 as worded fails on a file that meets its conditions but has
    an earlier statement that throws: after
    [export function f() { api.region()() }], the multi-declarator export is
    never reached and the error is the TypeError of the collector, not the
    ParseLimitationsError; and after another multi-declarator export, the
    error carries the offset of that earlier declaration's second declarator
    (20), not of this one's (53). *)
Lemma multi_declarator_export_after_failing_statement :
  (exists d0 d1,
      exported_const_declaration
        [export_crashing_function; export_const_a_b_second_line]
        export_const_a_b_second_line [d0; d1]
      /\ forallb is_declarator_with_init [d0; d1] = true
      /\ existsb has_arrow_init [d0; d1] = true)
  /\ findExportedFunc
       (Some (Program 0 71 [export_crashing_function; export_const_a_b_second_line]))
     = Throw TypeError
  /\ (exists d0 d1,
         exported_const_declaration
           [export_const_a_b; export_const_c_d_second_line]
           export_const_c_d_second_line [d0; d1]
         /\ forallb is_declarator_with_init [d0; d1] = true
         /\ existsb has_arrow_init [d0; d1] = true
         /\ node_start d1 = 53)
  /\ findExportedFunc
       (Some (Program 0 65 [export_const_a_b; export_const_c_d_second_line]))
     = Throw (ParseLimitationsError multi_declaration_message 20).
Proof.
  split; [|split; [|split]]; try (vm_compute; reflexivity).
  - eexists _, _. split; [left; exists 39, 71, 46, 71; reflexivity|].
    split; reflexivity.
  - eexists _, _. split; [left; exists 33, 65, 40, 65; reflexivity|].
    repeat split.
Qed.

(** C7 (amended): a file one of whose top-level statements is an exported
    [const] declaration (exported directly, or through the default export of
    one of its identifiers) with more than one declarator, one of them
    initialized with an arrow function, yields no list of exported functions
    at all.  When the statements before it are processed without an error,
    extraction stops at that declaration with the ParseLimitationsError
    carrying the start offset of its second declarator; otherwise it stops
    earlier, with the error of the first of those statements that throws. *)
Theorem findExportedFunc_multi_declarator_aborts :
  forall s e pre stmt post d0 d1 rest,
    let declarations := d0 :: d1 :: rest in
    let body := pre ++ stmt :: post in
    exported_const_declaration body stmt declarations ->
    forallb is_declarator_with_init declarations = true ->
    existsb has_arrow_init declarations = true ->
    (forall fns, findExportedFunc (Some (Program s e body)) <> Ok fns)
    /\ (processed_without_error body pre ->
        findExportedFunc (Some (Program s e body))
        = Throw (ParseLimitationsError multi_declaration_message (node_start d1)))
    /\ (forall err,
           forEach (findExportedFunc_statement
                      (find is_default_export_of_identifier body)
                      (default_export_of body)) pre [] = Throw err ->
           findExportedFunc (Some (Program s e body)) = Throw err).
Proof.
  intros s e pre stmt post d0 d1 rest declarations body Hexp Hinit Harrow.
  assert (Hstmt := fun fns =>
            findExportedFunc_statement_multi body stmt d0 d1 rest fns Hexp Hinit Harrow).
  unfold processed_without_error. cbn [findExportedFunc].
  fold (default_export_of body).
  split; [|split].
  - apply (forEach_aborts_at _ _ pre post stmt [] Hstmt).
  - apply (forEach_aborts_at _ _ pre post stmt [] Hstmt).
  - intros err Hpre. subst body. rewrite forEach_app, Hpre. reflexivity.
Qed.

Lemma findExportedFunc_multi_declarator_aborts_witness :
  findExportedFunc (Some (Program 0 32 [export_const_a_b]))
  = Throw (ParseLimitationsError multi_declaration_message 20).
Proof.
  refine (proj1 (proj2 (findExportedFunc_multi_declarator_aborts 0 32 []
                          export_const_a_b []
                          (VariableDeclarator 13 18 (Identifier 13 14 "a")
                             (Some (Identifier 17 18 "x")))
                          (VariableDeclarator 20 32 (Identifier 20 21 "b")
                             (Some (ArrowFunctionExpression 24 32 false []
                                      (BlockStatement 30 32 []))))
                          [] _ _ _)) _).
  - left. exists 0, 32, 7, 32. reflexivity.
  - reflexivity.
  - reflexivity.
  - exists []. reflexivity.
Defined.

(* ================================================================== *)
(** ** Hook names *)

Lemma SUPPORTED_HOOKS_has_cases (d : string) :
  SUPPORTED_HOOKS_has d = true ->
  d = "beforeAll"%string \/ d = "beforeEach"%string
  \/ d = "afterAll"%string \/ d = "afterEach"%string.
Proof.
  unfold SUPPORTED_HOOKS_has, SUPPORTED_HOOKS. cbn [existsb].
  intros H.
  repeat (apply orb_true_iff in H as [H|H]; [apply String.eqb_eq in H; auto|]).
  discriminate.
Qed.

Lemma hook_name_not_test (d : string) :
  SUPPORTED_HOOKS_has d = true ->
  isTestIdentifier d = false /\ truthy_name (Some d) = true.
Proof.
  intros H. apply SUPPORTED_HOOKS_has_cases in H as [-> | [-> | [-> | ->]]];
    split; reflexivity.
Qed.

Lemma hook_call_ignored start end_ callee arguments ancestors out dotted :
  _traverse callee = Some dotted ->
  SUPPORTED_HOOKS_has dotted = true ->
  qualifies_as_hook (CallExpression start end_ callee arguments) ancestors = false ->
  findTests_visitor (CallExpression start end_ callee arguments) ancestors out = Ok out.
Proof.
  intros Hd Hh Hq.
  destruct (hook_name_not_test _ Hh) as [Ht Htr].
  unfold qualifies_as_hook in Hq. rewrite Hd, Hh in Hq. cbn [andb] in Hq.
  unfold findTests_visitor, parseCallee; cbn [bind].
  rewrite Hd, Htr, Ht, Hh; cbn [negb].
  destruct arguments as [|f [|g l]]; try reflexivity.
  destruct (isFunctionLiteral f); cbn [negb andb] in *; [|reflexivity].
  rewrite scopeNodes_scope_frames; cbn [bind]. fold is_test_frame.
  destruct (existsb is_test_frame (scope_frames ancestors)); [reflexivity|discriminate].
Qed.

(* ================================================================== *)
(** ** The stack seen by a visitor ends with the visited node *)

Lemma each_visits (P : visit -> Prop) (anc : list Node) (l : list Node) :
  list_all Node (fun c => forall a v, In v (visits a c) -> P v) l ->
  forall v,
    In v ((fix each (l : list Node) : list visit :=
             match l with
             | [] => []
             | x :: l' => visits anc x ++ each l'
             end) l) -> P v.
Proof.
  induction 1 as [|c Hc l Hl IH]; intros v Hin; [contradiction|].
  apply in_app_or in Hin as [Hin|Hin]; eauto.
Qed.

Lemma each_element_visits (P : visit -> Prop) (anc : list Node)
    (l : list (option Node)) :
  list_all (option Node)
    (option_all Node (fun c => forall a v, In v (visits a c) -> P v)) l ->
  forall v,
    In v ((fix each_element (l : list (option Node)) : list visit :=
             match l with
             | [] => []
             | Some x :: l' => visits anc x ++ each_element l'
             | None :: l' => each_element l'
             end) l) -> P v.
Proof.
  induction 1 as [|c Hc l Hl IH]; intros v Hin; [contradiction|].
  destruct Hc as [c Hc|]; [apply in_app_or in Hin as [Hin|Hin]|]; eauto.
Qed.

Lemma visits_own_last (n : Node) :
  forall a v, In v (visits a n) -> own_last v.
Proof.
  induction n; intros a v Hin; cbn [visits] in Hin;
    apply in_app_or in Hin as [Hin|Hin];
    try (destruct Hin as [<-|[]]; exists a; reflexivity);
    repeat match goal with
           | H : In _ (_ ++ _) |- _ => apply in_app_or in H as [H|H]
           | H : In _ [] |- _ => contradiction
           | H : In _ (if ?c then _ else _) |- _ => destruct c
           | H : In _ (match ?o with Some _ => _ | None => _ end) |- _ => destruct o
           | H : option_all _ _ (Some _) |- _ => inversion H; subst; clear H
           | IH : forall a v, In v (visits a ?c) -> _, H : In _ (visits _ ?c) |- _ =>
               exact (IH _ _ H)
           | L : list_all _ _ ?l, H : In _ _ |- _ =>
               first [ exact (each_visits own_last _ l L _ H)
                     | exact (each_element_visits own_last _ l L _ H) ]
           end.
Qed.

Lemma forEach_invariant_In {A S} (f : A -> S -> result S) (P : S -> Prop) (l : list A) :
  (forall x s s', In x l -> P s -> f x s = Ok s' -> P s') ->
  forall s s', P s -> forEach f l s = Ok s' -> P s'.
Proof.
  induction l as [|x l IH]; simpl; intros Hf s s' Hs H.
  - injection H as <-; exact Hs.
  - apply bind_Ok in H as (s1 & H1 & H2).
    eapply IH; [| |exact H2]; eauto.
Qed.

(** The invariant of the whole walk, with the shape of the stack. *)
Lemma findTests_invariant_own (P : TestsOutput -> Prop) :
  P (mkTestsOutput [] (map (fun hook => (hook, [])) SUPPORTED_HOOKS)) ->
  (forall node pre out out',
      P out -> visitor_outcome node (pre ++ [node]) out out' -> P out') ->
  forall ast out, findTests ast = Ok out -> P out.
Proof.
  intros H0 Hstep [ast|] out; unfold findTests;
    [|intros H; injection H as <-; exact H0].
  unfold walk_ancestor.
  apply forEach_invariant_In; [|exact H0].
  intros [n anc] s s' Hin Hs; cbn [fst snd].
  destruct (isCallExpression n); [|intros H; injection H as <-; exact Hs].
  intros H. apply visits_own_last in Hin as [pre Hpre]. cbn [fst snd] in Hpre.
  subst anc. eapply Hstep; [exact Hs|]. apply findTests_visitor_outcome; exact H.
Qed.

Lemma mapM_snoc {A B} (f : A -> result B) (l : list A) (x : A) (ys : list B) :
  mapM f (l ++ [x]) = Ok ys ->
  exists ys' y, ys = ys' ++ [y] /\ mapM f l = Ok ys' /\ f x = Ok y.
Proof.
  revert ys; induction l as [|a l IH]; simpl; intros ys H.
  - apply bind_Ok in H as (y & Hy & H). injection H as <-.
    exists [], y. auto.
  - apply bind_Ok in H as (b & Hb & H).
    apply bind_Ok in H as (bs & Hbs & H). injection H as <-.
    apply IH in Hbs as (ys' & y & -> & Hl & Hx).
    exists (b :: ys'), y. rewrite Hb, Hl. auto.
Qed.

Lemma mapM_In {A B} (f : A -> result B) (l : list A) (ys : list B) :
  mapM f l = Ok ys -> forall y, In y ys -> exists x, In x l /\ f x = Ok y.
Proof.
  revert ys; induction l as [|a l IH]; simpl; intros ys H y Hin.
  - injection H as <-. contradiction.
  - apply bind_Ok in H as (b & Hb & H).
    apply bind_Ok in H as (bs & Hbs & H). injection H as <-.
    destruct Hin as [<-|Hin]; [eauto|].
    destruct (IH _ Hbs _ Hin) as (x & Hx & Hfx). eauto.
Qed.

(** The frame of a test call that is itself at the top of the stack. *)
Lemma scope_frames_own start end_ callee arguments dotted pre :
  _traverse callee = Some dotted ->
  isTestIdentifier dotted = true ->
  scope_frames (pre ++ [CallExpression start end_ callee arguments])
  = scope_frames pre ++ [(CallExpression start end_ callee arguments, Some dotted)].
Proof.
  intros Hd Ht. rewrite scope_frames_app. f_equal.
  unfold scope_frames. cbn [filter isCallExpression map snd].
  rewrite Hd, (isTestIdentifier_truthy _ Ht).
  unfold isTestOrDescribeIdentifier. rewrite Ht. reflexivity.
Qed.

(* ================================================================== *)
(** ** Aggregate flags (C5) *)

Lemma scopeObj_flags (o : Node * option string) (f : ScopeObj.t) :
  scopeObj o = Ok f ->
  frame_flags_ok f /\ snd o = Some (ScopeObj.func f)
  /\ ScopeObj.start f = node_start (fst o) /\ ScopeObj.end_ f = node_end (fst o).
Proof.
  unfold scopeObj. intros H. apply bind_Ok in H as (name & _ & H).
  destruct (snd o) as [d|]; [|discriminate].
  injection H as <-. unfold frame_flags_ok; cbn. repeat split.
Qed.

Lemma truthy_key_if (b : bool) : truthy_key (key_if b) = b.
Proof.
  destruct b; reflexivity.
Qed.

Lemma existsb_frame_flags (scope : list ScopeObj.t) :
  Forall frame_flags_ok scope ->
  existsb (fun n => truthy_key (ScopeObj.skip n)) scope
  = existsb (fun f => isSkip (ScopeObj.func f)) scope
  /\ existsb (fun n => truthy_key (ScopeObj.only n)) scope
     = existsb (fun f => isOnly (ScopeObj.func f)) scope
  /\ existsb (fun n => truthy_key (ScopeObj.iosOnly n)) scope
     = existsb (fun f => isIosOnly (ScopeObj.func f)) scope
  /\ existsb (fun n => truthy_key (ScopeObj.androidOnly n)) scope
     = existsb (fun f => isAndroidOnly (ScopeObj.func f)) scope.
Proof.
  induction 1 as [|f l (H1 & H2 & H3 & H4) _ (I1 & I2 & I3 & I4)]; cbn [existsb];
    [repeat split|].
  rewrite H1, H2, H3, H4, I1, I2, I3, I4, !truthy_key_if. repeat split.
Qed.

Lemma mapM_scopeObj_flags frames scope :
  mapM scopeObj frames = Ok scope -> Forall frame_flags_ok scope.
Proof.
  intros H. apply Forall_forall. intros f Hf.
  destruct (mapM_In _ _ _ H _ Hf) as (o & _ & Ho).
  apply (scopeObj_flags _ _ Ho).
Qed.

Lemma hooks_push_Forall (Q : CaseObj.t -> Prop) hooks name h hooks' :
  Forall (fun kl => Forall Q (snd kl)) hooks ->
  Q h ->
  hooks_push hooks name h = Ok hooks' ->
  Forall (fun kl => Forall Q (snd kl)) hooks'.
Proof.
  intros Hall Hh. revert hooks'.
  induction Hall as [|[k l] rest Hl Hrest IH]; simpl; intros hooks' H; [discriminate|].
  destruct (String.eqb k name).
  - injection H as <-. constructor; [|exact Hrest].
    cbn [snd] in *. apply Forall_app. split; [exact Hl | constructor; auto].
  - apply bind_Ok in H as (rest' & Hr & H). injection H as <-.
    constructor; auto.
Qed.

(** The record a test call pushes. *)
Lemma test_pushed_ok start end_ callee arguments dotted pre scope async fs fe calls :
  _traverse callee = Some dotted ->
  isTestIdentifier dotted = true ->
  mapM scopeObj (scope_frames (pre ++ [CallExpression start end_ callee arguments]))
  = Ok scope ->
  let t := CaseObj.mk scope start end_ async fs fe calls
             (key_if (existsb (fun n => truthy_key (ScopeObj.skip n)) scope))
             (key_if (existsb (fun n => truthy_key (ScopeObj.only n)) scope))
             (key_if (existsb (fun n => truthy_key (ScopeObj.iosOnly n)) scope))
             (key_if (existsb (fun n => truthy_key (ScopeObj.androidOnly n)) scope)) in
  Forall frame_flags_ok (CaseObj.scope t) /\ test_flags_ok t /\ own_frame_last t.
Proof.
  intros Hd Ht Hs t.
  pose proof (mapM_scopeObj_flags _ _ Hs) as Hfl.
  destruct (existsb_frame_flags _ Hfl) as (E1 & E2 & E3 & E4).
  split; [exact Hfl|]. split.
  - unfold test_flags_ok, some_frame; cbn. rewrite E1, E2, E3, E4. repeat split.
  - rewrite (scope_frames_own _ _ _ _ _ _ Hd Ht) in Hs.
    apply mapM_snoc in Hs as (frames & own & -> & _ & Hown).
    apply scopeObj_flags in Hown as (_ & Hf & Hst & Hen). cbn [fst snd] in *.
    injection Hf as Hf.
    exists frames, own. cbn. rewrite <- Hf. auto.
Qed.

(** C5 (as stated, refuted): the hook of
    [describe.skip("G", () => { beforeEach(() => {}) })] has an enclosing
    scope frame that sets [skip], yet the hook record has no [skip] key. *)
Lemma hook_in_skipped_group_has_no_skip_key :
  exists out h,
    findTests (Some describe_skip_beforeEach) = Ok out
    /\ bucket (hooks out) "beforeEach" = [h]
    /\ existsb (fun f => truthy_key (ScopeObj.skip f)) (CaseObj.scope h) = true
    /\ CaseObj.skip h = None.
Proof.
  eexists _, _. split; [vm_compute; reflexivity|]. repeat split.
Qed.

(** C5 (amended): for every test case that [findTests] returns, each aggregate
    key (skip, only, iosOnly, androidOnly) is present with value [true] when
    some frame of the test's scope list has a name with the matching suffix,
    and is absent otherwise; the frames carry their keys by the same suffix
    rule, and the last frame of the list is the test call itself, so its own
    suffix counts.  Hook records carry none of the four keys.  In particular
    [it.skip("x", () => {})] gives [skip: true] and no [only] key, and the
    test inside [describe.only("G", ...)] gives [only: true] although the frame
    of the [it] call has no [only] key. *)
Theorem aggregate_flags_follow_scope :
  (forall ast out,
      findTests ast = Ok out ->
      (forall t, In t (tests out) ->
                 Forall frame_flags_ok (CaseObj.scope t)
                 /\ test_flags_ok t /\ own_frame_last t)
      /\ (forall name l h, In (name, l) (hooks out) -> In h l -> no_flags h))
  /\ (exists out t,
         findTests (Some it_skip_x) = Ok out
         /\ tests out = [t]
         /\ CaseObj.skip t = Some true /\ CaseObj.only t = None)
  /\ (exists out t group own,
         findTests (Some describe_only_G) = Ok out
         /\ tests out = [t]
         /\ CaseObj.scope t = [group; own]
         /\ ScopeObj.only own = None
         /\ CaseObj.only t = Some true).
Proof.
  split; [|split].
  - intros ast out H.
    enough (Hinv : Forall (fun t => Forall frame_flags_ok (CaseObj.scope t)
                                    /\ test_flags_ok t /\ own_frame_last t)
                          (tests out)
                   /\ Forall (fun kl => Forall no_flags (snd kl)) (hooks out)).
    { destruct Hinv as [Ht Hh]. split.
      - intros t Hin. rewrite Forall_forall in Ht. auto.
      - intros name l h Hin Hl. rewrite Forall_forall in Hh.
        specialize (Hh _ Hin). cbn [snd] in Hh. rewrite Forall_forall in Hh. auto. }
    revert ast out H. apply findTests_invariant_own.
    + split; [constructor|]. cbn. repeat constructor.
    + intros node pre out out' [Ht Hh] Hstep.
      destruct Hstep as [-> _ _
                        | s e callee args d f scope calls -> Hd Hti _ Hs _ ->
                        | s e callee d f scope calls hooks' _ _ _ _ _ _ _ _ Hp ->];
        cbn [tests hooks].
      * auto.
      * split; [|exact Hh]. apply Forall_app. split; [exact Ht|].
        constructor; [|constructor].
        eapply test_pushed_ok; eauto.
      * split; [exact Ht|].
        eapply hooks_push_Forall; [exact Hh| |exact Hp].
        repeat split.
  - eexists _, _. split; [vm_compute; reflexivity|]. repeat split.
  - eexists _, _, _, _. split; [vm_compute; reflexivity|]. repeat split.
Qed.

Lemma aggregate_flags_follow_scope_witness :
  exists out t,
    findTests (Some describe_only_G) = Ok out
    /\ In t (tests out)
    /\ test_flags_ok t
    /\ CaseObj.only t = Some true.
Proof.
  eexists _, _. split; [vm_compute; reflexivity|].
  split; [left; reflexivity|].
  split; [|reflexivity].
  eapply (proj1 aggregate_flags_follow_scope (Some describe_only_G));
    [vm_compute; reflexivity | left; reflexivity].
Defined.

(* ================================================================== *)
(** ** The call-chain resolver (C3) *)

Lemma _traverse_dotted_rule (callee : Node) :
  supported_shape callee = true ->
  exists name, dotted_rule callee = Some name /\ _traverse callee = Some name.
Proof.
  induction callee; try discriminate; cbn [supported_shape dotted_rule _traverse].
  - eauto.
  - eauto.
  - destruct callee2; try discriminate. destruct computed; [discriminate|].
    intros Hs. destruct (IHcallee1 Hs) as (r & -> & ->). cbn. eauto.
  - intros Hs. destruct (IHcallee Hs) as (r & -> & ->). cbn. eauto.
Qed.

Lemma _traverse_None_iff (callee : Node) :
  _traverse callee = None <-> is_identifier_or_this (chain_root callee) = false.
Proof.
  induction callee; cbn [_traverse chain_root is_identifier_or_this];
    try (split; [reflexivity | discriminate]);
    try (split; [discriminate | reflexivity]);
    try (split; reflexivity);
    try (split; discriminate).
  - rewrite <- IHcallee1. destruct (_traverse callee1); split; congruence.
  - rewrite <- IHcallee. destruct (_traverse callee); split; congruence.
Qed.

Lemma unresolved_call_skipped start end_ callee arguments ancestors calls :
  _traverse callee = None ->
  findFuncCalls_visitor (CallExpression start end_ callee arguments) ancestors calls
  = Ok calls.
Proof.
  intros H. unfold findFuncCalls_visitor, parseCallee; cbn [bind].
  rewrite H. reflexivity.
Qed.

(** C3 (as stated, refuted): the callee of [a[b]()] is a computed member
    access, unsupported by the rule, yet it resolves to "a.b" and the call is
    collected. *)
Lemma computed_member_access_is_resolved :
  dotted_rule (MemberExpression 0 4 (Identifier 0 1 "a") (Identifier 2 3 "b") true) = None
  /\ parseCallee computed_member_call = Ok (Some "a.b"%string)
  /\ exists c, findFuncCalls computed_member_call = Ok [c]
               /\ CallObj.name c = "a.b"%string.
Proof.
  split; [reflexivity|]. split; [reflexivity|].
  eexists. split; [vm_compute; reflexivity | reflexivity].
Qed.

(** C3 (amended): for a callee built only from identifiers, non-computed
    member accesses, nested calls and [this], [parseCallee] returns the name
    given by the dotted concatenation rule.  Resolution yields the unsupported
    sentinel ([null]) exactly when the chain starts from a node that is neither
    an identifier nor [this] (a new-expression, an array, object, string or
    template literal, ...), and the collector then records nothing for the
    call.  A computed member access is not rejected: with an identifier
    between the brackets, [a[b]] resolves like [a.b]. *)
Theorem parseCallee_follows_dotted_rule :
  forall start end_ callee arguments,
    parseCallee (CallExpression start end_ callee arguments) = Ok (_traverse callee)
    /\ (supported_shape callee = true ->
        exists name, dotted_rule callee = Some name /\ _traverse callee = Some name)
    /\ (_traverse callee = None <-> is_identifier_or_this (chain_root callee) = false)
    /\ (is_identifier_or_this (chain_root callee) = false ->
        forall ancestors calls,
          findFuncCalls_visitor (CallExpression start end_ callee arguments)
            ancestors calls = Ok calls)
    /\ (forall s e s' e' b computed,
           _traverse (MemberExpression s e callee (Identifier s' e' b) computed)
           = option_map (fun r => r +++ "." +++ b) (_traverse callee)).
Proof.
  intros start end_ callee arguments.
  split; [reflexivity|].
  split; [apply _traverse_dotted_rule|].
  split; [apply _traverse_None_iff|].
  split.
  - intros H ancestors calls. apply unresolved_call_skipped.
    apply _traverse_None_iff. exact H.
  - intros s e s' e' b computed. cbn [_traverse node_name str_of].
    destruct (_traverse callee); reflexivity.
Qed.

Lemma parseCallee_follows_dotted_rule_witness :
  (exists name,
      dotted_rule (resolved_callee chained_call) = Some name
      /\ _traverse (resolved_callee chained_call) = Some name
      /\ name = "someLib.init().helpers.doSomething().decode"%string)
  /\ findFuncCalls_visitor new_receiver_call [new_receiver_call] [] = Ok [].
Proof.
  split.
  - destruct (proj1 (proj2 (parseCallee_follows_dotted_rule 0 45
                              (resolved_callee chained_call) [])) eq_refl)
      as (name & Hd & Ht).
    exists name. split; [exact Hd|]. split; [exact Ht|].
    vm_compute in Hd. injection Hd as <-. reflexivity.
  - apply (proj1 (proj2 (proj2 (proj2 (parseCallee_follows_dotted_rule 0 15
             (resolved_callee new_receiver_call) []))))).
    reflexivity.
Defined.

(* ================================================================== *)
(** ** The literal evaluator (C4) *)

Ltac generalize_output v :=
  match goal with
  | |- ?f ?l [] = _ -> ?g ?l [] = _ =>
      let Hgen := fresh "Hgen" in
      enough (Hgen : forall output, f l output = Ok (Some v) ->
                                    g l output = Some v); [exact (Hgen [])|]
  end.

Lemma maybeGetLiteralValue_sound_aux (n : Node) :
  sound n /\ sound (property_value n).
Proof.
  induction n; cbn [property_value];
    try (split; intros v; cbn [maybeGetLiteralValue value_graph];
         intros Hv; (discriminate Hv || (injection Hv as <-; reflexivity)); fail);
    try (split; [intros v; discriminate | tauto]).
  - (* ArrayExpression *)
    enough (sound (ArrayExpression start end_ elements)) by tauto.
    intros v; cbn [maybeGetLiteralValue value_graph].
    generalize_output v.
    match goal with L : list_all _ _ _ |- _ => induction L as [|x Hx l Hl IH] end;
      intros output; [intros H; injection H as <-; reflexivity|].
    destruct Hx as [e [He _]|]; cbn [bind]; [|discriminate].
    destruct (maybeGetLiteralValue e) as [[w|]|err] eqn:Hw; cbn [bind];
      try discriminate.
    rewrite (He _ Hw).
    destruct (negb (truthy_value (Some w))); [discriminate|]. apply IH.
  - (* ObjectExpression *)
    enough (sound (ObjectExpression start end_ properties)) by tauto.
    intros v; cbn [maybeGetLiteralValue value_graph].
    generalize_output v.
    match goal with L : list_all _ _ _ |- _ => induction L as [|e [_ He] l Hl IH] end;
      intros output; [intros H; injection H as <-; reflexivity|].
    destruct (negb (truthy_propkey (getPropertyKey e))); [discriminate|].
    destruct e; try discriminate. cbn [property_value] in He.
    destruct (getPropertyKey _) as [k|]; [|discriminate].
    destruct (maybeGetLiteralValue e2) as [[w|]|err] eqn:Hw; cbn [bind];
      try discriminate.
    rewrite (He _ Hw).
    destruct (negb (truthy_value (Some w))); [discriminate|]. apply IH.
Qed.

Ltac generalize_output_complete v :=
  match goal with
  | |- ?g ?l [] = _ -> ?t ?l = true -> ?f ?l [] = _ =>
      let Hgen := fresh "Hgen" in
      enough (Hgen : forall output, g l output = Some v -> t l = true ->
                                    f l output = Ok (Some v)); [exact (Hgen [])|]
  end.

Lemma maybeGetLiteralValue_complete_aux (n : Node) :
  complete n /\ complete (property_value n).
Proof.
  induction n; cbn [property_value];
    try (split; intros v; cbn [maybeGetLiteralValue value_graph];
         intros Hv; (discriminate Hv || (injection Hv as <-; reflexivity)); fail);
    try (split; [intros v; discriminate | tauto]).
  - (* ArrayExpression *)
    enough (complete (ArrayExpression start end_ elements)) by tauto.
    intros v; cbn [maybeGetLiteralValue value_graph truthy_inside].
    generalize_output_complete v.
    match goal with L : list_all _ _ _ |- _ => induction L as [|x Hx l Hl IH] end;
      intros output; [intros H _; injection H as <-; reflexivity|].
    destruct Hx as [e [He _]|]; [|discriminate].
    destruct (value_graph e) as [w|] eqn:Hw; [|discriminate].
    intros Hv Ht. apply andb_true_iff in Ht as [Ht Hall].
    apply andb_true_iff in Ht as [Htv Hti].
    rewrite (He _ Hw Hti); cbn [bind]. rewrite Htv. cbn [negb]. auto.
  - (* ObjectExpression *)
    enough (complete (ObjectExpression start end_ properties)) by tauto.
    intros v; cbn [maybeGetLiteralValue value_graph truthy_inside].
    generalize_output_complete v.
    match goal with L : list_all _ _ _ |- _ => induction L as [|e [_ He] l Hl IH] end;
      intros output; [intros H _; injection H as <-; reflexivity|].
    destruct e; try discriminate. cbn [property_value] in He.
    destruct (getPropertyKey _) as [k|] eqn:Hk; [|discriminate].
    destruct (value_graph e2) as [w|] eqn:Hw; [|discriminate].
    intros Hv Ht. apply andb_true_iff in Ht as [Ht Hall].
    apply andb_true_iff in Ht as [Ht Hti].
    apply andb_true_iff in Ht as [Htk Htv].
    rewrite Htk, (He _ Hw Hti); cbn [bind negb]. rewrite Htv. cbn [negb]. auto.
Qed.

(** What the evaluator returns is the value graph of the whole expression. *)
Lemma maybeGetLiteralValue_sound (n : Node) (v : value) :
  maybeGetLiteralValue n = Ok (Some v) -> value_graph n = Some v.
Proof.
  apply (proj1 (maybeGetLiteralValue_sound_aux n)).
Qed.

(** An expression with a leaf that is not a literal evaluates to unknown. *)
Lemma maybeGetLiteralValue_unknown (n : Node) (v : value) :
  value_graph n = None -> maybeGetLiteralValue n <> Ok (Some v).
Proof.
  intros H Hv. apply maybeGetLiteralValue_sound in Hv. congruence.
Qed.

(** Without falsy literals and keys inside, the value graph is returned. *)
Lemma maybeGetLiteralValue_complete (n : Node) (v : value) :
  value_graph n = Some v -> truthy_inside n = true ->
  maybeGetLiteralValue n = Ok (Some v).
Proof.
  apply (proj1 (maybeGetLiteralValue_complete_aux n)).
Qed.

(** C4 (the code departs from the claim): the literal [0] evaluates to the
    value 0, but the truthiness test of the collector leaves index 0 out of
    [literalArguments] of [f(0)]; and inside an array or an object a falsy
    literal makes the whole evaluation unknown, although every leaf of
    [[0, 1]] and of [{a: false}] is a literal.  With truthy leaves the value
    graph is returned, as for [[1, {a: "x"}]]. *)
Theorem falsy_literals_are_not_evaluated :
  maybeGetLiteralValue (Literal 2 3 (LNumber 0)) = Ok (Some (VLiteral (LNumber 0)))
  /\ (exists c, findFuncCalls call_f_zero = Ok [c]
                /\ CallObj.literalArguments c = None)
  /\ value_graph array_zero_one
     = Some (VArray [VLiteral (LNumber 0); VLiteral (LNumber 1)])
  /\ maybeGetLiteralValue array_zero_one = Ok None
  /\ value_graph object_a_false
     = Some (VObject [("a"%string, VLiteral (LBoolean false))])
  /\ maybeGetLiteralValue object_a_false = Ok None
  /\ maybeGetLiteralValue array_one_object
     = Ok (Some (VArray [VLiteral (LNumber 1);
                         VObject [("a"%string, VLiteral (LString "x"))]])).
Proof.
  split; [reflexivity|].
  split; [eexists; split; [vm_compute; reflexivity | reflexivity]|].
  repeat split.
Qed.

(* ================================================================== *)
(** ** The api rule (C2) *)

(** The annotation branch itself works on a chain whose name starts with
    "api.": the flags are set from literal booleans, and a value that is not
    a literal boolean leaves its flag unset and is reported in [errors] at
    the offset of the value. *)
Lemma api_member_receiver_is_annotated :
  (exists c1 c2,
      findFuncCalls (api_region_submit_call (Literal 19 24 (LBoolean false)))
      = Ok [c1; c2]
      /\ CallObj.name c2 = "api.region().submit"%string
      /\ CallObj.apiSyncDisabled c2 = Some true
      /\ CallObj.apiWaitAfter c2 = Some true
      /\ CallObj.errors c2 = None)
  /\ (exists c1 c2 err,
         findFuncCalls (api_region_submit_call (Identifier 19 31 "someVariable"))
         = Ok [c1; c2]
         /\ CallObj.apiSyncDisabled c2 = None
         /\ CallObj.apiWaitAfter c2 = Some true
         /\ CallObj.errors c2 = Some [err]
         /\ DeferredErrorObj.loc err = 19).
Proof.
  split.
  - eexists _, _. split; [vm_compute; reflexivity|]. repeat split.
  - eexists _, _, _. split; [vm_compute; reflexivity|]. repeat split.
Qed.

(** C2 (as stated, refuted): for
    [api({ sync: false, waitAfter: true }).submit()] the one call site
    collected is not named "api.submit" and has neither [apiSyncDisabled] nor
    [apiWaitAfter]; with [sync: someVariable] it has no [errors] entry. *)
Lemma api_submit_is_not_annotated :
  (exists c,
      findFuncCalls (api_submit_call api_submit_offsets (Literal 12 17 (LBoolean false)))
      = Ok [c]
      /\ CallObj.name c <> "api.submit"%string
      /\ CallObj.apiSyncDisabled c = None
      /\ CallObj.apiWaitAfter c = None)
  /\ (exists c,
         findFuncCalls
           (api_submit_call api_submit_variable_offsets (Identifier 12 24 "someVariable"))
         = Ok [c]
         /\ CallObj.errors c = None).
Proof.
  split.
  - eexists. split; [vm_compute; reflexivity|]. repeat split. discriminate.
  - eexists. split; [vm_compute; reflexivity|]. reflexivity.
Qed.

(** C2 (amended): for [api({ sync: false, waitAfter: true }).submit()],
    wherever its nodes lie in the text, the collector records exactly one
    call site, named "api().submit" (the call used as receiver contributes
    the "()" marker, and the bare [api(...)] call is not recorded); with
    [sync: someVariable] instead it again records exactly one call site with
    that name. *)
Theorem api_submit_one_call_site :
  forall (p : nat -> Z) (s e : Z),
    (exists c,
        findFuncCalls (api_submit_call p (Literal s e (LBoolean false))) = Ok [c]
        /\ CallObj.name c = "api().submit"%string
        /\ CallObj.rootStart c = p 0%nat)
    /\ (exists c,
           findFuncCalls (api_submit_call p (Identifier s e "someVariable")) = Ok [c]
           /\ CallObj.name c = "api().submit"%string
           /\ CallObj.rootStart c = p 0%nat).
Proof.
  intros p s e. split; eexists; (split; [vm_compute; reflexivity|]); split; reflexivity.
Qed.

(* ================================================================== *)
(** ** Nested groups (C1) *)

(** C1 (as stated, refuted): the scope of the one test case has three frames,
    not two. *)
Lemma nested_describe_scope_has_three_frames :
  exists out t,
    findTests (Some (nested_describe nested_describe_offsets)) = Ok out
    /\ tests out = [t]
    /\ List.length (CaseObj.scope t) = 3%nat
    /\ List.length (CaseObj.scope t) <> 2%nat.
Proof.
  eexists _, _. split; [vm_compute; reflexivity|]. repeat split. discriminate.
Qed.

Lemma mapM_scopeObj_frames frames scope :
  mapM scopeObj frames = Ok scope ->
  map ScopeObj.func scope = map (fun o => str_of (snd o)) frames
  /\ map ScopeObj.start scope = map (fun o => node_start (fst o)) frames
  /\ map ScopeObj.end_ scope = map (fun o => node_end (fst o)) frames.
Proof.
  revert scope; induction frames as [|o l IH]; simpl; intros scope H.
  - injection H as <-. repeat split.
  - apply bind_Ok in H as (f & Hf & H).
    apply bind_Ok in H as (fs & Hfs & H). injection H as <-.
    apply scopeObj_flags in Hf as (_ & Hd & Hs & He).
    destruct (IH _ Hfs) as (I1 & I2 & I3).
    cbn [map]. rewrite I1, I2, I3, Hd, Hs, He. repeat split.
Qed.

(** C1 (amended): a test call pushes one test case whose scope frames are, in
    the order of the ancestor stack (outermost first, nothing is reversed),
    the enclosing calls that resolve to a test or describe identifier, the
    test call itself included as the last one.  So for
    [describe("A", () => { describe("B", () => { it("C", () => {}); }); })],
    wherever its nodes lie in the text, [findTests] yields exactly one test
    case and no hook, and the scope of that test case has exactly three
    frames: the two [describe] frames labeled "A" and "B", then the frame of
    the [it] call, labeled "C". *)
Theorem nested_describe_scope :
  (forall node ancestors out out',
      findTests_visitor node ancestors out = Ok out' ->
      is_test_call node = true ->
      exists t,
        tests out' = tests out ++ [t]
        /\ hooks out' = hooks out
        /\ CaseObj.start t = node_start node
        /\ map ScopeObj.func (CaseObj.scope t)
           = map (fun o => str_of (snd o)) (scope_frames ancestors)
        /\ map ScopeObj.start (CaseObj.scope t)
           = map (fun o => node_start (fst o)) (scope_frames ancestors)
        /\ map ScopeObj.end_ (CaseObj.scope t)
           = map (fun o => node_end (fst o)) (scope_frames ancestors))
  /\ (forall p : nat -> Z,
        exists out t,
          findTests (Some (nested_describe p)) = Ok out
          /\ tests out = [t]
          /\ (forall name, bucket (hooks out) name = [])
          /\ map ScopeObj.name (CaseObj.scope t)
             = [LString "A"; LString "B"; LString "C"]
          /\ map ScopeObj.func (CaseObj.scope t) = ["describe"; "describe"; "it"]%string
          /\ map ScopeObj.start (CaseObj.scope t) = [p 22%nat; p 10%nat; p 0%nat]
          /\ CaseObj.start t = p 0%nat).
Proof.
  split.
  - intros node ancestors out out' H Htest.
    apply findTests_visitor_outcome in H.
    destruct H as [_ Hn _
                  | s e callee args d f scope calls -> Hd Ht _ Hs _ ->
                  | s e callee d f scope calls hooks' -> Hd Ht _ _ _ _ _ _ _].
    + congruence.
    + eexists. cbn [tests hooks]. split; [reflexivity|]. split; [reflexivity|].
      split; [reflexivity|]. cbn [CaseObj.scope].
      apply mapM_scopeObj_frames. exact Hs.
    + unfold is_test_call in Htest. cbn [resolved_name] in Htest.
      rewrite Hd in Htest. congruence.
  - intros p. eexists _, _. split; [vm_compute; reflexivity|].
    split; [reflexivity|]. split; [|repeat split].
    intros name. cbn [hooks bucket].
    repeat match goal with |- context [if ?c then _ else _] => destruct c end;
      reflexivity.
Qed.

Lemma nested_describe_scope_witness :
  exists out' t,
    findTests_visitor (fst nested_it_visit) (snd nested_it_visit)
      (mkTestsOutput [] []) = Ok out'
    /\ tests out' = [t]
    /\ map ScopeObj.func (CaseObj.scope t) = ["describe"; "describe"; "it"]%string
    /\ map ScopeObj.start (CaseObj.scope t) = [0; 22; 44].
Proof.
  destruct (proj1 nested_describe_scope (fst nested_it_visit) (snd nested_it_visit)
              (mkTestsOutput [] [])
              (mkTestsOutput
                 [CaseObj.mk
                    [ScopeObj.mk (LString "A") "describe" 0 69 None None None None;
                     ScopeObj.mk (LString "B") "describe" 22 65 None None None None;
                     ScopeObj.mk (LString "C") "it" 44 61 None None None None]
                    44 61 (Some false) 52 60 [] None None None None] [])
              eq_refl eq_refl) as (t & Ht & _ & _ & Hf & Hs & _).
  exists (mkTestsOutput
            [CaseObj.mk
               [ScopeObj.mk (LString "A") "describe" 0 69 None None None None;
                ScopeObj.mk (LString "B") "describe" 22 65 None None None None;
                ScopeObj.mk (LString "C") "it" 44 61 None None None None]
               44 61 (Some false) 52 60 [] None None None None] []), t.
  split; [reflexivity|]. split; [exact Ht|]. split; [exact Hf | exact Hs].
Defined.

(* ================================================================== *)
(** ** Hooks over the whole walk (C6) *)

Lemma bucket_hooks_push hooks dotted h hooks' name :
  hooks_push hooks dotted h = Ok hooks' ->
  bucket hooks' name
  = bucket hooks name ++ (if String.eqb dotted name then [h] else []).
Proof.
  revert hooks'; induction hooks as [|[k l] rest IH]; cbn [hooks_push]; intros hooks' H;
    [discriminate|].
  destruct (String.eqb k dotted) eqn:E.
  - injection H as <-. apply String.eqb_eq in E. subst k. cbn [bucket].
    destruct (String.eqb dotted name); [reflexivity | rewrite app_nil_r; reflexivity].
  - apply bind_Ok in H as (rest' & Hr & H). injection H as <-. cbn [bucket].
    destruct (String.eqb k name) eqn:E'; [|apply IH; exact Hr].
    apply String.eqb_eq in E'. subst k. rewrite String.eqb_sym, E, app_nil_r. reflexivity.
Qed.

Lemma test_name_not_hook (d : string) :
  isTestIdentifier d = true -> SUPPORTED_HOOKS_has d = false.
Proof.
  intros Ht. destruct (SUPPORTED_HOOKS_has d) eqn:Hh; [|reflexivity].
  apply hook_name_not_test in Hh as [Hn _]. congruence.
Qed.

(** One step of [findTests] in terms of the visit. *)
Lemma findTests_visitor_reports (n : Node) ancestors out out' :
  findTests_visitor n ancestors out = Ok out' ->
  (exists added,
      tests out' = tests out ++ added
      /\ Forall2 test_of_visit (filter (fun v => is_test_call (fst v)) [(n, ancestors)])
                 added)
  /\ (forall name,
         exists added,
           bucket (hooks out') name = bucket (hooks out) name ++ added
           /\ Forall2 hook_record (filter (is_hook_visit name) [(n, ancestors)]) added).
Proof.
  intros H. apply findTests_visitor_outcome in H.
  destruct H as [-> Ht Hq
                | s e callee args d f scope calls -> Hd Ht Hf Hs Hc ->
                | s e callee d f scope calls hooks' -> Hd Ht Hh Hfl Hex Hs Hc Hp ->];
    unfold is_hook_visit; cbn [filter fst snd tests hooks].
  - rewrite Ht, Hq. cbn [andb]. split.
    + exists []. rewrite app_nil_r. split; [reflexivity | constructor].
    + intros name. exists []. rewrite app_nil_r. split; [reflexivity | constructor].
  - unfold is_test_call, qualifies_as_hook. cbn [resolved_name].
    rewrite Hd, Ht, (test_name_not_hook _ Ht). cbn [andb]. split.
    + eexists. split; [reflexivity|]. constructor; [|constructor].
      exists f. split; [exact Hf|].
      destruct (mapM_scopeObj_frames _ _ Hs) as (F1 & F2 & _).
      unfold case_of_visit; cbn. repeat split; assumption.
    + intros name. exists []. rewrite app_nil_r. split; [reflexivity | constructor].
  - unfold is_test_call, qualifies_as_hook. cbn [resolved_name].
    rewrite Hd, Ht, Hh, Hfl, Hex. cbn [andb negb option_string_eqb]. split.
    + exists []. rewrite app_nil_r. split; [reflexivity | constructor].
    + intros name. rewrite (bucket_hooks_push _ _ _ _ name Hp).
      eexists. split; [reflexivity|].
      destruct (String.eqb d name); [|constructor].
      constructor; [|constructor].
      split; [|split; [exact Hs | repeat split]].
      exists f. split; [reflexivity|].
      destruct (mapM_scopeObj_frames _ _ Hs) as (F1 & F2 & _).
      unfold case_of_visit; cbn. repeat split; assumption.
Qed.

Lemma forEach_walk_tests (l : list visit) :
  forall out out',
    forEach (fun (v : visit) s =>
               if isCallExpression (fst v)
               then findTests_visitor (fst v) (snd v) s else Ok s) l out
    = Ok out' ->
    (exists added,
        tests out' = tests out ++ added
        /\ Forall2 test_of_visit (filter (fun v => is_test_call (fst v)) l) added)
    /\ (forall name,
           exists added,
             bucket (hooks out') name = bucket (hooks out) name ++ added
             /\ Forall2 hook_record (filter (is_hook_visit name) l) added).
Proof.
  induction l as [|[n anc] l IH]; intros out out' H.
  - cbn [forEach] in H. injection H as <-. cbn [filter]. split.
    + exists []. rewrite app_nil_r. split; [reflexivity | constructor].
    + intros name. exists []. rewrite app_nil_r. split; [reflexivity | constructor].
  - cbn [forEach fst snd] in H. apply bind_Ok in H as (out1 & H1 & H2).
    destruct (IH _ _ H2) as [(ts & Hts & Ft) Hhooks].
    assert (Hstep :
              (exists added,
                  tests out1 = tests out ++ added
                  /\ Forall2 test_of_visit
                       (filter (fun v => is_test_call (fst v)) [(n, anc)]) added)
              /\ (forall name,
                     exists added,
                       bucket (hooks out1) name = bucket (hooks out) name ++ added
                       /\ Forall2 hook_record
                            (filter (is_hook_visit name) [(n, anc)]) added)).
    { destruct (isCallExpression n) eqn:Hc.
      - apply findTests_visitor_reports. exact H1.
      - injection H1 as <-.
        assert (Ht : is_test_call n = false) by (destruct n; try reflexivity; discriminate).
        assert (Hq : forall name, is_hook_visit name (n, anc) = false)
          by (intros name; destruct n; try reflexivity; discriminate).
        cbn [filter fst]. rewrite Ht. split.
        + exists []. rewrite app_nil_r. split; [reflexivity | constructor].
        + intros name. rewrite Hq. exists []. rewrite app_nil_r.
          split; [reflexivity | constructor]. }
    destruct Hstep as [(t1 & Ht1 & F1) Hh1].
    change ((n, anc) :: l) with ([(n, anc)] ++ l). rewrite !filter_app. split.
    + exists (t1 ++ ts). rewrite Hts, Ht1, app_assoc. split; [reflexivity|].
      apply Forall2_app; assumption.
    + intros name. destruct (Hhooks name) as (hs & Hhs & Fh).
      destruct (Hh1 name) as (h1 & Hh1' & Fh1).
      exists (h1 ++ hs). rewrite filter_app, Hhs, Hh1', app_assoc.
      split; [reflexivity|]. apply Forall2_app; assumption.
Qed.

Lemma bucket_initial (name : string) :
  bucket (map (fun hook => (hook, [])) SUPPORTED_HOOKS) name = [].
Proof.
  cbn [SUPPORTED_HOOKS map bucket].
  repeat match goal with |- context [if ?c then _ else _] => destruct c end;
    reflexivity.
Qed.

(** C6: a call is recorded as a hook exactly when it qualifies: its resolved
    name is one of beforeAll, beforeEach, afterAll, afterEach, it has exactly
    one argument, which is a function literal, and no enclosing scope frame is
    a test call.  When [findTests] returns, the bucket of each hook name
    holds, one for one and in the order of the walk, the records of the calls
    of the tree that qualify as that hook, and nothing else; each record is
    the one of its call, field by field; and the tests are the records of the
    test calls, so that no hook call is among them.  A call with a hook name
    that does not qualify is ignored with no record and no error.
    [beforeEach(() => {})] at top level lands in the beforeEach bucket with an
    empty scope; written inside [it("t", ...)] it is in no bucket (it remains
    an ordinary call site in the [calls] of that test). *)
Theorem hook_recorded_iff_qualifies :
  (forall ast out name,
      findTests (Some ast) = Ok out ->
      Forall2 hook_record
        (filter (is_hook_visit name) (visits [] ast)) (bucket (hooks out) name)
      /\ Forall2 test_of_visit
           (filter (fun v => is_test_call (fst v)) (visits [] ast)) (tests out))
  /\ (forall node ancestors out dotted,
         resolved_name node = Some dotted ->
         SUPPORTED_HOOKS_has dotted = true ->
         qualifies_as_hook node ancestors = false ->
         findTests_visitor node ancestors out = Ok out)
  /\ (exists out h,
         findTests (Some beforeEach_top_level) = Ok out
         /\ tests out = []
         /\ bucket (hooks out) "beforeEach" = [h]
         /\ CaseObj.scope h = []
         /\ bucket (hooks out) "beforeAll" = []
         /\ bucket (hooks out) "afterAll" = []
         /\ bucket (hooks out) "afterEach" = [])
  /\ (exists out t c,
         findTests (Some beforeEach_inside_it) = Ok out
         /\ (forall name, bucket (hooks out) name = [])
         /\ tests out = [t]
         /\ CaseObj.calls t = [c]
         /\ CallObj.name c = "beforeEach"%string).
Proof.
  split; [|split; [|split]].
  - intros ast out name H. unfold findTests, walk_ancestor in H.
    apply forEach_walk_tests in H as [(ts & Ht & Ft) Hh].
    destruct (Hh name) as (added & Hb & F).
    cbn [hooks] in Hb. rewrite bucket_initial in Hb. cbn [app] in Hb.
    cbn [tests app] in Ht. rewrite Hb, Ht. split; assumption.
  - intros node ancestors out dotted Hd Hh Hq.
    destruct node; try discriminate. cbn [resolved_name] in Hd.
    eapply hook_call_ignored; eauto.
  - eexists _, _. split; [vm_compute; reflexivity|]. repeat split.
  - eexists _, _, _. split; [vm_compute; reflexivity|].
    split; [|repeat split].
    intros name. cbn [hooks bucket].
    repeat match goal with |- context [if ?c then _ else _] => destruct c end;
      reflexivity.
Qed.

Lemma hook_recorded_iff_qualifies_witness :
  exists out h,
    findTests (Some describe_skip_beforeEach) = Ok out
    /\ bucket (hooks out) "beforeEach" = [h]
    /\ CaseObj.start h = 27
    /\ List.length (CaseObj.scope h) = 1%nat
    /\ Forall2 hook_record
         (filter (is_hook_visit "beforeEach") (visits [] describe_skip_beforeEach))
         (bucket (hooks out) "beforeEach").
Proof.
  pose proof (proj1 hook_recorded_iff_qualifies describe_skip_beforeEach) as H.
  destruct (findTests (Some describe_skip_beforeEach)) as [out|e] eqn:E;
    [|vm_compute in E; discriminate].
  specialize (H out "beforeEach"%string eq_refl).
  vm_compute in E. injection E as <-.
  eexists _, _. split; [reflexivity|]. split; [reflexivity|].
  split; [reflexivity|]. split; [reflexivity|]. exact (proj1 H).
Defined.

(* ================================================================== *)
(** * Further properties *)

(** ** utils.js: [interleaveArray] *)

Lemma interleaveArray_nil_r {A} (a : list A) : interleaveArray a [] = a.
Proof.
  destruct a; reflexivity.
Qed.

Lemma skipn_nth_error {A} (l : list A) (i : nat) :
  skipn i l = match nth_error l i with
              | Some x => x :: skipn (S i) l
              | None => []
              end.
Proof.
  revert i; induction l as [|x l IH]; intros [|i]; try reflexivity.
  cbn [skipn nth_error]. rewrite IH. destruct (nth_error l i); reflexivity.
Qed.

Lemma interleave_from_skipn {A} (a b : list A) (n i : nat) :
  n = (Nat.max (List.length a) (List.length b) - i)%nat ->
  interleave_from a b i n = interleaveArray (skipn i a) (skipn i b).
Proof.
  revert i; induction n as [|n IH]; intros i Hn.
  - rewrite (skipn_all2 a), (skipn_all2 b) by lia. reflexivity.
  - cbn [interleave_from]. rewrite (IH (S i)) by lia.
    rewrite (skipn_nth_error a i), (skipn_nth_error b i).
    destruct (nth_error a i) as [x|] eqn:Ha, (nth_error b i) as [y|] eqn:Hb; cbn [app].
    + reflexivity.
    + apply nth_error_None in Hb.
      rewrite (skipn_all2 b) by lia. rewrite interleaveArray_nil_r. reflexivity.
    + apply nth_error_None in Ha.
      rewrite (skipn_all2 a) by lia. destruct (skipn (S i) b); reflexivity.
    + apply nth_error_None in Ha. apply nth_error_None in Hb. lia.
Qed.

Lemma interleaveArray_loop_eq {A} (a b : list A) :
  interleaveArray_loop a b = interleaveArray a b.
Proof.
  unfold interleaveArray_loop. rewrite interleave_from_skipn by lia. reflexivity.
Qed.

Lemma interleaveArray_length {A} (a b : list A) :
  List.length (interleaveArray a b) = (List.length a + List.length b)%nat.
Proof.
  revert b; induction a as [|x a IH]; intros [|y b]; cbn [interleaveArray List.length];
    try lia.
  rewrite IH. lia.
Qed.

(** X1: the index loop of [interleaveArray] alternates the two arrays from
    their heads, lets the surplus of the longer one follow in order, and drops
    or repeats nothing: the result has [a.length + b.length] elements. *)
Theorem interleaveArray_loop_alternates :
  forall (A : Type) (a b : list A) (x y : A),
    interleaveArray_loop (x :: a) (y :: b) = x :: y :: interleaveArray_loop a b
    /\ interleaveArray_loop [] b = b
    /\ interleaveArray_loop a [] = a
    /\ List.length (interleaveArray_loop a b) = (List.length a + List.length b)%nat.
Proof.
  intros A a b x y. rewrite !interleaveArray_loop_eq.
  split; [reflexivity|]. split; [reflexivity|].
  split; [apply interleaveArray_nil_r | apply interleaveArray_length].
Qed.

(* ================================================================== *)
(** ** utils.js: offsets, lines and columns *)

Lemma length_append (s1 s2 : string) :
  String.length (s1 +++ s2) = (String.length s1 + String.length s2)%nat.
Proof.
  induction s1 as [|c s1 IH]; cbn; [reflexivity | rewrite IH; reflexivity].
Qed.

Lemma append_assoc (s1 s2 s3 : string) : (s1 +++ s2) +++ s3 = s1 +++ s2 +++ s3.
Proof.
  induction s1 as [|c s1 IH]; cbn; [reflexivity | rewrite IH; reflexivity].
Qed.

(** The lines of a file, each with its linefeed, make up the content followed
    by one more linefeed. *)
Lemma split_linefeed_join (content : string) :
  join (map with_linefeed (split_linefeed content)) = with_linefeed content.
Proof.
  induction content as [|c rest IH]; cbn [split_linefeed]; [reflexivity|].
  destruct (Ascii.eqb c linefeed) eqn:Hc.
  - apply Ascii.eqb_eq in Hc. subst c.
    change (join (map with_linefeed (EmptyString :: split_linefeed rest)))
      with (String linefeed (join (map with_linefeed (split_linefeed rest)))).
    rewrite IH. reflexivity.
  - destruct (split_linefeed rest) as [|line lines].
    + destruct rest; discriminate.
    + change (join (map with_linefeed (String c line :: lines)))
        with (String c (join (map with_linefeed (line :: lines)))).
      rewrite IH. reflexivity.
Qed.

Lemma lineLengths_chunks (lines : list string) :
  map (fun line => Z.of_nat (String.length line) + 1) lines
  = map (fun chunk => Z.of_nat (String.length chunk)) (map with_linefeed lines).
Proof.
  rewrite map_map. apply map_ext. intros line.
  unfold with_linefeed. rewrite length_append. cbn. lia.
Qed.

(** The loop over the lengths of the chunks of a text finds the chunk that
    holds a position of the text, and the position inside it. *)
Lemma lineno_loop_chunks (chunks : list string) :
  forall (o : nat) (i runningSum : Z),
    (o < String.length (join chunks))%nat ->
    exists k chunk c,
      lineno_loop (map (fun chunk => Z.of_nat (String.length chunk)) chunks)
        i runningSum (runningSum + Z.of_nat o)
      = Some (LineCol.mk (i + Z.of_nat k + 1) (Z.of_nat c + 1))
      /\ nth_error chunks k = Some chunk
      /\ (c < String.length chunk)%nat
      /\ String.get c chunk = String.get o (join chunks)
      /\ Z.of_nat o
         = sumZ (map (fun chunk => Z.of_nat (String.length chunk)) (firstn k chunks))
           + Z.of_nat c.
Proof.
  induction chunks as [|chunk chunks IH]; intros o i runningSum Ho;
    cbn [join fold_right] in Ho; [cbn in Ho; lia|].
  fold (join chunks) in Ho. rewrite length_append in Ho.
  cbn [map lineno_loop join fold_right]. fold (join chunks).
  destruct (runningSum + Z.of_nat o <? runningSum + Z.of_nat (String.length chunk))
    eqn:Hlt.
  - apply Z.ltb_lt in Hlt.
    exists 0%nat, chunk, o. cbn [nth_error firstn map sumZ fold_right].
    split; [f_equal; f_equal; lia|]. split; [reflexivity|].
    split; [lia|]. split; [apply append_correct1; lia | lia].
  - apply Z.ltb_ge in Hlt.
    destruct (IH (o - String.length chunk)%nat (i + 1)
                 (runningSum + Z.of_nat (String.length chunk)))
      as (k & ch & c & Hloop & Hnth & Hc & Hget & Hsum); [lia|].
    exists (S k), ch, c. cbn [nth_error firstn map sumZ fold_right].
    replace (runningSum + Z.of_nat (String.length chunk)
             + Z.of_nat (o - String.length chunk)) with (runningSum + Z.of_nat o)
      in Hloop by lia.
    rewrite Hloop. split; [f_equal; f_equal; lia|]. split; [exact Hnth|].
    split; [exact Hc|]. split.
    + rewrite Hget.
      rewrite (append_correct2 chunk (join chunks) (o - String.length chunk)).
      f_equal. lia.
    + fold (sumZ (map (fun chunk0 => Z.of_nat (String.length chunk0)) (firstn k chunks))).
      lia.
Qed.

Lemma getCachedFileLineInfo_coherent fs cache filename :
  cache_coherent fs cache ->
  fst (getCachedFileLineInfo fs cache filename) = getFileLineInfo fs filename
  /\ snd (getCachedFileLineInfo fs cache filename)
     = Some (filename, getFileLineInfo fs filename).
Proof.
  unfold getCachedFileLineInfo, cache_coherent.
  destruct cache as [[cached info]|]; [|split; reflexivity].
  intros ->. destruct (String.eqb filename cached) eqn:E; [|split; reflexivity].
  apply String.eqb_eq in E. subst. split; reflexivity.
Qed.

Lemma sumZ_lengths_join (chunks : list string) :
  sumZ (map (fun chunk => Z.of_nat (String.length chunk)) chunks)
  = Z.of_nat (String.length (join chunks)).
Proof.
  induction chunks as [|chunk chunks IH]; [reflexivity|].
  cbn [map sumZ join fold_right]. fold (join chunks).
  fold (sumZ (map (fun chunk0 => Z.of_nat (String.length chunk0)) chunks)).
  rewrite IH, length_append. lia.
Qed.

Lemma length_with_linefeed (s : string) :
  String.length (with_linefeed s) = S (String.length s).
Proof.
  unfold with_linefeed. rewrite length_append. cbn. lia.
Qed.

Lemma lineLengths_sum_positive (fs : string -> string) (filename : string) :
  let info := getFileLineInfo fs filename in
  sumZ (FileLineInfo.lineLengths info) = FileLineInfo.size info + 1
  /\ FileLineInfo.lineLengths info <> []
  /\ Forall (fun n => 1 <= n) (FileLineInfo.lineLengths info)
  /\ 0 <= FileLineInfo.size info.
Proof.
  cbn [getFileLineInfo FileLineInfo.lineLengths FileLineInfo.size].
  split; [|split; [|split]].
  - rewrite lineLengths_chunks, sumZ_lengths_join, split_linefeed_join,
      length_with_linefeed. lia.
  - intros H. apply map_eq_nil in H.
    pose proof (split_linefeed_join (fs filename)) as Hj. rewrite H in Hj.
    apply (f_equal String.length) in Hj. rewrite length_with_linefeed in Hj.
    discriminate.
  - apply Forall_forall. intros n Hn. apply in_map_iff in Hn as (line & <- & _). lia.
  - lia.
Qed.

(** X2: the line lengths computed for a file add up to its size plus one
    (every line is counted with a linefeed, also the last one, which has
    none), there is at least one line, and every length is at least 1. *)
Theorem getFileLineInfo_lengths :
  forall (fs : string -> string) (filename : string),
    let info := getFileLineInfo fs filename in
    sumZ (FileLineInfo.lineLengths info) = FileLineInfo.size info + 1
    /\ FileLineInfo.lineLengths info <> []
    /\ Forall (fun n => 1 <= n) (FileLineInfo.lineLengths info)
    /\ 0 <= FileLineInfo.size info.
Proof.
  intros fs filename. apply lineLengths_sum_positive.
Qed.

(** X3: with a cache that agrees with the file system, an offset from 0 to
    the size of the file is always located: [mapCharOffsetToLineno] returns a
    line and a column, both counted from 1, such that the line exists, the
    column lies on it (or on the linefeed position after it), the character
    there is the character at the offset, and the lengths of the lines before
    it plus the column give the offset back. *)
Theorem mapCharOffsetToLineno_locates :
  forall (fs : string -> string) cache filename offset,
    cache_coherent fs cache ->
    0 <= offset <= Z.of_nat (String.length (fs filename)) ->
    exists line col text,
      fst (mapCharOffsetToLineno fs cache filename offset)
      = Ok (Some (LineCol.mk line col))
      /\ 1 <= line
      /\ nth_error (split_linefeed (fs filename)) (Z.to_nat (line - 1)) = Some text
      /\ 1 <= col <= Z.of_nat (String.length text) + 1
      /\ String.get (Z.to_nat (col - 1)) (with_linefeed text)
         = String.get (Z.to_nat offset) (with_linefeed (fs filename))
      /\ offset
         = sumZ (firstn (Z.to_nat (line - 1))
                   (FileLineInfo.lineLengths (getFileLineInfo fs filename)))
           + col - 1.
Proof.
  intros fs cache filename offset Hcache Hoff.
  unfold mapCharOffsetToLineno.
  destruct (getCachedFileLineInfo_coherent fs cache filename Hcache) as [Hinfo _].
  destruct (getCachedFileLineInfo fs cache filename) as [info cache'].
  cbn [fst] in Hinfo. subst info.
  cbn [getFileLineInfo FileLineInfo.size FileLineInfo.lineLengths].
  destruct (offset <=? Z.of_nat (String.length (fs filename))) eqn:Hle;
    [|apply Z.leb_gt in Hle; lia].
  cbn [fst]. rewrite lineLengths_chunks.
  destruct (lineno_loop_chunks (map with_linefeed (split_linefeed (fs filename)))
              (Z.to_nat offset) 0 0)
    as (k & chunk & c & Hloop & Hnth & Hc & Hget & Hsum).
  { rewrite split_linefeed_join, length_with_linefeed. lia. }
  rewrite nth_error_map in Hnth.
  destruct (nth_error (split_linefeed (fs filename)) k) as [text|] eqn:Htext;
    [|discriminate].
  injection Hnth as <-. rewrite length_with_linefeed in Hc.
  rewrite split_linefeed_join in Hget.
  replace (0 + Z.of_nat (Z.to_nat offset)) with offset in Hloop by lia.
  exists (0 + Z.of_nat k + 1), (Z.of_nat c + 1), text.
  rewrite Hloop.
  replace (Z.to_nat (0 + Z.of_nat k + 1 - 1)) with k by lia.
  replace (Z.to_nat (Z.of_nat c + 1 - 1)) with c by lia.
  split; [reflexivity|]. split; [lia|]. split; [exact Htext|].
  split; [lia|]. split; [exact Hget|].
  rewrite firstn_map. lia.
Qed.

Lemma mapCharOffsetToLineno_locates_witness :
  fst (mapCharOffsetToLineno two_line_fs None "a.spec.js" 4)
  = Ok (Some (LineCol.mk 2 2))
  /\ exists line col text,
      fst (mapCharOffsetToLineno two_line_fs None "a.spec.js" 4)
      = Ok (Some (LineCol.mk line col))
      /\ nth_error (split_linefeed (two_line_fs "a.spec.js")) (Z.to_nat (line - 1))
         = Some text.
Proof.
  split; [reflexivity|].
  destruct (mapCharOffsetToLineno_locates two_line_fs None "a.spec.js" 4)
    as (line & col & text & H & _ & Ht & _).
  - exact I.
  - cbn. lia.
  - exists line, col, text. split; [exact H | exact Ht].
Defined.

(** X4: outside the file, [mapCharOffsetToLineno] rejects only offsets above
    the size, with the assertion error; a negative offset passes the check
    and is answered with line 1 and the column [offset + 1], which is below
    1. *)
Theorem mapCharOffsetToLineno_out_of_range :
  forall (fs : string -> string) cache filename offset,
    cache_coherent fs cache ->
    (Z.of_nat (String.length (fs filename)) < offset ->
     fst (mapCharOffsetToLineno fs cache filename offset)
     = Throw (AssertionError "offset exceeds file size"))
    /\ (offset < 0 ->
        fst (mapCharOffsetToLineno fs cache filename offset)
        = Ok (Some (LineCol.mk 1 (offset + 1)))).
Proof.
  intros fs cache filename offset Hcache.
  unfold mapCharOffsetToLineno.
  destruct (getCachedFileLineInfo_coherent fs cache filename Hcache) as [Hinfo _].
  destruct (getCachedFileLineInfo fs cache filename) as [info cache'].
  cbn [fst] in Hinfo. subst info.
  destruct (lineLengths_sum_positive fs filename) as (_ & Hne & Hpos & _).
  cbn [getFileLineInfo FileLineInfo.size FileLineInfo.lineLengths] in *.
  split; intros H.
  - destruct (offset <=? Z.of_nat (String.length (fs filename))) eqn:Hle;
      [apply Z.leb_le in Hle; lia | reflexivity].
  - destruct (offset <=? Z.of_nat (String.length (fs filename))) eqn:Hle;
      [|apply Z.leb_gt in Hle; lia].
    cbn [fst].
    destruct (map _ (split_linefeed (fs filename))) as [|n rest]; [contradiction|].
    inversion Hpos as [|? ? Hn _]; subst.
    cbn [lineno_loop].
    destruct (offset <? 0 + n) eqn:Hlt; [|apply Z.ltb_ge in Hlt; lia].
    do 3 f_equal; lia.
Qed.

Lemma mapCharOffsetToLineno_out_of_range_witness :
  fst (mapCharOffsetToLineno two_line_fs None "a.spec.js" 6)
  = Throw (AssertionError "offset exceeds file size")
  /\ fst (mapCharOffsetToLineno two_line_fs None "a.spec.js" (-3))
     = Ok (Some (LineCol.mk 1 (-2))).
Proof.
  split.
  - apply (proj1 (mapCharOffsetToLineno_out_of_range two_line_fs None "a.spec.js" 6 I)).
    cbn. lia.
  - apply (proj2 (mapCharOffsetToLineno_out_of_range two_line_fs None "a.spec.js" (-3) I)).
    lia.
Defined.

(** X5: the line-info cache is keyed by the file name alone and holds one
    entry.  While it agrees with the file system it is transparent: a lookup
    returns the info of the file as read now and leaves a cache that agrees.
    But a second lookup of the same name returns the first answer even if the
    file has changed in between, and a lookup of another name evicts the
    entry, so that the next lookup reads the file again. *)
Theorem getCachedFileLineInfo_one_entry :
  forall (fs fs' : string -> string) cache filename other,
    (cache_coherent fs cache ->
     fst (getCachedFileLineInfo fs cache filename) = getFileLineInfo fs filename
     /\ cache_coherent fs (snd (getCachedFileLineInfo fs cache filename)))
    /\ fst (getCachedFileLineInfo fs'
              (snd (getCachedFileLineInfo fs None filename)) filename)
       = getFileLineInfo fs filename
    /\ (other <> filename ->
        fst (getCachedFileLineInfo fs'
               (snd (getCachedFileLineInfo fs
                       (snd (getCachedFileLineInfo fs None filename)) other))
               filename)
        = getFileLineInfo fs' filename).
Proof.
  intros fs fs' cache filename other. split; [|split].
  - intros Hc. destruct (getCachedFileLineInfo_coherent fs cache filename Hc) as [H1 H2].
    split; [exact H1|]. rewrite H2. reflexivity.
  - cbn [getCachedFileLineInfo snd]. rewrite String.eqb_refl. reflexivity.
  - intros Hne. unfold getCachedFileLineInfo at 3. cbn [snd].
    unfold getCachedFileLineInfo at 2.
    destruct (String.eqb other filename) eqn:E;
      [apply String.eqb_eq in E; contradiction|].
    cbn [snd getCachedFileLineInfo]. rewrite String.eqb_sym, E. reflexivity.
Qed.

Lemma getCachedFileLineInfo_one_entry_witness :
  fst (getCachedFileLineInfo rewritten_fs
         (snd (getCachedFileLineInfo two_line_fs None "a.js")) "a.js")
  = FileLineInfo.mk 5 [3; 3]
  /\ fst (getCachedFileLineInfo rewritten_fs
            (snd (getCachedFileLineInfo two_line_fs
                    (snd (getCachedFileLineInfo two_line_fs None "a.js")) "b.js"))
            "a.js")
     = FileLineInfo.mk 1 [2].
Proof.
  split.
  - rewrite (proj1 (proj2 (getCachedFileLineInfo_one_entry two_line_fs rewritten_fs
                             None "a.js" "b.js"))).
    reflexivity.
  - rewrite (proj2 (proj2 (getCachedFileLineInfo_one_entry two_line_fs rewritten_fs
                             None "a.js" "b.js"))).
    + reflexivity.
    + discriminate.
Defined.

(* ================================================================== *)
(** ** [findFuncCalls]: what is collected *)

Lemma parent_at (ancestors : list Node) :
  (if Nat.ltb 1 (List.length ancestors)
   then nth_error ancestors (List.length ancestors - 2)
   else None)
  = match rev ancestors with
    | _ :: parent :: _ => Some parent
    | _ => None
    end.
Proof.
  destruct (rev ancestors) as [|x [|parent r]] eqn:E;
    apply (f_equal (@rev Node)) in E; rewrite rev_involutive in E; subst ancestors;
    try reflexivity.
  cbn [rev]. rewrite <- app_assoc. cbn [app].
  rewrite length_app, length_rev. cbn [List.length].
  replace (Nat.ltb 1 (List.length r + 2)) with true
    by (symmetry; apply Nat.ltb_lt; lia).
  replace (List.length r + 2 - 2)%nat with (List.length (rev r))
    by (rewrite length_rev; lia).
  rewrite nth_error_app2 by lia. rewrite Nat.sub_diag. reflexivity.
Qed.

(** What one step of [findFuncCalls] does when it returns. *)
Lemma findFuncCalls_visitor_outcome (n : Node) ancestors calls calls' :
  isCallExpression n = true ->
  findFuncCalls_visitor n ancestors calls = Ok calls' ->
  (recordable n = false /\ calls' = calls)
  \/ (recordable n = true
      /\ exists c, calls' = calls ++ [c]
                   /\ record_of_visit (n, ancestors) c
                   /\ call_record_ok c).
Proof.
  destruct n; try discriminate. intros _.
  unfold findFuncCalls_visitor, parseCallee, recordable;
    cbn [bind isCallExpression andb resolved_name].
  rewrite parent_at.
  destruct (_traverse n) as [d|] eqn:Hd; cbn [truthy_name negb];
    [|intros H; injection H as <-; left; auto].
  destruct (String.eqb d "") eqn:He; cbn [negb andb];
    [intros H; injection H as <-; left; auto|].
  intros H. apply bind_Ok in H as (literalArguments & Hl & H).
  destruct (String.eqb d "api") eqn:Ha; cbn [negb];
    [injection H as <-; left; auto|].
  apply bind_Ok in H as ([[errors sync] wait] & Hapi & H).
  injection H as <-. right. split; [reflexivity|].
  eexists. split; [reflexivity|]. split.
  - unfold record_of_visit, awaited.
    cbn [fst snd CallObj.name CallObj.start CallObj.rootStart CallObj.end_
         CallObj.arguments CallObj.await CallObj.literalArguments
         resolved_name node_start node_end call_arguments call_start].
    split; [exact Hd|]. split; [destruct n; reflexivity|].
    split; [reflexivity|]. split; [reflexivity|]. split; [reflexivity|].
    split; [destruct (rev ancestors) as [|x [|parent r]]; reflexivity|].
    exists literalArguments. split; [exact Hl|].
    destruct literalArguments; reflexivity.
  - apply String.eqb_neq in He. apply String.eqb_neq in Ha.
    unfold call_record_ok, api_flag_ok.
    cbn [CallObj.name CallObj.apiSyncDisabled CallObj.apiWaitAfter CallObj.errors
         CallObj.literalArguments].
    destruct (startsWith d "api.") eqn:Hs.
    + split; [exact He|]. split; [exact Ha|].
      split; [destruct sync; auto|]. split; [destruct wait; auto|].
      split; [destruct errors; cbn; [left; auto | right; split; [discriminate|auto]]|].
      destruct literalArguments; cbn; discriminate.
    + injection Hapi as <- <- <-.
      split; [exact He|]. split; [exact Ha|]. split; [auto|]. split; [auto|].
      split; [left; reflexivity|].
      destruct literalArguments; cbn; discriminate.
Qed.

Lemma forEach_walk_calls (l : list visit) :
  forall calls calls',
    forEach (fun (v : visit) s =>
               if isCallExpression (fst v)
               then findFuncCalls_visitor (fst v) (snd v) s else Ok s) l calls
    = Ok calls' ->
    exists added,
      calls' = calls ++ added
      /\ Forall2 record_of_visit (filter (fun v => recordable (fst v)) l) added
      /\ Forall call_record_ok added.
Proof.
  induction l as [|[n anc] l IH]; cbn [forEach filter map fst snd]; intros calls calls' H.
  - injection H as <-. exists []. rewrite app_nil_r. auto.
  - apply bind_Ok in H as (calls1 & H1 & H2).
    destruct (IH _ _ H2) as (added & -> & Hsum & Hok).
    destruct (isCallExpression n) eqn:Hc.
    + destruct (findFuncCalls_visitor_outcome _ _ _ _ Hc H1)
        as [[Hr Heq]|(Hr & c & Heq & Hs & Hcok)]; subst calls1; rewrite Hr.
      * exists added. auto.
      * exists (c :: added). rewrite <- app_assoc. cbn [map app fst]. auto.
    + injection H1 as <-.
      assert (Hr : recordable n = false) by (unfold recordable; rewrite Hc; reflexivity).
      rewrite Hr. exists added. auto.
Qed.

(** X6: when [findFuncCalls] returns, its records are, one for one and in the
    order of the walk (arguments and receivers before the call that holds
    them), the call expressions of the subtree that resolve to a name other
    than the empty string and ["api"].  Each record has the resolved name,
    [start] at the property of the member access that is called (at the call
    itself for any other callee), [rootStart] and [end] spanning the call, one
    descriptor (type, start, end) per argument, in order, [await] set exactly
    when the parent of the call is an await expression, and the truthy
    literal values of the arguments under [literalArguments].  Calls inside
    nested function literals and callbacks are among them. *)
Theorem findFuncCalls_collects_resolvable_calls :
  forall (ast : Node) (calls : list CallObj.t),
    findFuncCalls ast = Ok calls ->
    Forall2 record_of_visit
      (filter (fun v => recordable (fst v)) (visits [] ast)) calls.
Proof.
  intros ast calls H. unfold findFuncCalls, walk_ancestor in H.
  apply forEach_walk_calls in H as (added & -> & Hsum & _). exact Hsum.
Qed.

(** X7: every record of [findFuncCalls] has a name that is neither empty nor
    ["api"]; [apiSyncDisabled] and [apiWaitAfter] are absent or [true], never
    [false], and like [errors] they are present only on names that start with
    ["api."]; [errors] and [literalArguments] are never present and empty. *)
Theorem findFuncCalls_records_well_formed :
  forall (ast : Node) (calls : list CallObj.t) (c : CallObj.t),
    findFuncCalls ast = Ok calls ->
    In c calls ->
    call_record_ok c.
Proof.
  intros ast calls c H Hin. unfold findFuncCalls, walk_ancestor in H.
  apply forEach_walk_calls in H as (added & -> & _ & Hok).
  rewrite Forall_forall in Hok. auto.
Qed.

Lemma findFuncCalls_collects_resolvable_calls_witness :
  exists inner outer,
    findFuncCalls call_in_callback = Ok [inner; outer]
    /\ CallObj.name inner = "inner"%string
    /\ CallObj.name outer = "outer"%string
    /\ Forall2 record_of_visit
         (filter (fun v => recordable (fst v)) (visits [] call_in_callback))
         [inner; outer]
    /\ exists c,
         findFuncCalls awaited_member_call = Ok [c]
         /\ CallObj.start c = 8 /\ CallObj.rootStart c = 6
         /\ CallObj.await c = true
         /\ Forall2 record_of_visit
              (filter (fun v => recordable (fst v)) (visits [] awaited_member_call))
              [c].
Proof.
  eexists _, _. split; [vm_compute; reflexivity|].
  split; [reflexivity|]. split; [reflexivity|].
  split; [exact (findFuncCalls_collects_resolvable_calls call_in_callback _ eq_refl)|].
  eexists. split; [vm_compute; reflexivity|].
  split; [reflexivity|]. split; [reflexivity|]. split; [reflexivity|].
  exact (findFuncCalls_collects_resolvable_calls awaited_member_call _ eq_refl).
Defined.

Lemma findFuncCalls_records_well_formed_witness :
  exists c1 c2,
    findFuncCalls call_in_callback = Ok [c1; c2]
    /\ call_record_ok c1 /\ call_record_ok c2.
Proof.
  eexists _, _. split; [vm_compute; reflexivity|].
  split.
  - eapply (findFuncCalls_records_well_formed call_in_callback);
      [vm_compute; reflexivity | left; reflexivity].
  - eapply (findFuncCalls_records_well_formed call_in_callback);
      [vm_compute; reflexivity | right; left; reflexivity].
Defined.

(* ================================================================== *)
(** ** [findFuncCalls]: the api rule *)

Lemma getPropertyKey_Property (p : Node) (key : string) :
  literal_eqb_string (getPropertyKey p) key = true ->
  exists s e k v c, p = Property s e k v c.
Proof.
  destruct p; try discriminate. eauto 6.
Qed.

Lemma assertProperty_Property s e k v c errors :
  assertPropertyNodeIsLiteralBooleanAndExtract (Property s e k v c) errors
  = Ok (match property_literal_boolean (Property s e k v c) with
        | Some b => (errors, Some b)
        | None => (errors ++ [flag_error (Property s e k v c)], None)
        end).
Proof.
  cbn. destruct v; try reflexivity.
  match goal with l : literal |- _ => destruct l end; reflexivity.
Qed.

Lemma sync_not_waitAfter (p : Node) :
  literal_eqb_string (getPropertyKey p) "sync" = true ->
  literal_eqb_string (getPropertyKey p) "waitAfter" = false.
Proof.
  unfold literal_eqb_string. destruct (getPropertyKey p) as [[k| | | |]|]; try discriminate.
  intros H. apply String.eqb_eq in H. subst. reflexivity.
Qed.

(** One property: the flags only go up, and an error is appended for a flag
    whose value is not a literal boolean. *)
Lemma api_argProp_step (p : Node) errors sync wait :
  api_argProp p (errors, sync, wait)
  = Ok (errors ++ (if bad_flag p then [flag_error p] else []),
        sync || sets_flag "sync" false p,
        wait || sets_flag "waitAfter" true p).
Proof.
  unfold api_argProp, sets_flag, bad_flag.
  destruct (literal_eqb_string (getPropertyKey p) "sync") eqn:Hs.
  - rewrite (sync_not_waitAfter p Hs).
    destruct (getPropertyKey_Property p _ Hs) as (s & e & k & v & c & ->).
    rewrite assertProperty_Property.
    destruct (property_literal_boolean (Property s e k v c)) as [[|]|];
      cbn; rewrite ?app_nil_r, ?orb_false_r, ?orb_true_r; reflexivity.
  - cbn [bind orb andb].
    destruct (literal_eqb_string (getPropertyKey p) "waitAfter") eqn:Hw.
    + destruct (getPropertyKey_Property p _ Hw) as (s & e & k & v & c & ->).
      rewrite assertProperty_Property.
      destruct (property_literal_boolean (Property s e k v c)) as [[|]|];
        cbn; rewrite ?app_nil_r, ?orb_false_r, ?orb_true_r; reflexivity.
    + cbn. rewrite app_nil_r, !orb_false_r. reflexivity.
Qed.

Lemma forEach_api_argProp (properties : list Node) :
  forall errors sync wait,
    forEach api_argProp properties (errors, sync, wait)
    = Ok (errors ++ map flag_error (filter bad_flag properties),
          sync || existsb (sets_flag "sync" false) properties,
          wait || existsb (sets_flag "waitAfter" true) properties).
Proof.
  induction properties as [|p l IH]; intros errors sync wait; cbn [forEach filter existsb map].
  - rewrite app_nil_r, !orb_false_r. reflexivity.
  - rewrite api_argProp_step. cbn [bind]. rewrite IH.
    destruct (bad_flag p); cbn [map app]; rewrite <- ?app_assoc, ?app_nil_r, !orb_assoc;
      reflexivity.
Qed.

Lemma api_annotations_member s e receiver property computed :
  api_annotations (MemberExpression s e receiver property computed)
  = Ok (map flag_error (filter bad_flag (api_properties receiver)),
        existsb (sets_flag "sync" false) (api_properties receiver),
        existsb (sets_flag "waitAfter" true) (api_properties receiver)).
Proof.
  cbn [api_annotations].
  destruct receiver; try reflexivity.
  destruct arguments as [|a rest]; [reflexivity|].
  destruct a; try reflexivity.
  cbn [api_properties]. rewrite forEach_api_argProp. reflexivity.
Qed.

Lemma startsWith_api (d : string) :
  startsWith d "api." = true ->
  String.eqb d "" = false /\ String.eqb d "api" = false.
Proof.
  intros H. split.
  - destruct (String.eqb d "") eqn:E; [|reflexivity].
    apply String.eqb_eq in E. subst. discriminate.
  - destruct (String.eqb d "api") eqn:E; [|reflexivity].
    apply String.eqb_eq in E. subst. discriminate.
Qed.

(** X8: on a call whose resolved name starts with ["api."] and whose callee is
    a member access, the api rule reads the object literal that is the first
    argument of the receiver call (nothing, if the receiver is not such a
    call): [apiSyncDisabled] is present exactly when some [sync] property is
    the literal [false], [apiWaitAfter] exactly when some [waitAfter] property
    is the literal [true], and [errors] lists, in order, one entry per [sync]
    or [waitAfter] property whose value is not a literal boolean, located at
    that value.  The rule itself never throws: the call is recorded unless
    the evaluation of its literal arguments, which comes first, throws (at a
    hole of an array literal), and then that error is the outcome. *)
Theorem api_rule_on_member_callee :
  forall start end_ s e receiver property computed arguments ancestors calls dotted,
    _traverse (MemberExpression s e receiver property computed) = Some dotted ->
    startsWith dotted "api." = true ->
    let node :=
      CallExpression start end_
        (MemberExpression s e receiver property computed) arguments in
    (forall err,
        literal_arguments 0 arguments = Throw err ->
        findFuncCalls_visitor node ancestors calls = Throw err)
    /\ (forall literalArguments,
           literal_arguments 0 arguments = Ok literalArguments ->
           exists c,
             findFuncCalls_visitor node ancestors calls = Ok (calls ++ [c])
             /\ CallObj.name c = dotted
             /\ CallObj.apiSyncDisabled c
                = key_if (existsb (sets_flag "sync" false) (api_properties receiver))
             /\ CallObj.apiWaitAfter c
                = key_if (existsb (sets_flag "waitAfter" true)
                            (api_properties receiver))
             /\ CallObj.errors c
                = match filter bad_flag (api_properties receiver) with
                  | [] => None
                  | bad => Some (map flag_error bad)
                  end).
Proof.
  intros start end_ s e receiver property computed arguments ancestors calls dotted
         Hd Hs node.
  destruct (startsWith_api _ Hs) as [He Ha].
  unfold node, findFuncCalls_visitor, parseCallee; cbn [bind].
  rewrite Hd; cbn [truthy_name]. rewrite He; cbn [negb].
  split.
  - intros err ->. reflexivity.
  - intros literalArguments ->; cbn [bind]. rewrite Ha, Hs.
    rewrite api_annotations_member; cbn [bind].
    eexists. split; [reflexivity|].
    cbn [CallObj.name CallObj.apiSyncDisabled CallObj.apiWaitAfter CallObj.errors].
    split; [reflexivity|].
    split; [destruct (existsb (sets_flag "sync" false) _); reflexivity|].
    split; [destruct (existsb (sets_flag "waitAfter" true) _); reflexivity|].
    destruct (filter bad_flag (api_properties receiver)); reflexivity.
Qed.

Lemma api_rule_on_member_callee_witness :
  exists c,
    findFuncCalls_visitor (api_region_submit_call (Identifier 19 31 "someVariable"))
      [api_region_submit_call (Identifier 19 31 "someVariable")] []
    = Ok ([] ++ [c])
    /\ CallObj.apiSyncDisabled c = None
    /\ CallObj.apiWaitAfter c = Some true
    /\ option_map (map DeferredErrorObj.loc) (CallObj.errors c) = Some [19].
Proof.
  destruct (proj2 (api_rule_on_member_callee 0 53 0 51
                     (call_receiver
                        (api_region_submit_call (Identifier 19 31 "someVariable")))
                     (Identifier 45 51 "submit") false []
                     [api_region_submit_call (Identifier 19 31 "someVariable")] []
                     "api.region().submit" eq_refl eq_refl) [] eq_refl)
    as (c & Hv & _ & Hs & Hw & He).
  exists c. split; [exact Hv|]. split; [exact Hs|]. split; [exact Hw|].
  rewrite He. reflexivity.
Defined.

(* ================================================================== *)
(** ** [findFuncCalls]: when it throws *)

Lemma forEach_total {A S} (f : A -> S -> result S) (l : list A) :
  (forall x, In x l -> forall s, exists s', f x s = Ok s') ->
  forall s, exists s', forEach f l s = Ok s'.
Proof.
  induction l as [|x l IH]; intros Hf s; cbn [forEach]; [eauto|].
  destruct (Hf x (or_introl eq_refl) s) as [s1 ->]; cbn [bind].
  apply IH. intros y Hy. apply Hf. right. exact Hy.
Qed.

Lemma findFuncCalls_visitor_crash (n : Node) ancestors calls :
  call_crash n = true ->
  findFuncCalls_visitor n ancestors calls = Throw TypeError.
Proof.
  destruct n; try discriminate.
  unfold call_crash, arguments_throw; cbn [resolved_name call_arguments api_crash].
  destruct (_traverse n) as [d|] eqn:Hd; [|discriminate].
  unfold findFuncCalls_visitor, parseCallee; cbn [bind].
  rewrite Hd; cbn [truthy_name].
  destruct (String.eqb d "") eqn:He; cbn [negb andb]; [discriminate|].
  destruct (literal_arguments 0 arguments) as [literalArguments|err] eqn:Hl;
    cbn [bind orb].
  - intros H. apply andb_true_iff in H as [Hs Hm].
    destruct (startsWith_api _ Hs) as [_ Ha]. rewrite Ha, Hs.
    destruct n; try reflexivity; discriminate.
  - intros _. f_equal. exact (literal_arguments_only_TypeError _ _ _ Hl).
Qed.

Lemma findFuncCalls_visitor_no_crash (n : Node) ancestors calls :
  isCallExpression n = true ->
  call_crash n = false ->
  exists calls', findFuncCalls_visitor n ancestors calls = Ok calls'.
Proof.
  destruct n; try discriminate. intros _.
  unfold call_crash, arguments_throw; cbn [resolved_name call_arguments api_crash].
  unfold findFuncCalls_visitor, parseCallee; cbn [bind].
  destruct (_traverse n) as [d|] eqn:Hd; cbn [truthy_name negb]; [|eauto].
  destruct (String.eqb d ""); cbn [negb andb]; [eauto|].
  destruct (literal_arguments 0 arguments) as [literalArguments|err];
    cbn [bind orb]; [|discriminate].
  destruct (String.eqb d "api"); [eauto|].
  destruct (startsWith d "api.") eqn:Hs; cbn [andb]; [|cbn [bind]; eauto].
  intros Hm. destruct n; try discriminate.
  rewrite api_annotations_member; cbn [bind]. eauto.
Qed.

(** X9: [findFuncCalls] throws exactly when the walk meets a call that
    resolves to a name and either has an argument whose literal evaluation
    throws, as in [f([1,,2])], or has a name that starts with ["api."] and a
    callee that is not a member access, as in [api.region()()], where
    [node.callee.object] is undefined.  It then throws a TypeError, and on
    every other tree it returns. *)
Theorem findFuncCalls_throws_iff_call_crash :
  forall ast : Node,
    (existsb (fun v => call_crash (fst v)) (visits [] ast) = true ->
     findFuncCalls ast = Throw TypeError)
    /\ (existsb (fun v => call_crash (fst v)) (visits [] ast) = false ->
        exists calls, findFuncCalls ast = Ok calls).
Proof.
  intros ast. unfold findFuncCalls, walk_ancestor. split; intros H.
  - apply existsb_exists in H as ([n anc] & Hin & Hc). cbn [fst] in Hc.
    apply forEach_throws with (x := (n, anc)); [| |exact Hin].
    + intros [m anc'] s e'; cbn [fst snd].
      destruct (isCallExpression m) eqn:Hm; [|discriminate].
      apply findFuncCalls_visitor_only_TypeError. exact Hm.
    + intros s; cbn [fst snd].
      assert (Hcall : isCallExpression n = true)
        by (destruct n; try discriminate; reflexivity).
      rewrite Hcall. apply findFuncCalls_visitor_crash. exact Hc.
  - apply forEach_total. intros [n anc] Hin s; cbn [fst snd].
    destruct (isCallExpression n) eqn:Hc; [|eauto].
    apply findFuncCalls_visitor_no_crash; [exact Hc|].
    destruct (call_crash n) eqn:Hcr; [|reflexivity].
    rewrite <- H. symmetry. apply existsb_exists. exists (n, anc). auto.
Qed.

Lemma findFuncCalls_throws_iff_call_crash_witness :
  findFuncCalls api_result_called = Throw TypeError
  /\ findFuncCalls call_with_hole = Throw TypeError
  /\ exists calls, findFuncCalls call_in_callback = Ok calls.
Proof.
  split; [|split].
  - apply (proj1 (findFuncCalls_throws_iff_call_crash api_result_called)). reflexivity.
  - apply (proj1 (findFuncCalls_throws_iff_call_crash call_with_hole)). reflexivity.
  - apply (proj2 (findFuncCalls_throws_iff_call_crash call_in_callback)). reflexivity.
Defined.

(* ================================================================== *)
(** ** [maybeGetLiteralValue] and [literalArguments] *)

Lemma has_key_In (output : list (string * value)) (key : string) :
  has_key output key = true <-> In key (map fst output).
Proof.
  unfold has_key. rewrite existsb_exists. split.
  - intros ([k w] & Hin & Heq). apply String.eqb_eq in Heq. cbn [fst] in Heq.
    subst k. apply in_map_iff. exists (key, w). auto.
  - intros Hin. apply in_map_iff in Hin as ([k w] & Heq & Hin). cbn [fst] in Heq.
    subst k. exists (key, w). split; [exact Hin | apply String.eqb_refl].
Qed.

Lemma obj_replace_In (output : list (string * value)) key v entry :
  In entry (obj_replace output key v) -> entry = (key, v) \/ In entry output.
Proof.
  induction output as [|[k w] rest IH]; cbn [obj_replace]; [contradiction|].
  destruct (String.eqb k key) eqn:E.
  - apply String.eqb_eq in E. subst. intros [<-|H]; [auto | right; right; exact H].
  - intros [<-|H]; [right; left; reflexivity|].
    destruct (IH H); [auto | right; right; assumption].
Qed.

Lemma obj_replace_keys (output : list (string * value)) key v :
  map fst (obj_replace output key v) = map fst output.
Proof.
  induction output as [|[k w] rest IH]; cbn [obj_replace map fst]; [reflexivity|].
  destruct (String.eqb k key); cbn [map fst]; [reflexivity | rewrite IH; reflexivity].
Qed.

Lemma obj_insert_index_In (output : list (string * value)) i key v entry :
  In entry (obj_insert_index output i key v) <-> entry = (key, v) \/ In entry output.
Proof.
  induction output as [|[k w] rest IH]; cbn [obj_insert_index].
  - cbn. intuition congruence.
  - destruct (array_index k) as [j|]; [destruct (j <? i)|]; cbn [In];
      rewrite ?IH; intuition congruence.
Qed.

Lemma obj_insert_index_NoDup (output : list (string * value)) i key v :
  ~ In key (map fst output) ->
  NoDup (map fst output) ->
  NoDup (map fst (obj_insert_index output i key v)).
Proof.
  induction output as [|[k w] rest IH]; cbn [obj_insert_index map fst]; intros Hk Hnd.
  - repeat constructor. intros [].
  - assert (Hnew : NoDup (key :: k :: map fst rest)) by (constructor; assumption).
    destruct (array_index k) as [j|]; [destruct (j <? i)|]; cbn [map fst];
      try exact Hnew.
    inversion Hnd as [|? ? Hnotin Hrest]; subst.
    constructor.
    + intros Hin. apply in_map_iff in Hin as ([k' w'] & Heq & Hin). cbn [fst] in Heq.
      subst k'. apply obj_insert_index_In in Hin as [Heq|Hin].
      * injection Heq as -> _. apply Hk. left. reflexivity.
      * apply Hnotin. apply in_map_iff. exists (k, w'). auto.
    + apply IH; [|exact Hrest]. intros Hin. apply Hk. right. exact Hin.
Qed.

(** An entry of the object after an assignment is the one assigned, whose
    name is not [__proto__], or was there before. *)
Lemma obj_set_In (output : list (string * value)) key v entry :
  In entry (obj_set output key v) ->
  (entry = (key, v) /\ key <> "__proto__"%string) \/ In entry output.
Proof.
  unfold obj_set. destruct (String.eqb key "__proto__") eqn:Hp; [auto|].
  apply String.eqb_neq in Hp.
  destruct (has_key output key).
  - intros H. apply obj_replace_In in H as [->|H]; auto.
  - destruct (array_index key) as [i|].
    + intros H. apply obj_insert_index_In in H as [->|H]; auto.
    + intros H. apply in_app_or in H as [H|[<-|[]]]; auto.
Qed.

Lemma obj_set_NoDup (output : list (string * value)) key v :
  NoDup (map fst output) -> NoDup (map fst (obj_set output key v)).
Proof.
  intros H. unfold obj_set. destruct (String.eqb key "__proto__"); [exact H|].
  destruct (has_key output key) eqn:Hk.
  - rewrite obj_replace_keys. exact H.
  - assert (Hnotin : ~ In key (map fst output)).
    { intros Hin. apply has_key_In in Hin. congruence. }
    destruct (array_index key) as [i|].
    + apply obj_insert_index_NoDup; assumption.
    + rewrite map_app. cbn [map fst].
      apply NoDup_app; [exact H | repeat constructor; intros [] |].
      intros k Hin [Heq|[]]. subst k. contradiction.
Qed.

Lemma maybeGetLiteralValue_array start end_ elements :
  maybeGetLiteralValue (ArrayExpression start end_ elements)
  = array_loop elements [].
Proof.
  reflexivity.
Qed.

Lemma maybeGetLiteralValue_object start end_ properties :
  maybeGetLiteralValue (ObjectExpression start end_ properties)
  = object_loop properties [].
Proof.
  reflexivity.
Qed.

Lemma array_loop_shape (elements : list (option Node)) (v : value) :
  forall output,
    array_loop elements output = Ok (Some v) ->
    exists values,
      v = VArray (output ++ values)
      /\ Forall2 element_evaluates_truthy elements values.
Proof.
  induction elements as [|e rest IH]; intros output H.
  - injection H as <-. exists []. rewrite app_nil_r. split; [reflexivity | constructor].
  - cbn [array_loop] in H. fold array_loop in H.
    destruct e as [e|]; [|discriminate].
    destruct (maybeGetLiteralValue e) as [[w|]|err] eqn:Hw; cbn [bind] in H;
      try discriminate.
    destruct (truthy_value (Some w)) eqn:Ht; cbn [negb] in H; [|discriminate].
    destruct (IH _ H) as (values & -> & Hall).
    exists (w :: values). rewrite <- app_assoc. split; [reflexivity|].
    constructor; [|exact Hall]. exists e. split; [reflexivity|]. split; assumption.
Qed.

Lemma object_loop_shape (properties : list Node) (v : value) :
  forall (seen : list Node) output,
    NoDup (map fst output) ->
    Forall (entry_of_property seen) output ->
    object_loop properties output = Ok (Some v) ->
    exists entries,
      v = VObject entries
      /\ NoDup (map fst entries)
      /\ Forall (entry_of_property (seen ++ properties)) entries.
Proof.
  induction properties as [|p rest IH]; intros seen output Hnd Hall H.
  - injection H as <-. exists output. rewrite app_nil_r. auto.
  - cbn [object_loop] in H. fold object_loop in H. cbn zeta in H.
    destruct (truthy_propkey (getPropertyKey p)) eqn:Hk; cbn [negb] in H; [|discriminate].
    destruct p; try discriminate.
    destruct (getPropertyKey (Property start end_ p1 p2 computed)) as [k|] eqn:Hkey;
      [|discriminate].
    destruct (maybeGetLiteralValue p2) as [[w|]|err] eqn:Hw; cbn [bind] in H;
      try discriminate.
    destruct (truthy_value (Some w)) eqn:Ht; cbn [negb] in H; [|discriminate].
    destruct (IH (seen ++ [Property start end_ p1 p2 computed])
                 (obj_set output (ToPropertyKey k) w)) as (entries & -> & Hnd' & Hall').
    + apply obj_set_NoDup. exact Hnd.
    + apply Forall_forall. intros entry Hin.
      apply obj_set_In in Hin as [[-> _]|Hin].
      * exists (Property start end_ p1 p2 computed), k.
        split; [apply in_or_app; right; left; reflexivity|].
        split; [exact Hkey|]. split; [reflexivity|]. split; assumption.
      * rewrite Forall_forall in Hall.
        destruct (Hall _ Hin) as (q & key & Hq & Hrest).
        exists q, key. split; [apply in_or_app; left; exact Hq | exact Hrest].
    + exact H.
    + exists entries. rewrite <- app_assoc in Hall'. auto.
Qed.

Lemma array_loop_inside_truthy (elements : list (option Node)) (v : value) :
  list_all (option Node)
    (option_all Node
       (fun n => forall w, maybeGetLiteralValue n = Ok (Some w) ->
                           inside_truthy w = true)) elements ->
  forall output,
    inside_truthy (VArray output) = true ->
    array_loop elements output = Ok (Some v) ->
    inside_truthy v = true.
Proof.
  induction 1 as [|x Hx l Hl IH]; intros output Hout H.
  - injection H as <-. exact Hout.
  - cbn [array_loop] in H. fold array_loop in H.
    destruct Hx as [e He|]; [|discriminate].
    destruct (maybeGetLiteralValue e) as [[w|]|err] eqn:Hw; cbn [bind] in H;
      try discriminate.
    destruct (truthy_value (Some w)) eqn:Ht; cbn [negb] in H; [|discriminate].
    apply (IH (output ++ [w])); [|exact H].
    cbn [inside_truthy] in *. rewrite forallb_app, Hout. cbn [forallb].
    rewrite Ht, (He _ eq_refl). reflexivity.
Qed.

Lemma object_loop_inside_truthy (properties : list Node) (v : value) :
  list_all Node
    (fun n => forall w, maybeGetLiteralValue (property_value n) = Ok (Some w) ->
                        inside_truthy w = true) properties ->
  forall output,
    inside_truthy (VObject output) = true ->
    object_loop properties output = Ok (Some v) ->
    inside_truthy v = true.
Proof.
  induction 1 as [|p Hp l Hl IH]; intros output Hout H.
  - injection H as <-. exact Hout.
  - cbn [object_loop] in H. fold object_loop in H. cbn zeta in H.
    destruct (truthy_propkey (getPropertyKey p)); cbn [negb] in H; [|discriminate].
    destruct p; try discriminate. cbn [property_value] in Hp.
    destruct (getPropertyKey _) as [k|]; [|discriminate].
    destruct (maybeGetLiteralValue p2) as [[w|]|err] eqn:Hw; cbn [bind] in H;
      try discriminate.
    destruct (truthy_value (Some w)) eqn:Ht; cbn [negb] in H; [|discriminate].
    apply (IH (obj_set output (ToPropertyKey k) w)); [|exact H].
    cbn [inside_truthy] in *. apply forallb_forall. intros [k' w'] Hin.
    apply obj_set_In in Hin as [[Heq Hproto]|Hin].
    + injection Heq as -> ->. apply String.eqb_neq in Hproto.
      rewrite Hproto, Ht, (Hp _ eq_refl). reflexivity.
    + rewrite forallb_forall in Hout. exact (Hout _ Hin).
Qed.

Lemma maybeGetLiteralValue_inside_truthy_aux (n : Node) :
  (forall w, maybeGetLiteralValue n = Ok (Some w) -> inside_truthy w = true)
  /\ (forall w, maybeGetLiteralValue (property_value n) = Ok (Some w) ->
                inside_truthy w = true).
Proof.
  induction n; cbn [property_value];
    try (split; intros w; cbn [maybeGetLiteralValue];
         intros Hw; (discriminate Hw || (injection Hw as <-; reflexivity)); fail);
    try (split; [intros w; discriminate | tauto]).
  - (* ArrayExpression *)
    enough (forall w, maybeGetLiteralValue (ArrayExpression start end_ elements)
                      = Ok (Some w) -> inside_truthy w = true) by tauto.
    intros w. rewrite maybeGetLiteralValue_array.
    apply array_loop_inside_truthy; [|reflexivity].
    match goal with L : list_all _ _ _ |- _ => induction L as [|x Hx l Hl IH] end;
      [constructor|].
    constructor; [|apply IH].
    destruct Hx as [a [Ha _]|]; constructor. exact Ha.
  - (* ObjectExpression *)
    enough (forall w, maybeGetLiteralValue (ObjectExpression start end_ properties)
                      = Ok (Some w) -> inside_truthy w = true) by tauto.
    intros w. rewrite maybeGetLiteralValue_object.
    apply object_loop_inside_truthy; [|reflexivity].
    match goal with L : list_all _ _ _ |- _ => induction L as [|x [_ Hx] l Hl IH] end;
      [constructor|].
    constructor; [exact Hx | apply IH].
Qed.

(** X10: whatever value [maybeGetLiteralValue] returns, every value inside
    it, at any depth, is truthy: an evaluated argument never holds 0, false,
    the empty string or null, in an array or under a key.  And no object in
    it has a property named [__proto__]: such a property of the literal is
    lost, as in [{__proto__: "x", a: "y"}], which evaluates to [{a: "y"}]. *)
Theorem maybeGetLiteralValue_values_are_truthy_inside :
  forall (n : Node) (v : value),
    maybeGetLiteralValue n = Ok (Some v) -> inside_truthy v = true.
Proof.
  intros n. apply (proj1 (maybeGetLiteralValue_inside_truthy_aux n)).
Qed.

Lemma maybeGetLiteralValue_values_are_truthy_inside_witness :
  maybeGetLiteralValue object_with_proto
  = Ok (Some (VObject [("a"%string, VLiteral (LString "y"))]))
  /\ inside_truthy (VObject [("a"%string, VLiteral (LString "y"))]) = true.
Proof.
  split; [reflexivity|].
  apply (maybeGetLiteralValue_values_are_truthy_inside object_with_proto). reflexivity.
Defined.

Lemma array_loop_returns (elements : list (option Node)) :
  list_all (option Node)
    (option_all Node
       (fun n => has_hole n = false -> exists r, maybeGetLiteralValue n = Ok r))
    elements ->
  has_hole (ArrayExpression 0 0 elements) = false ->
  forall output, exists r, array_loop elements output = Ok r.
Proof.
  induction 1 as [|x Hx l Hl IH]; intros Hh output; [eexists; reflexivity|].
  cbn [array_loop]. fold array_loop.
  destruct Hx as [e He|]; [|discriminate].
  cbn [has_hole] in Hh. apply orb_false_iff in Hh as [Hhe Hhl].
  destruct (He Hhe) as [[w|] ->]; cbn [bind]; [|eauto].
  destruct (negb (truthy_value (Some w))); [eauto|]. apply IH. exact Hhl.
Qed.

Lemma object_loop_returns (properties : list Node) :
  list_all Node
    (fun n => has_hole (property_value n) = false ->
              exists r, maybeGetLiteralValue (property_value n) = Ok r)
    properties ->
  has_hole (ObjectExpression 0 0 properties) = false ->
  forall output, exists r, object_loop properties output = Ok r.
Proof.
  induction 1 as [|p Hp l Hl IH]; intros Hh output; [eexists; reflexivity|].
  cbn [object_loop]. fold object_loop. cbn zeta.
  destruct (negb (truthy_propkey (getPropertyKey p))); [eauto|].
  destruct p; eauto. cbn [property_value] in Hp.
  destruct (getPropertyKey _) as [k|]; [|eauto].
  cbn [has_hole] in Hh. apply orb_false_iff in Hh as [Hhe Hhl].
  destruct (Hp Hhe) as [[w|] ->]; cbn [bind]; [|eauto].
  destruct (negb (truthy_value (Some w))); [eauto|]. apply IH. exact Hhl.
Qed.

Lemma maybeGetLiteralValue_returns_aux (n : Node) :
  (has_hole n = false -> exists r, maybeGetLiteralValue n = Ok r)
  /\ (has_hole (property_value n) = false ->
      exists r, maybeGetLiteralValue (property_value n) = Ok r).
Proof.
  induction n; cbn [property_value];
    try (split; intros _; eexists; reflexivity);
    try (split; [intros _; eexists; reflexivity | tauto]).
  - (* ArrayExpression *)
    enough (has_hole (ArrayExpression start end_ elements) = false ->
            exists r, maybeGetLiteralValue (ArrayExpression start end_ elements) = Ok r)
      by tauto.
    intros Hh. rewrite maybeGetLiteralValue_array.
    apply array_loop_returns; [clear Hh|exact Hh].
    match goal with L : list_all _ _ _ |- _ => induction L as [|x Hx l Hl IH] end;
      [constructor|].
    constructor; [|apply IH].
    destruct Hx as [a [Ha _]|]; constructor. exact Ha.
  - (* ObjectExpression *)
    enough (has_hole (ObjectExpression start end_ properties) = false ->
            exists r, maybeGetLiteralValue (ObjectExpression start end_ properties) = Ok r)
      by tauto.
    intros Hh. rewrite maybeGetLiteralValue_object.
    apply object_loop_returns; [clear Hh|exact Hh].
    match goal with L : list_all _ _ _ |- _ => induction L as [|x [_ Hx] l Hl IH] end;
      [constructor|].
    constructor; [exact Hx | apply IH].
Qed.

(** X11: [maybeGetLiteralValue] throws only at a hole of an array literal
    (the recursive call receives [null]) and then with a TypeError: on an
    expression without a hole in its arrays, nested ones included, it
    returns.  A hole need not be reached: [[1,,2]] throws, but [[x,,2]]
    evaluates to [undefined], the first element ending the loop. *)
Theorem maybeGetLiteralValue_throws_only_at_holes :
  forall n : Node,
    (has_hole n = false -> exists r, maybeGetLiteralValue n = Ok r)
    /\ (forall e, maybeGetLiteralValue n = Throw e ->
                  e = TypeError /\ has_hole n = true).
Proof.
  intros n. split.
  - apply (proj1 (maybeGetLiteralValue_returns_aux n)).
  - intros e H. split; [exact (maybeGetLiteralValue_only_TypeError _ _ H)|].
    destruct (has_hole n) eqn:Hh; [reflexivity|].
    destruct (proj1 (maybeGetLiteralValue_returns_aux n) Hh) as [r Hr]. congruence.
Qed.

Lemma maybeGetLiteralValue_throws_only_at_holes_witness :
  maybeGetLiteralValue array_with_hole = Throw TypeError
  /\ has_hole array_with_hole = true
  /\ has_hole array_unknown_then_hole = true
  /\ maybeGetLiteralValue array_unknown_then_hole = Ok None
  /\ exists r, maybeGetLiteralValue array_one_object = Ok r.
Proof.
  split; [reflexivity|].
  split; [exact (proj2 (proj2 (maybeGetLiteralValue_throws_only_at_holes array_with_hole)
                         TypeError eq_refl))|].
  split; [reflexivity|]. split; [reflexivity|].
  apply (proj1 (maybeGetLiteralValue_throws_only_at_holes array_one_object)).
  reflexivity.
Defined.

(** X12: an array literal never evaluates to a shorter or longer array: the
    result has one value per element, in order, each the truthy value its
    element evaluates to (so no element is a hole).  An object literal
    evaluates to an object whose keys are distinct (a repeated key keeps one
    entry) and whose entries each come from a property of the literal, with
    the truthy value that property's value evaluates to. *)
Theorem maybeGetLiteralValue_composite_shape :
  forall (start end_ : Z) (elements : list (option Node)) (properties : list Node)
         (v : value),
    (maybeGetLiteralValue (ArrayExpression start end_ elements) = Ok (Some v) ->
     exists values,
       v = VArray values
       /\ List.length values = List.length elements
       /\ Forall2 element_evaluates_truthy elements values)
    /\ (maybeGetLiteralValue (ObjectExpression start end_ properties) = Ok (Some v) ->
        exists entries,
          v = VObject entries
          /\ NoDup (map fst entries)
          /\ Forall (entry_of_property properties) entries).
Proof.
  intros start end_ elements properties v. split; intros H.
  - rewrite maybeGetLiteralValue_array in H.
    apply array_loop_shape in H as (values & -> & Hall).
    exists values. split; [reflexivity|]. split; [|exact Hall].
    symmetry. eapply Forall2_length. exact Hall.
  - rewrite maybeGetLiteralValue_object in H.
    apply (object_loop_shape properties v []) in H; [exact H | constructor | constructor].
Qed.

Lemma maybeGetLiteralValue_composite_shape_witness :
  exists values,
    VArray [VLiteral (LNumber 1); VObject [("a"%string, VLiteral (LString "x"))]]
    = VArray values
    /\ List.length values = 2%nat.
Proof.
  destruct (proj1 (maybeGetLiteralValue_composite_shape 0 13
                     [Some (Literal 1 2 (LNumber 1));
                      Some (ObjectExpression 4 12
                              [Property 5 11 (Identifier 5 6 "a")
                                 (Literal 8 11 (LString "x")) false])]
                     []
                     (VArray [VLiteral (LNumber 1);
                              VObject [("a"%string, VLiteral (LString "x"))]]))
              eq_refl) as (values & Hv & Hlen & _).
  exists values. split; [exact Hv | exact Hlen].
Defined.

Lemma literal_arguments_In (arguments : list Node) :
  forall (k : nat) (literalArguments : list (nat * value)),
    literal_arguments k arguments = Ok literalArguments ->
    forall (i : nat) (v : value),
      In (i, v) literalArguments
      <-> (k <= i)%nat
          /\ exists a, nth_error arguments (i - k) = Some a /\ evaluates_truthy a v.
Proof.
  unfold evaluates_truthy.
  induction arguments as [|a rest IH]; intros k lits H i v;
    cbn [literal_arguments] in H.
  - injection H as <-. split; [contradiction|].
    intros (_ & b & Hb & _). destruct (i - k)%nat; discriminate.
  - apply bind_Ok in H as (value & Hw & H).
    apply bind_Ok in H as (lits' & Hrest' & H). injection H as <-.
    assert (Hrest : In (i, v) lits'
                    <-> (k < i)%nat
                        /\ exists b, nth_error (a :: rest) (i - k) = Some b
                                     /\ maybeGetLiteralValue b = Ok (Some v)
                                     /\ truthy_value (Some v) = true).
    { rewrite (IH _ _ Hrest'). split.
      - intros (Hle & b & Hb & Hv). split; [lia|]. exists b. split; [|exact Hv].
        replace (i - k)%nat with (S (i - S k)) by lia. exact Hb.
      - intros (Hlt & b & Hb & Hv). split; [lia|]. exists b. split; [|exact Hv].
        replace (i - k)%nat with (S (i - S k)) in Hb by lia. exact Hb. }
    destruct value as [w|].
    + destruct (truthy_value (Some w)) eqn:Ht.
      * split.
        -- intros [Heq|Hin].
           ++ injection Heq as <- <-. split; [lia|]. exists a.
              rewrite Nat.sub_diag. auto.
           ++ apply Hrest in Hin as (Hlt & Hex). split; [lia | exact Hex].
        -- intros (Hle & b & Hb & Hv & Htv).
           destruct (Nat.eq_dec i k) as [->|Hne].
           ++ rewrite Nat.sub_diag in Hb. injection Hb as <-.
              left. congruence.
           ++ right. apply Hrest. split; [lia|]. eauto.
      * rewrite Hrest. split.
        -- intros (Hlt & Hex). split; [lia | exact Hex].
        -- intros (Hle & b & Hb & Hv & Htv).
           destruct (Nat.eq_dec i k) as [->|Hne].
           ++ rewrite Nat.sub_diag in Hb. injection Hb as <-. congruence.
           ++ split; [lia|]. eauto.
    + rewrite Hrest. split.
      * intros (Hlt & Hex). split; [lia | exact Hex].
      * intros (Hle & b & Hb & Hv & Htv).
        destruct (Nat.eq_dec i k) as [->|Hne].
        -- rewrite Nat.sub_diag in Hb. injection Hb as <-. congruence.
        -- split; [lia|]. eauto.
Qed.

Lemma literal_arguments_returns (arguments : list Node) :
  forall k,
    (exists literalArguments, literal_arguments k arguments = Ok literalArguments)
    <-> (forall a, In a arguments -> exists r, maybeGetLiteralValue a = Ok r).
Proof.
  induction arguments as [|a rest IH]; intros k; cbn [literal_arguments].
  - split; [intros _ a [] | eauto].
  - split.
    + intros [lits H]. apply bind_Ok in H as (value & Hw & H).
      apply bind_Ok in H as (lits' & Hrest & _).
      intros b [<-|Hb]; [eauto|].
      apply (proj1 (IH (S k))); eauto.
    + intros H. destruct (H a (or_introl eq_refl)) as [r ->]; cbn [bind].
      destruct (proj2 (IH (S k))) as [lits ->]; [|cbn [bind]; eauto].
      intros b Hb. apply H. right. exact Hb.
Qed.

(** X13: when the literal arguments of a call are evaluated, the index [i] is
    a key of [literalArguments], with the value [v], exactly when the call
    has an argument at [i] that evaluates to [v] and [v] is truthy: an
    argument that is the literal 0, false, empty string or null is left out
    like one that is not literal at all.  The evaluation itself returns
    exactly when the evaluation of every argument does. *)
Theorem literalArguments_indexes_truthy_values :
  forall (arguments : list Node),
    (forall literalArguments (i : nat) (v : value),
        literal_arguments 0 arguments = Ok literalArguments ->
        (In (i, v) literalArguments
         <-> exists a, nth_error arguments i = Some a /\ evaluates_truthy a v))
    /\ ((exists literalArguments,
            literal_arguments 0 arguments = Ok literalArguments)
        <-> (forall a, In a arguments -> exists r, maybeGetLiteralValue a = Ok r)).
Proof.
  intros arguments. split; [|apply literal_arguments_returns].
  intros lits i v H. rewrite (literal_arguments_In _ _ _ H), Nat.sub_0_r.
  split; [intros [_ H']; exact H' | intros H'; split; [lia | exact H']].
Qed.

Lemma literalArguments_indexes_truthy_values_witness :
  exists literalArguments,
    literal_arguments 0 [Literal 2 3 (LNumber 0); Literal 5 6 (LNumber 1)]
    = Ok literalArguments
    /\ In (1%nat, VLiteral (LNumber 1)) literalArguments
    /\ ~ In (0%nat, VLiteral (LNumber 0)) literalArguments.
Proof.
  eexists. split; [reflexivity|].
  pose proof (proj1 (literalArguments_indexes_truthy_values
                       [Literal 2 3 (LNumber 0); Literal 5 6 (LNumber 1)])
                _ 1%nat (VLiteral (LNumber 1)) eq_refl) as H1.
  pose proof (proj1 (literalArguments_indexes_truthy_values
                       [Literal 2 3 (LNumber 0); Literal 5 6 (LNumber 1)])
                _ 0%nat (VLiteral (LNumber 0)) eq_refl) as H0.
  split.
  - apply H1. exists (Literal 5 6 (LNumber 1)). repeat split.
  - intros H. apply H0 in H as (a & Ha & _ & Ht). discriminate.
Defined.

(* ================================================================== *)
(** ** [findTests]: what is reported *)

(** X14: when [findTests] returns, its tests are, one for one and in the
    order of the walk (a test nested in the function of another comes before
    it), the calls of the tree that resolve to [it] or [it.*].  Each test has
    the span of its call, the span and [async] flag of the call's second
    argument, the call sites [findFuncCalls] collects in that argument, and
    one scope frame, outermost first, per test or describe call on the stack
    of its visit. *)
Theorem findTests_reports_every_test_call :
  forall (ast : Node) (out : TestsOutput),
    findTests (Some ast) = Ok out ->
    Forall2 test_of_visit
      (filter (fun v => is_test_call (fst v)) (visits [] ast)) (tests out).
Proof.
  intros ast out H. unfold findTests, walk_ancestor in H.
  apply forEach_walk_tests in H as [(added & Ht & F) _].
  cbn [tests app] in Ht. rewrite Ht. exact F.
Qed.

Lemma findTests_reports_every_test_call_witness :
  exists out,
    findTests (Some describe_only_G) = Ok out
    /\ List.length (tests out) = 1%nat
    /\ Forall2 test_of_visit
         (filter (fun v => is_test_call (fst v)) (visits [] describe_only_G))
         (tests out).
Proof.
  pose proof (findTests_reports_every_test_call describe_only_G) as H.
  destruct (findTests (Some describe_only_G)) as [out|e] eqn:E;
    [|vm_compute in E; discriminate].
  exists out. split; [reflexivity|]. split; [|exact (H out eq_refl)].
  vm_compute in E. injection E as <-. reflexivity.
Defined.

(** X15: when [findTests] returns, the bucket of each hook name holds, one for
    one and in the order of the walk, the calls of the tree that qualify as
    that hook (resolved name, one argument that is a function literal, no
    enclosing test call).  Each record has the span of its call, the span and
    [async] flag of the function, the call sites collected in it and one
    scope frame per describe call on the stack of its visit. *)
Theorem findTests_reports_every_hook_call :
  forall (ast : Node) (out : TestsOutput) (name : string),
    findTests (Some ast) = Ok out ->
    Forall2 hook_of_visit
      (filter (is_hook_visit name) (visits [] ast)) (bucket (hooks out) name).
Proof.
  intros ast out name H. unfold findTests, walk_ancestor in H.
  apply forEach_walk_tests in H as [_ Hh].
  destruct (Hh name) as (added & Hb & F).
  cbn [hooks] in Hb. rewrite bucket_initial in Hb. cbn [app] in Hb.
  rewrite Hb. eapply Forall2_impl; [|exact F]. intros v h [Hv _]. exact Hv.
Qed.

Lemma findTests_reports_every_hook_call_witness :
  exists out,
    findTests (Some describe_skip_beforeEach) = Ok out
    /\ List.length (bucket (hooks out) "beforeEach") = 1%nat
    /\ Forall2 hook_of_visit
         (filter (is_hook_visit "beforeEach") (visits [] describe_skip_beforeEach))
         (bucket (hooks out) "beforeEach").
Proof.
  pose proof (findTests_reports_every_hook_call describe_skip_beforeEach) as H.
  destruct (findTests (Some describe_skip_beforeEach)) as [out|e] eqn:E;
    [|vm_compute in E; discriminate].
  exists out. split; [reflexivity|].
  split; [|exact (H out "beforeEach"%string eq_refl)].
  vm_compute in E. injection E as <-. reflexivity.
Defined.

Lemma scope_frames_In (ancestors : list Node) (o : Node * option string) :
  In o (scope_frames ancestors) ->
  exists d, snd o = Some d /\ isTestOrDescribeIdentifier d = true.
Proof.
  unfold scope_frames. intros H. apply filter_In in H as [_ H].
  destruct (snd o) as [d|]; [|rewrite andb_false_r in H; discriminate].
  apply andb_true_iff in H as [_ H]. eauto.
Qed.

Lemma scope_of_frames frames scope (f : ScopeObj.t) :
  mapM scopeObj frames = Ok scope ->
  In f scope ->
  exists o, In o frames /\ snd o = Some (ScopeObj.func f).
Proof.
  intros H Hin. destruct (mapM_In _ _ _ H _ Hin) as (o & Ho & Hf).
  apply scopeObj_flags in Hf as (_ & Hd & _). eauto.
Qed.

Lemma bucket_In hooks name (h : CaseObj.t) :
  In h (bucket hooks name) -> exists l, In (name, l) hooks /\ In h l.
Proof.
  induction hooks as [|[k l] rest IH]; cbn [bucket]; [contradiction|].
  destruct (String.eqb k name) eqn:E.
  - apply String.eqb_eq in E. subst. intros H. exists l. split; [left; reflexivity | exact H].
  - intros H. destruct (IH H) as (l' & Hl & Hh). exists l'. split; [right; exact Hl | exact Hh].
Qed.

(** X16: the scope frames of a test are calls of the test or describe
    families only, and those of a hook are calls of the describe family
    only: no hook call, and no other call, ever is a frame, and a hook never
    has an [it] frame. *)
Theorem scope_frames_are_groups_and_tests :
  forall (ast : option Node) (out : TestsOutput),
    findTests ast = Ok out ->
    (forall t f,
        In t (tests out) -> In f (CaseObj.scope t) ->
        isTestOrDescribeIdentifier (ScopeObj.func f) = true)
    /\ (forall name h f,
           In h (bucket (hooks out) name) -> In f (CaseObj.scope h) ->
           isDescribeIdentifier (ScopeObj.func f) = true
           /\ isTestIdentifier (ScopeObj.func f) = false).
Proof.
  intros ast out H.
  enough (Hinv : Forall (fun t => forall f, In f (CaseObj.scope t) ->
                           isTestOrDescribeIdentifier (ScopeObj.func f) = true)
                        (tests out)
                 /\ Forall (fun kl => Forall (fun h => forall f, In f (CaseObj.scope h) ->
                              isDescribeIdentifier (ScopeObj.func f) = true
                              /\ isTestIdentifier (ScopeObj.func f) = false) (snd kl))
                           (hooks out)).
  { destruct Hinv as [Ht Hh]. rewrite Forall_forall in Ht, Hh. split.
    - intros t f Hin. apply Ht. exact Hin.
    - intros name h f Hin Hf. apply bucket_In in Hin as (l & Hl & Hin).
      specialize (Hh _ Hl). cbn [snd] in Hh. rewrite Forall_forall in Hh.
      exact (Hh h Hin f Hf). }
  revert ast out H. apply findTests_invariant.
  - split; [constructor|]. cbn. repeat constructor.
  - intros node ancestors out out' [Ht Hh] Hstep.
    destruct Hstep as [-> _ _
                      | s e callee args d f scope calls _ _ _ _ Hs _ ->
                      | s e callee d f scope calls hooks' _ _ _ _ _ Hex Hs _ Hp ->];
      cbn [tests hooks].
    + auto.
    + split; [|exact Hh]. apply Forall_app. split; [exact Ht|].
      constructor; [|constructor]. cbn [CaseObj.scope]. intros fr Hfr.
      destruct (scope_of_frames _ _ _ Hs Hfr) as (o & Ho & Hd).
      apply scope_frames_In in Ho as (d' & Hd' & Hok). congruence.
    + split; [exact Ht|].
      eapply hooks_push_Forall; [exact Hh| |exact Hp].
      cbn [CaseObj.scope]. intros fr Hfr.
      destruct (scope_of_frames _ _ _ Hs Hfr) as (o & Ho & Hd).
      assert (Htest : is_test_frame o = false).
      { destruct (is_test_frame o) eqn:E; [|reflexivity].
        rewrite <- Hex. symmetry. apply existsb_exists. exists o. split; assumption. }
      apply scope_frames_In in Ho as (d' & Hd' & Hok).
      unfold is_test_frame in Htest. rewrite Hd in Htest.
      rewrite Hd in Hd'. injection Hd' as <-.
      unfold isTestOrDescribeIdentifier in Hok. rewrite Htest in Hok. auto.
Qed.

Lemma scope_frames_are_groups_and_tests_witness :
  exists out h f,
    findTests (Some describe_skip_beforeEach) = Ok out
    /\ bucket (hooks out) "beforeEach" = [h]
    /\ CaseObj.scope h = [f]
    /\ isDescribeIdentifier (ScopeObj.func f) = true.
Proof.
  pose proof (scope_frames_are_groups_and_tests (Some describe_skip_beforeEach)) as H.
  destruct (findTests (Some describe_skip_beforeEach)) as [out|e] eqn:E;
    [|vm_compute in E; discriminate].
  destruct (H out eq_refl) as [_ Hh]. clear H.
  vm_compute in E. injection E as E. subst out.
  eexists _, _, _. split; [reflexivity|]. split; [reflexivity|]. split; [reflexivity|].
  exact (proj1 (Hh "beforeEach"%string _ _ (or_introl eq_refl) (or_introl eq_refl))).
Defined.

Lemma forEach_unchanged {A S} (f : A -> S -> result S) (l : list A) (s : S) :
  (forall x, In x l -> f x s = Ok s) -> forEach f l s = Ok s.
Proof.
  induction l as [|x l IH]; intros Hf; cbn [forEach]; [reflexivity|].
  rewrite (Hf x (or_introl eq_refl)); cbn [bind].
  apply IH. intros y Hy. apply Hf. right. exact Hy.
Qed.

Lemma findTests_visitor_other_call (n : Node) ancestors out :
  isCallExpression n = true ->
  is_test_call n = false ->
  is_hook_named n = false ->
  findTests_visitor n ancestors out = Ok out.
Proof.
  destruct n; try discriminate. intros _.
  unfold is_test_call, is_hook_named, findTests_visitor, parseCallee;
    cbn [resolved_name bind].
  destruct (_traverse n) as [d|]; cbn [truthy_name negb]; [|reflexivity].
  intros -> ->. destruct (String.eqb d ""); reflexivity.
Qed.

(** X17: on a tree in which no call resolves to a test identifier or to a hook
    name, [findTests] returns the empty result, four empty buckets and no
    test: other calls are never looked into, so nothing in them can make it
    throw. *)
Theorem findTests_without_test_or_hook_calls :
  forall ast : Node,
    forallb (fun v => negb (is_test_call (fst v)) && negb (is_hook_named (fst v)))
            (visits [] ast) = true ->
    findTests (Some ast) = Ok no_tests_no_hooks.
Proof.
  intros ast H. unfold findTests, walk_ancestor.
  apply forEach_unchanged. intros [n anc] Hin; cbn [fst snd].
  destruct (isCallExpression n) eqn:Hc; [|reflexivity].
  rewrite forallb_forall in H. specialize (H _ Hin). cbn [fst] in H.
  apply andb_true_iff in H as [Ht Hh].
  apply findTests_visitor_other_call;
    [exact Hc | destruct (is_test_call n); [discriminate | reflexivity]
    | destruct (is_hook_named n); [discriminate | reflexivity]].
Qed.

Lemma findTests_without_test_or_hook_calls_witness :
  findTests (Some (Program 0 15 [ExpressionStatement 0 15 api_result_called]))
  = Ok no_tests_no_hooks.
Proof.
  apply (findTests_without_test_or_hook_calls
           (Program 0 15 [ExpressionStatement 0 15 api_result_called])).
  reflexivity.
Defined.

(* ================================================================== *)
(** ** [findExportedFunc]: what is reported *)

Lemma registerExportedArrowFuncNode_Ok d0 xs xe s e fns fns' :
  registerExportedArrowFuncNode d0 xs xe s e fns = Ok fns' ->
  exists s0 e0 id sa ea async params body calls,
    d0 = VariableDeclarator s0 e0 id
           (Some (ArrowFunctionExpression sa ea async params body))
    /\ fns' = fns ++ [FunctionObj.mk (node_name id) s e xs xe
                        (node_start body) (node_end body) (Some async) calls].
Proof.
  destruct d0; try discriminate. cbn [registerExportedArrowFuncNode].
  destruct init as [i|]; [|discriminate]. destruct i; try discriminate.
  intros H. apply bind_Ok in H as (calls & _ & H). injection H as <-.
  do 9 eexists. split; reflexivity.
Qed.

Lemma or_default_Ok x fallback y :
  or_default x fallback = Ok y ->
  x = Some y \/ (x = None /\ fallback = Some y).
Proof.
  destruct x as [x|], fallback as [d|]; cbn; intros H; try discriminate;
    injection H as <-; auto.
Qed.

(** What [maybeRegisterVariableDeclarations] does when it returns. *)
Lemma maybeRegisterVariableDeclarations_Ok
    exportDefault defaultName sd ed kind declarations exportStart exportEnd s e fns fns' :
  maybeRegisterVariableDeclarations exportDefault defaultName
    (VariableDeclaration sd ed kind declarations) exportStart exportEnd s e fns
  = Ok fns' ->
  fns' = fns
  \/ exists name xs xe fs fe async calls,
      fns' = fns ++ [FunctionObj.mk name s e xs xe fs fe (Some async) calls]
      /\ or_default exportStart (option_map node_start exportDefault) = Ok xs
      /\ or_default exportEnd (option_map node_end exportDefault) = Ok xe
      /\ (is_some exportStart = true
          \/ (truthy_string defaultName = true /\ name = defaultName)).
Proof.
  unfold maybeRegisterVariableDeclarations. intros H.
  apply bind_Ok in H as (hasArrow & _ & H).
  apply bind_Ok in H as (hasIdent & Hident & H).
  destruct (is_some hasArrow); cbn [negb] in H; [|injection H as <-; auto].
  destruct (negb (is_some exportStart) && negb hasIdent) eqn:Hexp;
    [injection H as <-; auto|].
  destruct (Nat.ltb 1 (List.length declarations)) eqn:Hlen.
  { destruct (nth_error declarations 1); discriminate. }
  destruct declarations as [|d0 [|d1 rest]]; [discriminate| |discriminate].
  cbn [nth_error] in H.
  apply bind_Ok in H as (xs & Hxs & H). apply bind_Ok in H as (xe & Hxe & H).
  apply registerExportedArrowFuncNode_Ok in H
    as (s0 & e0 & id & sa & ea & async & params & body & calls & -> & ->).
  right. do 7 eexists. split; [reflexivity|]. split; [exact Hxs|]. split; [exact Hxe|].
  destruct (is_some exportStart); [auto|]. right.
  cbn [negb andb] in Hexp. destruct hasIdent; [|discriminate].
  destruct (truthy_string defaultName) eqn:Ht; [|discriminate].
  split; [reflexivity|]. cbn [findM id_matches bind] in Hident.
  destruct (option_string_eqb (node_name id) defaultName) eqn:Heq;
    [|discriminate].
  destruct (node_name id) as [n|], defaultName as [m|]; try discriminate.
  apply String.eqb_eq in Heq. congruence.
Qed.

(** What the callback of [ast.body.forEach] does when it returns. *)
Lemma findExportedFunc_statement_Ok body stmt fns fns' :
  findExportedFunc_statement (find is_default_export_of_identifier body)
    (default_export_of body) stmt fns = Ok fns' ->
  fns' = fns
  \/ exists f, fns' = fns ++ [f] /\ function_of_statement body stmt f.
Proof.
  unfold function_of_statement.
  destruct stmt; cbn [findExportedFunc_statement]; intros H;
    try (injection H as <-; auto; fail).
  - (* VariableDeclaration *)
    destruct (String.eqb kind "const"); [|injection H as <-; auto].
    apply maybeRegisterVariableDeclarations_Ok in H
      as [->|(name & xs & xe & fs & fe & async & calls & -> & Hxs & Hxe & Hwhy)];
      [auto|].
    right. eexists. split; [reflexivity|]. cbn.
    split; [reflexivity|]. split; [reflexivity|]. split; [discriminate|].
    right.
    apply or_default_Ok in Hxs as [Hxs|[_ Hxs]]; [discriminate|].
    apply or_default_Ok in Hxe as [Hxe|[_ Hxe]]; [discriminate|].
    destruct (find is_default_export_of_identifier body) as [d|]; [|discriminate].
    injection Hxs as <-. injection Hxe as <-.
    destruct Hwhy as [Hw|[Ht ->]]; [discriminate|].
    exists d. auto.
  - (* FunctionDeclaration *)
    destruct (truthy_string (default_export_of body)) eqn:Ht; [|injection H as <-; auto].
    destruct id as [id|]; [|discriminate].
    destruct (option_string_eqb (node_name id) (default_export_of body)) eqn:Heq;
      [|injection H as <-; auto].
    destruct (find is_default_export_of_identifier body) as [d|] eqn:Hd; [|discriminate].
    cbn [registerExportedFuncNode] in H.
    apply bind_Ok in H as (calls & _ & H). injection H as <-.
    right. eexists. split; [reflexivity|]. cbn.
    split; [reflexivity|]. split; [reflexivity|]. split; [discriminate|].
    right. exists d.
    assert (Hname : node_name id = default_export_of body).
    { destruct (node_name id) as [n|], (default_export_of body) as [m|];
        try discriminate.
      apply String.eqb_eq in Heq. congruence. }
    rewrite Hname. auto.
  - (* ExportNamedDeclaration *)
    destruct declaration as [decl|]; [|injection H as <-; auto].
    destruct (String.eqb (node_type decl) "FunctionDeclaration").
    + destruct decl; try discriminate. cbn [registerExportedFuncNode] in H.
      destruct id as [id|]; [|discriminate].
      apply bind_Ok in H as (calls & _ & H). injection H as <-.
      right. eexists. split; [reflexivity|]. cbn.
      split; [reflexivity|]. split; [reflexivity|]. split; [discriminate|]. left. auto.
    + destruct (is_const_declaration decl); [|injection H as <-; auto].
      destruct decl; try discriminate.
      apply maybeRegisterVariableDeclarations_Ok in H
        as [->|(name & xs & xe & fs & fe & async & calls & -> & Hxs & Hxe & _)];
        [auto|].
      right. eexists. split; [reflexivity|]. cbn.
      split; [reflexivity|]. split; [reflexivity|]. split; [discriminate|]. left.
      apply or_default_Ok in Hxs as [Hxs|[Hxs _]]; [|discriminate].
      apply or_default_Ok in Hxe as [Hxe|[Hxe _]]; [|discriminate].
      injection Hxs as <-. injection Hxe as <-. auto.
Qed.

Lemma forEach_statements body (l : list Node) :
  forall fns fns',
    forEach (findExportedFunc_statement (find is_default_export_of_identifier body)
               (default_export_of body)) l fns = Ok fns' ->
    exists stmts added,
      fns' = fns ++ added
      /\ subsequence stmts l
      /\ Forall2 (function_of_statement body) stmts added.
Proof.
  induction l as [|stmt l IH]; intros fns fns' H; cbn [forEach] in H.
  - injection H as <-. exists [], []. rewrite app_nil_r.
    split; [reflexivity|]. split; constructor.
  - apply bind_Ok in H as (fns1 & H1 & H2).
    destruct (IH _ _ H2) as (stmts & added & -> & Hsub & Hall).
    apply findExportedFunc_statement_Ok in H1 as [->|(f & -> & Hf)].
    + exists stmts, added. split; [reflexivity|].
      split; [constructor; exact Hsub | exact Hall].
    + exists (stmt :: stmts), (f :: added). rewrite <- app_assoc.
      split; [reflexivity|]. split; constructor; assumption.
Qed.

(** X18: the functions [findExportedFunc] reports are, one for one and in
    source order, some of the top-level statements of the file, each with the
    span of its statement: a nested function is never reported and a
    statement is reported at most once.  The export span of a function is its
    own span when the statement is itself an [export] declaration; otherwise
    it is the span of the file's [export default <identifier>] statement, and
    the function is named by that identifier.  The [async] key is always
    present. *)
Theorem findExportedFunc_reports_statements :
  forall (s e : Z) (body : list Node) (fns : list FunctionObj.t),
    findExportedFunc (Some (Program s e body)) = Ok fns ->
    exists stmts,
      subsequence stmts body
      /\ Forall2 (function_of_statement body) stmts fns.
Proof.
  intros s e body fns H. cbn [findExportedFunc] in H.
  apply forEach_statements in H as (stmts & added & -> & Hsub & Hall).
  exists stmts. split; assumption.
Qed.

Lemma findExportedFunc_reports_statements_witness :
  exists f,
    findExportedFunc (Some default_exported_arrow) = Ok [f]
    /\ FunctionObj.name f = Some "c"%string
    /\ FunctionObj.exportStart f = 26
    /\ exists stmts,
         subsequence stmts [const_c_arrow; export_default_c]
         /\ Forall2 (function_of_statement [const_c_arrow; export_default_c])
                    stmts [f].
Proof.
  eexists. split; [vm_compute; reflexivity|]. split; [reflexivity|].
  split; [reflexivity|].
  exact (findExportedFunc_reports_statements 0 43
           [const_c_arrow; export_default_c] _ eq_refl).
Defined.

Lemma findExportedFunc_statement_plain exportDefault defaultName stmt fns :
  plain_statement stmt = true ->
  truthy_string defaultName = false ->
  findExportedFunc_statement exportDefault defaultName stmt fns = Ok fns.
Proof.
  intros Hp Hd. destruct stmt; try reflexivity; try discriminate;
    cbn [findExportedFunc_statement plain_statement] in *.
  - destruct (String.eqb kind "const"); [|reflexivity].
    unfold maybeRegisterVariableDeclarations.
    rewrite (findM_init_is_arrow _ Hp), Hd; cbn [bind is_some negb andb].
    destruct (find has_arrow_init declarations); reflexivity.
  - rewrite Hd. reflexivity.
Qed.

(** X19: a file none of whose top-level statements is a named export
    ([export const ...], [export function ...]) and which has no
    [export default <identifier>] statement yields the empty list of
    functions, whatever it declares (its variable declarators having
    initializers).  So a function is not reported unless it is exported, and
    one exported inline, as in [export default async function f() {}], is not
    reported either. *)
Theorem findExportedFunc_nothing_exported :
  forall (s e : Z) (body : list Node),
    forallb plain_statement body = true ->
    truthy_string (default_export_of body) = false ->
    findExportedFunc (Some (Program s e body)) = Ok [].
Proof.
  intros s e body Hp Hd. cbn [findExportedFunc]. fold (default_export_of body).
  apply forEach_unchanged. intros stmt Hin.
  apply findExportedFunc_statement_plain; [|exact Hd].
  rewrite forallb_forall in Hp. auto.
Qed.

Lemma findExportedFunc_nothing_exported_witness :
  findExportedFunc (Some (Program 0 25 [const_c_arrow])) = Ok []
  /\ findExportedFunc (Some export_default_function) = Ok [].
Proof.
  split.
  - apply (findExportedFunc_nothing_exported 0 25 [const_c_arrow]); reflexivity.
  - apply (findExportedFunc_nothing_exported 0 36); reflexivity.
Defined.

(** X20: a variable declaration is passed over, exported or not, when it is
    not a [const] (as [export let f = () => {}]), or when none of its
    declarators is initialized with an arrow function (as
    [export const f = function () {}]): only [const] arrow functions are
    reported from variable declarations. *)
Theorem findExportedFunc_skips_other_declarations :
  forall exportDefault defaultName s e sd ed kind declarations fns,
    let declaration := VariableDeclaration sd ed kind declarations in
    String.eqb kind "const" = false
    \/ (forallb is_declarator_with_init declarations = true
        /\ existsb has_arrow_init declarations = false) ->
    findExportedFunc_statement exportDefault defaultName
      (ExportNamedDeclaration s e (Some declaration)) fns = Ok fns
    /\ findExportedFunc_statement exportDefault defaultName declaration fns = Ok fns.
Proof.
  intros exportDefault defaultName s e sd ed kind declarations fns declaration H.
  assert (Hm : String.eqb kind "const" = true ->
               forall xs xe s' e',
                 maybeRegisterVariableDeclarations exportDefault defaultName declaration
                   xs xe s' e' fns = Ok fns).
  { intros Hk xs xe s' e'. destruct H as [H|[Hi Ha]]; [congruence|].
    unfold declaration, maybeRegisterVariableDeclarations.
    rewrite (findM_init_is_arrow _ Hi). cbn [bind].
    destruct (truthy_string defaultName) eqn:Hd.
    - destruct defaultName as [name|]; [|discriminate].
      rewrite (findM_id_matches _ _ Hi). cbn [bind].
      rewrite find_is_some, Ha. reflexivity.
    - cbn [bind]. rewrite find_is_some, Ha. reflexivity. }
  unfold declaration in *. cbn [findExportedFunc_statement node_type is_const_declaration].
  replace (String.eqb "VariableDeclaration" "FunctionDeclaration") with false by reflexivity.
  destruct (String.eqb kind "const"); [|split; reflexivity].
  split; apply Hm; reflexivity.
Qed.

Lemma findExportedFunc_skips_other_declarations_witness :
  findExportedFunc_statement None None export_let_arrow [] = Ok [].
Proof.
  exact (proj1 (findExportedFunc_skips_other_declarations None None 0 23 7 23 "let"
                  [VariableDeclarator 11 23 (Identifier 11 12 "f")
                     (Some (ArrowFunctionExpression 15 23 false []
                              (BlockStatement 21 23 [])))] []
                  (or_introl eq_refl))).
Defined.

Lemma find_first_default_export a d b :
  existsb is_default_export_of_identifier a = false ->
  is_default_export_of_identifier d = true ->
  find is_default_export_of_identifier (a ++ d :: b) = Some d.
Proof.
  intros Ha Hd. induction a as [|x a IH]; cbn [app find].
  - rewrite Hd. reflexivity.
  - cbn [existsb] in Ha. apply orb_false_iff in Ha as [Hx Ha].
    rewrite Hx. exact (IH Ha).
Qed.

Lemma forEach_default_export exportDefault defaultName a d b fns :
  is_default_export_of_identifier d = true ->
  forEach (findExportedFunc_statement exportDefault defaultName) (a ++ d :: b) fns
  = forEach (findExportedFunc_statement exportDefault defaultName) (a ++ b) fns.
Proof.
  intros Hd. rewrite !forEach_app.
  destruct (forEach _ a fns) as [fns1|err]; cbn [bind forEach]; [|reflexivity].
  destruct d; try discriminate. reflexivity.
Qed.

(** X21: where the [export default <identifier>] statement stands in the file
    makes no difference: moving the first such statement to another place
    among the statements that are not of that kind changes neither the
    functions reported nor the error thrown, whatever the spans given to the
    [Program] node.  So a function may be declared before or after the line
    that exports it. *)
Theorem findExportedFunc_default_export_anywhere :
  forall (s e s' e' : Z) (d : Node) (a b a' b' : list Node),
    is_default_export_of_identifier d = true ->
    existsb is_default_export_of_identifier a = false ->
    existsb is_default_export_of_identifier a' = false ->
    a ++ b = a' ++ b' ->
    findExportedFunc (Some (Program s e (a ++ d :: b)))
    = findExportedFunc (Some (Program s' e' (a' ++ d :: b'))).
Proof.
  intros s e s' e' d a b a' b' Hd Ha Ha' Heq. cbn [findExportedFunc].
  rewrite (find_first_default_export a d b Ha Hd),
          (find_first_default_export a' d b' Ha' Hd).
  rewrite !forEach_default_export by exact Hd. rewrite Heq. reflexivity.
Qed.

Lemma findExportedFunc_default_export_anywhere_witness :
  findExportedFunc (Some default_exported_arrow)
  = findExportedFunc (Some (Program 0 43 [export_default_c; const_c_arrow]))
  /\ exists f, findExportedFunc (Some default_exported_arrow) = Ok [f].
Proof.
  split; [|eexists; vm_compute; reflexivity].
  apply (findExportedFunc_default_export_anywhere 0 43 0 43 export_default_c
           [const_c_arrow] [] [] [const_c_arrow]); reflexivity.
Defined.

(** ** Names: families and modifiers *)

Lemma isTestIdentifier_first ident :
  isTestIdentifier ident = true -> String.get 0 ident = Some "i"%char.
Proof.
  unfold isTestIdentifier, startsWith. intros H.
  apply orb_true_iff in H as [H|H].
  - apply String.eqb_eq in H. subst ident. reflexivity.
  - destruct ident as [|c r]; [discriminate|]. cbn [String.prefix] in H.
    destruct (ascii_dec "i" c) as [<-|]; [reflexivity | discriminate].
Qed.

Lemma isDescribeIdentifier_first ident :
  isDescribeIdentifier ident = true -> String.get 0 ident = Some "d"%char.
Proof.
  unfold isDescribeIdentifier, startsWith. intros H.
  apply orb_true_iff in H as [H|H].
  - apply String.eqb_eq in H. subst ident. reflexivity.
  - destruct ident as [|c r]; [discriminate|]. cbn [String.prefix] in H.
    destruct (ascii_dec "d" c) as [<-|]; [reflexivity | discriminate].
Qed.

Lemma SUPPORTED_HOOKS_has_first ident :
  SUPPORTED_HOOKS_has ident = true ->
  String.get 0 ident = Some "b"%char \/ String.get 0 ident = Some "a"%char.
Proof.
  unfold SUPPORTED_HOOKS_has, SUPPORTED_HOOKS. cbn [existsb]. intros H.
  repeat (apply orb_true_iff in H as [H|H]); try discriminate;
    apply String.eqb_eq in H; subst ident; auto.
Qed.

(** X22: a resolved name belongs to at most one of the three families the
    visitor of [findTests] tells apart: test identifiers ([it], [it.*]),
    describe identifiers ([describe], [describe.*]) and the four hook names.
    So a call is never both a test and a hook, and a hook is never a scope
    frame. *)
Theorem name_families_are_exclusive :
  forall ident : string, (family_count ident <= 1)%nat.
Proof.
  intros ident. unfold family_count.
  pose proof (isTestIdentifier_first ident) as Ht.
  pose proof (isDescribeIdentifier_first ident) as Hd.
  pose proof (SUPPORTED_HOOKS_has_first ident) as Hh.
  destruct (isTestIdentifier ident), (isDescribeIdentifier ident),
    (SUPPORTED_HOOKS_has ident); cbn [Nat.b2n Nat.add]; try lia;
    try specialize (Ht eq_refl); try specialize (Hd eq_refl);
    try (destruct (Hh eq_refl)); congruence.
Qed.

Lemma endsWith_get (s suffix : string) (k : nat) :
  endsWith s suffix = true ->
  (k < String.length suffix)%nat ->
  String.get (String.length s - 1 - k) s
  = String.get (String.length suffix - 1 - k) suffix.
Proof.
  unfold endsWith. intros H Hk.
  destruct (Nat.leb_spec (String.length suffix) (String.length s)) as [Hle|];
    [|discriminate].
  apply String.eqb_eq in H.
  transitivity (String.get (String.length suffix - 1 - k)
                  (String.substring (String.length s - String.length suffix)
                     (String.length suffix) s));
    [|rewrite H; reflexivity].
  rewrite String.substring_correct1 by lia. f_equal. lia.
Qed.

Lemma modifier_suffixes_exclusive (ident : string) :
  (Nat.b2n (isSkip ident) + Nat.b2n (isOnly ident)
   + Nat.b2n (isIosOnly ident) + Nat.b2n (isAndroidOnly ident) <= 1)%nat.
Proof.
  unfold isSkip, isOnly, isIosOnly, isAndroidOnly.
  pose proof (fun H => endsWith_get ident ".skip" 0 H ltac:(cbn; lia)) as S0.
  pose proof (fun H => endsWith_get ident ".only" 0 H ltac:(cbn; lia)) as O0.
  pose proof (fun H => endsWith_get ident ".only" 4 H ltac:(cbn; lia)) as O4.
  pose proof (fun H => endsWith_get ident ".iosOnly" 0 H ltac:(cbn; lia)) as I0.
  pose proof (fun H => endsWith_get ident ".iosOnly" 4 H ltac:(cbn; lia)) as I4.
  pose proof (fun H => endsWith_get ident ".ios" 0 H ltac:(cbn; lia)) as J0.
  pose proof (fun H => endsWith_get ident ".androidOnly" 0 H ltac:(cbn; lia)) as A0.
  pose proof (fun H => endsWith_get ident ".androidOnly" 4 H ltac:(cbn; lia)) as A4.
  pose proof (fun H => endsWith_get ident ".android" 0 H ltac:(cbn; lia)) as B0.
  cbn [String.length String.get Nat.sub] in *.
  destruct (endsWith ident ".skip");
    [specialize (S0 eq_refl) | clear S0];
  (destruct (endsWith ident ".only");
    [specialize (O0 eq_refl); specialize (O4 eq_refl) | clear O0 O4]);
  (destruct (endsWith ident ".iosOnly");
    [specialize (I0 eq_refl); specialize (I4 eq_refl) | clear I0 I4]);
  (destruct (endsWith ident ".ios");
    [specialize (J0 eq_refl) | clear J0]);
  (destruct (endsWith ident ".androidOnly");
    [specialize (A0 eq_refl); specialize (A4 eq_refl) | clear A0 A4]);
  (destruct (endsWith ident ".android");
    [specialize (B0 eq_refl) | clear B0]);
  cbn [Nat.b2n Nat.add orb]; try lia; congruence.
Qed.

(** X23: the four modifiers exclude one another: a name ends with at most one
    of [.skip], [.only], [.iosOnly] or [.ios], and [.androidOnly] or
    [.android], so a scope frame has at most one of the keys [skip], [only],
    [iosOnly] and [androidOnly] (a test may still have several, inherited
    from different frames). *)
Theorem scopeObj_has_one_modifier_at_most :
  forall (o : Node * option string) (f : ScopeObj.t),
    scopeObj o = Ok f -> (modifier_count f <= 1)%nat.
Proof.
  intros o f H. apply scopeObj_flags in H as ((Hs & Ho & Hi & Ha) & _).
  unfold modifier_count. rewrite Hs, Ho, Hi, Ha, !truthy_key_if.
  apply modifier_suffixes_exclusive.
Qed.

Lemma scopeObj_has_one_modifier_at_most_witness :
  exists f,
    scopeObj (CallExpression 0 12
                (MemberExpression 0 7 (Identifier 0 2 "it") (Identifier 3 7 "skip") false)
                [Literal 8 11 (LString "x")], Some "it.skip"%string) = Ok f
    /\ ScopeObj.skip f = Some true
    /\ (modifier_count f <= 1)%nat.
Proof.
  pose proof (scopeObj_has_one_modifier_at_most
                (CallExpression 0 12
                   (MemberExpression 0 7 (Identifier 0 2 "it") (Identifier 3 7 "skip")
                      false)
                   [Literal 8 11 (LString "x")], Some "it.skip"%string)) as H.
  destruct (scopeObj _) as [f|err] eqn:E; [|vm_compute in E; discriminate].
  exists f. split; [reflexivity|]. split; [|exact (H f eq_refl)].
  vm_compute in E. injection E as <-. reflexivity.
Defined.

(** ** [inferTestName] on template literals *)

Lemma join_template (q : string) (holes : list (Node * string)) :
  join (interleaveArray (q :: map snd holes)
          (map (fun i => "${" +++ str_of (node_name i) +++ "}") (map fst holes)))
  = template_text q holes.
Proof.
  revert q; induction holes as [|[x q'] rest IH]; intros q.
  - cbn. clear. induction q as [|c q IH]; cbn; [reflexivity | rewrite IH; reflexivity].
  - cbn [map fst snd template_text]. rewrite <- IH.
    cbn [interleaveArray join fold_right]. rewrite !append_assoc. reflexivity.
Qed.

(** X24: a test or group named by a template literal is labeled with the text
    of the template: the raw pieces in order, each hole in between written
    [${name}] with the name of the identifier in it ([${undefined}] when the
    hole holds another kind of expression); the other arguments of the call
    play no part. *)
Theorem inferTestName_template_text :
  forall (s e s' e' : Z) (callee : Node) (q : string)
         (holes : list (Node * string)) (arguments : list Node),
    inferTestName
      (CallExpression s e callee
         (TemplateLiteral s' e' (q :: map snd holes) (map fst holes) :: arguments))
    = Ok (LString (template_text q holes)).
Proof.
  intros. cbn [inferTestName]. rewrite join_template. reflexivity.
Qed.
